(** * ReferentialGym: grouped-sample selection and training orchestration

    A shallow embedding of
    - [ReferentialGym/datasets/dual_labeled_dataset.py] (class
      [DualLabeledDataset]: construction of the partition maps, [sample]),
    - [ReferentialGym/referential_game.py] (class [ReferentialGame]:
      [save], [load], and the loop nest of [train]),
    followed by the properties of these programs.

    Conventions.  A Python [dict] whose iteration order is observable is an
    association list in insertion order ([odict]); the partition maps, whose
    order is never observable in the results, are [gmap]s; a Python [set] of
    indices is a [gset nat].  A call that can raise returns an [outcome].
    What the program prints is collected as a list of [event]s. *)

From stdpp Require Import gmap strings list fin_maps fin_sets.
From Stdlib Require Import ZArith QArith.

#[local] Close Scope Q_scope.
#[local] Open Scope string_scope.
#[local] Open Scope Z_scope.
#[local] Open Scope nat_scope.
#[local] Open Scope list_scope.

(** ** Python preliminaries *)

Module Py.

(** [sub in s] on strings: [sub] occurs in [s] as a contiguous substring. *)
Fixpoint str_in (sub s : string) : bool :=
  String.prefix sub s ||
  match s with
  | EmptyString => false
  | String _ s' => str_in sub s'
  end.

(** The exceptions that the modelled code can raise. *)
Inductive exn :=
| KeyError (key : string)
| KeyErrorInt (key : Z)
| IndexError
| AssertionError
| AttributeError
| RuntimeError
| TypeError
| ZeroDivisionError
| BdbQuit
| IOError (msg : string).

(** Result of running a piece of code: a value, an uncaught exception, or
    no result within the given number of loop iterations. *)
Inductive outcome (A : Type) :=
| Ok (a : A)
| Raised (e : exn)
| OutOfFuel.
Arguments Ok {A} a.
Arguments Raised {A} e.
Arguments OutOfFuel {A}.

Definition bind {A B} (m : outcome A) (k : A → outcome B) : outcome B :=
  match m with
  | Ok a => k a
  | Raised e => Raised e
  | OutOfFuel => OutOfFuel
  end.

Definition of_option {A} (o : option A) (e : exn) : outcome A :=
  match o with
  | Some a => Ok a
  | None => Raised e
  end.

(** Insertion-ordered dictionaries with string keys. *)
Definition odict (V : Type) := list (string * V).

Fixpoint dict_get {V} (k : string) (d : odict V) : option V :=
  match d with
  | [] => None
  | (k', v) :: d' => if String.eqb k k' then Some v else dict_get k d'
  end.

Definition dict_mem {V} (k : string) (d : odict V) : bool :=
  match dict_get k d with
  | Some _ => true
  | None => false
  end.

(** [d[k] = v]: an existing key keeps its position, a new key goes last. *)
Fixpoint dict_set {V} (k : string) (v : V) (d : odict V) : odict V :=
  match d with
  | [] => [(k, v)]
  | (k', v') :: d' =>
      if String.eqb k k' then (k', v) :: d' else (k', v') :: dict_set k v d'
  end.

Definition dict_keys {V} (d : odict V) : list string := map fst d.

End Py.

Export Py.

#[export] Instance outcome_ret : MRet outcome := @Ok.
#[export] Instance outcome_bind : MBind outcome := λ A B k m, bind m k.

(** ** Tensors and payload values *)

(** A tensor is a shape together with its entries in row-major order.  The
    entries that the modelled code itself writes are the exact values [0.0]
    and [1.0]; entries are rationals. *)
Record tensor := Tensor { shape : list nat; data : list Q }.

(** The values that an item of an underlying dataset can hold under a key. *)
Inductive value :=
| VTensor (t : tensor)
| VInt (z : Z)
| VObj (descr : string).

Definition is_tensor (v : value) : bool :=
  match v with
  | VTensor _ => true
  | _ => false
  end.

(** [torch.zeros((n))] *)
Definition torch_zeros (n : nat) : tensor :=
  Tensor [n] (replicate n 0%Q).

(** [latent[i] = x] on a one-dimensional tensor; an index counts from the
    end when negative and raises [IndexError] outside [-n, n). *)
Definition tensor_setitem (t : tensor) (i : Z) (x : Q) : outcome tensor :=
  let n := Z.of_nat (length (data t)) in
  if decide (0 ≤ i < n)%Z then
    Ok (Tensor (shape t) (<[Z.to_nat i := x]> (data t)))
  else if decide (- n ≤ i < 0)%Z then
    Ok (Tensor (shape t) (<[Z.to_nat (n + i) := x]> (data t)))
  else Raised IndexError.

(** ** The underlying datasets *)

(** An item of an underlying dataset: the class reported by [getclass(idx)]
    and the dictionary returned by [dataset[idx]].  ([__init__] falls back
    on [_, cl = dataset[idx]] for a dataset without [getclass]; [sample]
    reads [dataset[idx].items()], so the datasets it serves return
    dictionaries and report the class through [getclass].) *)
Record item := Item { getclass : Z; getitem : odict value }.

(** ** [DualLabeledDataset] *)

Record kwargs := Kwargs {
  kw_train_dataset : list item;
  kw_test_dataset : list item;
  kw_mode : string;
  kw_nbr_distractors : gmap string nat
}.

Record DualLabeledDataset := {
  train_dataset : list item;
  test_dataset : list item;
  mode : string;
  train_classes : gmap Z (list nat);
  test_classes : gmap Z (list nat);
  nbr_classes : nat;
  (** Modelled from the spec: the attribute [nbr_distractors] of the base
      class [Dataset] (module [.dataset], absent here), the "configured
      distractor count" per mode, read as [self.nbr_distractors[self.mode]]. *)
  nbr_distractors : gmap string nat
}.

(** [if cl not in classes: classes[cl] = []] then [classes[cl].append(idx)] *)
Definition register_index (classes : gmap Z (list nat)) (cl : Z) (idx : nat)
  : gmap Z (list nat) :=
  <[cl := default [] (classes !! cl) ++ [idx]]> classes.

(** [for idx in range(len(dataset)): ... classes[cl].append(offset+idx)],
    started at position [idx] of the dataset. *)
Fixpoint index_classes (offset idx : nat) (dataset : list item)
    (classes : gmap Z (list nat)) : gmap Z (list nat) :=
  match dataset with
  | [] => classes
  | it :: rest =>
      index_classes offset (S idx) rest
        (register_index classes (getclass it) (offset + idx))
  end.

(** [for cl in train_classes: ... for idx in train_classes[cl]:
    test_classes[cl].append(idx)] *)
Definition add_train_classes (train test : gmap Z (list nat))
  : gmap Z (list nat) :=
  map_fold (λ cl idxs acc, <[cl := default [] (acc !! cl) ++ idxs]> acc)
    test train.

(** [DualLabeledDataset.__init__] *)
Definition init (kw : kwargs) : DualLabeledDataset :=
  let train_classes := index_classes 0 0 (kw_train_dataset kw) ∅ in
  let test_idx_offset := length (kw_train_dataset kw) in
  let test_classes := index_classes test_idx_offset 0 (kw_test_dataset kw) ∅ in
  let test_classes := add_train_classes train_classes test_classes in
  {| train_dataset := kw_train_dataset kw;
     test_dataset := kw_test_dataset kw;
     mode := kw_mode kw;
     train_classes := train_classes;
     test_classes := test_classes;
     nbr_classes := size test_classes;
     nbr_distractors := kw_nbr_distractors kw |}.

(** The global indices of the items of class [cl] in a dataset whose first
    item has the global index [start], in increasing order.  This is the
    yardstick against which the partition maps are stated. *)
Fixpoint class_members (cl : Z) (start : nat) (dataset : list item)
  : list nat :=
  match dataset with
  | [] => []
  | it :: rest =>
      if decide (getclass it = cl)
      then start :: class_members cl (S start) rest
      else class_members cl (S start) rest
  end.

(** [set_mode] *)
Definition set_mode (self : DualLabeledDataset) (newmode : string)
  : DualLabeledDataset :=
  {| train_dataset := train_dataset self;
     test_dataset := test_dataset self;
     mode := newmode;
     train_classes := train_classes self;
     test_classes := test_classes self;
     nbr_classes := nbr_classes self;
     nbr_distractors := nbr_distractors self |}.

(** [__len__] *)
Definition len (self : DualLabeledDataset) : nat :=
  if String.eqb (mode self) "test" then length (test_dataset self)
  else length (train_dataset self).

(** [getNbrClasses] *)
Definition getNbrClasses (self : DualLabeledDataset) : nat :=
  if String.eqb (mode self) "test" then nbr_classes self
  else size (train_classes self).

(** ** [DualLabeledDataset.sample]: choice of the indices *)

(** What [sample] writes on the console, and its stop in the debugger. *)
Inductive event :=
| Print (msg : string)
| PrintExn (e : exn)
| Breakpoint.

(** [ipdb.set_trace()] hands control to an interactive debugger (a library
    outside the repository).  Its effect on the program is the command the
    user answers with: [continue] resumes after the call, [quit] raises
    [BdbQuit] from it. *)
Inductive debugger_cmd := DbgContinue | DbgQuit.

Definition msg_removal : string :=
  "Exception caught during removal of the target index:".
Definition msg_not_enough : string :=
  "WARNING: Dataset's class has not enough element to choose from...".
Definition msg_all_classes : string :=
  "WARNING: Using all the classes to sample...".

(** [list(classes.keys())] *)
Definition class_keys (classes : gmap Z (list nat)) : list Z :=
  (map_to_list classes).*1.

(** [for class_idx in from_class:
       set_indices = set_indices.union(set(classes[class_idx]))] *)
Fixpoint union_classes (classes : gmap Z (list nat)) (from_class : list Z)
    (set_indices : gset nat) : outcome (gset nat) :=
  match from_class with
  | [] => Ok set_indices
  | class_idx :: rest =>
      match classes !! class_idx with
      | Some idxs =>
          union_classes classes rest (set_indices ∪ list_to_set idxs)
      | None => Raised (KeyErrorInt class_idx)
      end
  end.

(** [if excepts is not None: set_indices = set_indices.difference(excepts)] *)
Definition remove_excepts (set_indices : gset nat) (excepts : option (list nat))
  : gset nat :=
  match excepts with
  | Some ex => set_indices ∖ list_to_set ex
  | None => set_indices
  end.

(** The [try: set_indices.remove(idx) except Exception as e: ...] block:
    the log, and the set afterwards unless the debugger is quit. *)
Definition remove_target (set_indices : gset nat) (idx : nat)
    (dbg : debugger_cmd) : list event * outcome (gset nat) :=
  if decide (idx ∈ set_indices) then ([], Ok (set_indices ∖ {[idx]}))
  else
    ([Print msg_removal; PrintExn (KeyErrorInt (Z.of_nat idx)); Breakpoint],
     match dbg with
     | DbgContinue => Ok set_indices
     | DbgQuit => Raised BdbQuit
     end).

(** The [while test:] loop, run for at most [fuel] iterations.  It yields
    [set_indices], [indices] and [nbr_samples] as they are at loop exit. *)
Fixpoint sample_loop (fuel : nat) (self : DualLabeledDataset)
    (classes : gmap Z (list nat)) (idx : nat) (from_class : option (list Z))
    (excepts : option (list nat)) (not_enough_elements : bool)
    (dbg : debugger_cmd) : list event * outcome (gset nat * list nat * nat) :=
  match fuel with
  | 0 => ([], OutOfFuel)
  | S fuel' =>
      let from_class :=
        match from_class with
        | Some fc => if not_enough_elements then class_keys classes else fc
        | None => class_keys classes
        end in
      match union_classes classes from_class ∅ with
      | Ok set_indices =>
          let set_indices := remove_excepts set_indices excepts in
          match nbr_distractors self !! mode self with
          | None => ([], Raised (KeyError (mode self)))
          | Some nbr_samples =>
              match remove_target set_indices idx dbg with
              | (log, Ok set_indices) =>
                  if decide (size set_indices < nbr_samples) then
                    let '(log', r) :=
                      sample_loop fuel' self classes idx (Some from_class)
                        excepts true dbg in
                    (log ++ [Print msg_not_enough; Print msg_all_classes]
                         ++ log', r)
                  else (log, Ok (set_indices, [idx], nbr_samples))
              | (log, Raised e) => (log, Raised e)
              | (log, OutOfFuel) => (log, OutOfFuel)
              end
          end
      | Raised e => ([], Raised e)
      | OutOfFuel => ([], OutOfFuel)
      end
  end.

(** [random.choice(seq)] with the [k]-th variate of the shared random source
    [rnd]; raises [IndexError] on an empty sequence. *)
Definition random_choice (rnd : nat → nat) (k : nat) (seq : list nat)
  : outcome nat :=
  of_option (seq !! (rnd k mod length seq)) IndexError.

(** [for choice_idx in range(nbr_samples): chosen = random.choice(
    list(set_indices)); set_indices.remove(chosen); indices.append(chosen)],
    where [k] variates have been consumed so far. *)
Fixpoint draw (rnd : nat → nat) (k : nat) (nbr_samples : nat)
    (set_indices : gset nat) (indices : list nat) : outcome (list nat) :=
  match nbr_samples with
  | 0 => Ok indices
  | S n =>
      chosen ← random_choice rnd k (elements set_indices);
      draw rnd (S k) n (set_indices ∖ {[chosen]}) (indices ++ [chosen])
  end.

(** The active partition map: [self.test_classes] when ['test' in self.mode],
    else [self.train_classes]. *)
Definition active_classes (self : DualLabeledDataset) : gmap Z (list nat) :=
  if str_in "test" (mode self) then test_classes self else train_classes self.

(** The target as a global index: [idx += len(self.datasets['train'])] when
    ['test' in self.mode]. *)
Definition target_index (self : DualLabeledDataset) (idx : nat) : nat :=
  if str_in "test" (mode self) then idx + length (train_dataset self) else idx.

(** Lines 82 to 121 of [sample]: the list [indices]. *)
Definition sample_indices (self : DualLabeledDataset) (idx : nat)
    (from_class : option (list Z)) (excepts : option (list nat))
    (rnd : nat → nat) (dbg : debugger_cmd) (fuel : nat)
  : list event * outcome (list nat) :=
  let classes := active_classes self in
  let idx := target_index self idx in
  let '(log, r) :=
    sample_loop fuel self classes idx from_class excepts false dbg in
  (log, '(set_indices, indices, nbr_samples) ← r;
        draw rnd 0 nbr_samples set_indices indices).

(** ** [DualLabeledDataset.sample]: the payload *)

(** [sample_d] maps each key to a list object.  Two keys can hold the same
    list object (line 160), so the dictionary holds references into a heap
    of lists; a reference is the position of its list in the heap. *)
Record store := Store { sample_d : odict nat; heap : list (list value) }.

(** The dictionary literal of lines 123 to 128: four fresh empty lists. *)
Definition initial_store : store :=
  Store [("experiences", 0); ("exp_labels", 1); ("exp_latents", 2);
         ("exp_latents_values", 3)]
        [[]; []; []; []].

(** [sample_d[key].append(v)] *)
Definition list_append (st : store) (key : string) (v : value) : store :=
  match dict_get key (sample_d st) with
  | Some r => Store (sample_d st) (alter (λ l, l ++ [v]) r (heap st))
  | None => st
  end.

(** [sample_d[key] = []] *)
Definition new_list (st : store) (key : string) : store :=
  Store (dict_set key (length (heap st)) (sample_d st)) (heap st ++ [[]]).

(** [for key, value in sampled_d.items(): ...] (lines 139 to 145) *)
Fixpoint merge_item (sampled_d : odict value) (st : store)
    (need_reg : odict bool) : store * odict bool :=
  match sampled_d with
  | [] => (st, need_reg)
  | (key, v) :: rest =>
      let '(st, need_reg) :=
        if dict_mem key (sample_d st)
        then (st, dict_set key false need_reg)
        else (new_list st key, need_reg) in
      merge_item rest (list_append st key v) need_reg
  end.

(** Lines 151 to 154: the one-hot vector of a label. *)
Definition one_hot (nbr_classes : nat) (label : Z) : outcome tensor :=
  tensor_setitem (torch_zeros nbr_classes) label 1%Q.

(** Lines 151 to 157, taken when [need_reg["exp_latents"]] holds. *)
Definition derive_latent (self : DualLabeledDataset) (sampled_d : odict value)
    (st : store) : outcome store :=
  match dict_get "exp_labels" sampled_d with
  | Some (VInt label) =>
      latent ← one_hot (nbr_classes self) label;
      Ok (list_append st "exp_latents" (VTensor latent))
  | Some _ => Raised AssertionError
  | None => Raised (KeyError "exp_labels")
  end.

(** [sample_d["exp_latents_values"] = sample_d["exp_latents"]] *)
Definition alias_latents_values (st : store) : outcome store :=
  r ← of_option (dict_get "exp_latents" (sample_d st)) (KeyError "exp_latents");
  Ok (Store (dict_set "exp_latents_values" r (sample_d st)) (heap st)).

(** The owning partition of a global index and the index within it
    (lines 133 to 136). *)
Definition dereference (self : DualLabeledDataset) (idx : nat)
  : list item * nat :=
  if decide (length (train_dataset self) ≤ idx)
  then (test_dataset self, idx - length (train_dataset self))
  else (train_dataset self, idx).

(** The body of [for idx in indices:] up to the test of [target_only]
    (lines 131 to 161).  The assignments [need_reg[k] = False] of lines 157
    and 161 are never read again and are left out. *)
Definition collate_item (self : DualLabeledDataset) (idx : nat) (st : store)
  : outcome store :=
  let need_reg := map (λ kv, (kv.1, true)) (sample_d st) in
  let '(dataset, idx) := dereference self idx in
  it ← of_option (dataset !! idx) IndexError;
  let sampled_d := getitem it in
  let '(st, need_reg) := merge_item sampled_d st need_reg in
  no_labels ← of_option (dict_get "exp_labels" need_reg) (KeyError "exp_labels");
  if no_labels : bool then Raised AssertionError else
  no_latents ← of_option (dict_get "exp_latents" need_reg)
                 (KeyError "exp_latents");
  st ← (if no_latents : bool then derive_latent self sampled_d st else Ok st);
  no_values ← of_option (dict_get "exp_latents_values" need_reg)
                (KeyError "exp_latents_values");
  if no_values : bool then alias_latents_values st else Ok st.

(** [for idx in indices: ...; if target_only: break] *)
Fixpoint collate_items (self : DualLabeledDataset) (indices : list nat)
    (target_only : bool) (st : store) : outcome store :=
  match indices with
  | [] => Ok st
  | idx :: rest =>
      st ← collate_item self idx st;
      if target_only then Ok st else collate_items self rest target_only st
  end.

(** An entry of the returned dictionary: a plain sequence, a stacked tensor,
    or the list of sampled indices. *)
Inductive field :=
| FList (l : list value)
| FTensor (t : tensor)
| FIndices (l : list nat).

Definition tensor_of (v : value) : outcome tensor :=
  match v with
  | VTensor t => Ok t
  | _ => Raised TypeError
  end.

(** The entries of the tensors of a list when all have the shape [s]. *)
Fixpoint stack_data (s : list nat) (l : list value) : outcome (list Q) :=
  match l with
  | [] => Ok []
  | v :: rest =>
      t ← tensor_of v;
      if decide (shape t = s) then
        d ← stack_data s rest; Ok (data t ++ d)
      else Raised RuntimeError
  end.

(** [torch.stack(lvalue)]: a new leading axis over tensors of one shape. *)
Definition torch_stack (lvalue : list value) : outcome tensor :=
  match lvalue with
  | [] => Raised RuntimeError
  | v0 :: _ =>
      t0 ← tensor_of v0;
      d ← stack_data (shape t0) lvalue;
      Ok (Tensor (length lvalue :: shape t0) d)
  end.

(** The body of [for key, lvalue in sample_d.items():] (lines 166, 167):
    the new value of [sample_d[key]]. *)
Definition stack_field (lvalue : list value) : outcome field :=
  v0 ← of_option (head lvalue) IndexError;
  if is_tensor v0 then t ← torch_stack lvalue; Ok (FTensor t)
  else Ok (FList lvalue).

(** [for key, lvalue in sample_d.items(): ...] (lines 165 to 167) *)
Fixpoint stack_fields (heap : list (list value)) (d : odict nat)
  : outcome (odict field) :=
  match d with
  | [] => Ok []
  | (key, r) :: rest =>
      f ← stack_field (default [] (heap !! r));
      rest' ← stack_fields heap rest;
      Ok ((key, f) :: rest')
  end.

(** [x.unsqueeze(1)] *)
Definition unsqueeze1 (f : field) : outcome field :=
  match f with
  | FTensor (Tensor (d0 :: s) dat) => Ok (FTensor (Tensor (d0 :: 1 :: s) dat))
  | FTensor (Tensor [] _) => Raised IndexError
  | _ => Raised AttributeError
  end.

(** Lines 165 to 173 *)
Definition finish (st : store) (indices : list nat) : outcome (odict field) :=
  d ← stack_fields (heap st) (sample_d st);
  e ← of_option (dict_get "experiences" d) (KeyError "experiences");
  e ← unsqueeze1 e;
  Ok (dict_set "indices" (FIndices indices) (dict_set "experiences" e d)).

(** Lines 123 to 175: the returned dictionary for the chosen [indices]. *)
Definition collate (self : DualLabeledDataset) (indices : list nat)
    (target_only : bool) : outcome (odict field) :=
  st ← collate_items self indices target_only initial_store;
  finish st indices.

(** [DualLabeledDataset.sample].  [idx] is an index ([None], its default, is
    not one); [from_class] and [excepts] are [None] or lists.  The order of
    [list(set_indices)] and the variates of [rnd] are both arbitrary: what
    is proved below holds for every [rnd]. *)
Definition sample (self : DualLabeledDataset) (idx : nat)
    (from_class : option (list Z)) (excepts : option (list nat))
    (target_only : bool) (rnd : nat → nat) (dbg : debugger_cmd) (fuel : nat)
  : list event * outcome (odict field) :=
  let '(log, r) := sample_indices self idx from_class excepts rnd dbg fuel in
  (log, indices ← r; collate self indices target_only).

(** Vocabulary for the statements about [sample]. *)

(** The candidate classes in the first turn of the loop. *)
Definition candidate_classes (self : DualLabeledDataset)
    (from_class : option (list Z)) : list Z :=
  default (class_keys (active_classes self)) from_class.

(** The list that [sample_d[key]] denotes. *)
Definition field_list (st : store) (key : string) : option (list value) :=
  r ← dict_get key (sample_d st); heap st !! r.

(** Every reference of the dictionary is a list of the heap, and the keys
    of the one-hot latents are present. *)
Definition store_ok (st : store) : Prop :=
  (∀ k r, dict_get k (sample_d st) = Some r → r < length (heap st)) ∧
  dict_mem "exp_labels" (sample_d st) = true ∧
  dict_mem "exp_latents" (sample_d st) = true ∧
  dict_mem "exp_latents_values" (sample_d st) = true.

(** The item that a global index denotes. *)
Definition item_at (self : DualLabeledDataset) (idx : nat) : option item :=
  (dereference self idx).1 !! (dereference self idx).2.

(** The position that [latent[label]] denotes in a vector of [n] entries. *)
Definition position (n : nat) (label : Z) : nat :=
  Z.to_nat (label mod Z.of_nat n).

(** The one-hot vector of a label inside the range. *)
Definition one_hot_tensor (n : nat) (label : Z) : tensor :=
  Tensor [n] (<[position n label := 1%Q]> (replicate n 0%Q)).

(** A plain item: an image of shape [s] with entries [x.1] and an integer
    label [x.2] inside the range of the [n] classes, and nothing else. *)
Definition plain_item (n : nat) (s : list nat) (it : item) (x : list Q * Z)
  : Prop :=
  getitem it = [("experiences", VTensor (Tensor s x.1));
                ("exp_labels", VInt x.2)] ∧
  (- Z.of_nat n ≤ x.2 < Z.of_nat n)%Z.

(** Every index of [indices] denotes a plain item, those of [xs] in order. *)
Definition plain_items (self : DualLabeledDataset) (s : list nat)
    (indices : list nat) (xs : list (list Q * Z)) : Prop :=
  Forall2 (λ i x, ∃ it, item_at self i = Some it
                        ∧ plain_item (nbr_classes self) s it x) indices xs.

(** The store after the plain items [xs]; [r] is the list that
    ["exp_latents_values"] refers to. *)
Definition plain_store (n : nat) (s : list nat) (r : nat)
    (xs : list (list Q * Z)) : store :=
  Store [("experiences", 0); ("exp_labels", 1); ("exp_latents", 2);
         ("exp_latents_values", r)]
        [map (λ x, VTensor (Tensor s x.1)) xs;
         map (λ x, VInt x.2) xs;
         map (λ x, VTensor (one_hot_tensor n x.2)) xs;
         []].

(** The dictionary returned for the plain items [xs]. *)
Definition plain_result (n : nat) (s : list nat) (xs : list (list Q * Z))
    (indices : list nat) : odict field :=
  let latents :=
    FTensor (Tensor [length xs; n]
               (concat (map (λ x, data (one_hot_tensor n x.2)) xs))) in
  [("experiences",
    FTensor (Tensor (length xs :: 1 :: s) (concat (map fst xs))));
   ("exp_labels", FList (map (λ x, VInt x.2) xs));
   ("exp_latents", latents);
   ("exp_latents_values", latents);
   ("indices", FIndices indices)].

(** Index [i] is in the exclusion list. *)
Definition excluded (excepts : option (list nat)) (i : nat) : Prop :=
  ∃ ex, excepts = Some ex ∧ i ∈ ex.

(** Modelled from the spec: [Dataset.getNbrDistractors(mode)] and
    [Dataset.setNbrDistractors(n, mode)] of the base class (module
    [.dataset], absent here) read and write the entry of [mode] in the
    table of "configured distractor counts" of the dataset. *)
Definition getNbrDistractors (self : DualLabeledDataset) (for_mode : string)
  : outcome nat :=
  of_option (nbr_distractors self !! for_mode) (KeyError for_mode).

Definition setNbrDistractors (self : DualLabeledDataset) (n : nat)
    (for_mode : string) : DualLabeledDataset :=
  {| train_dataset := train_dataset self;
     test_dataset := test_dataset self;
     mode := mode self;
     train_classes := train_classes self;
     test_classes := test_classes self;
     nbr_classes := nbr_classes self;
     nbr_distractors := <[for_mode := n]> (nbr_distractors self) |}.

(** ** [ReferentialGame]: checkpoints *)

Module Checkpoint.

(** The four kinds of artifact of a checkpoint directory. *)
Inductive artifact :=
| AConfig
| AModule (module_id : string)
| APipelines
| ASignals.

(** The file system and the serialisers are outside the program: a call
    into them either returns ([None]) or raises an exception with a message
    ([Some e]).  [makedirs] is the call [os.makedirs(path, exist_ok=True)];
    [transfer a] is the writing (in [save]) or reading (in [load]) of the
    artifact [a].  A module is named by its identifier when it is saved and
    by the path of its [.pth] file when it is loaded. *)
Record io := IO { makedirs : option string; transfer : artifact → option string }.

Inductive io_event :=
| Done (a : artifact)
| Printed (msg : string).

(** [save_config] *)
Definition save_config (fs : io) : list io_event :=
  match transfer fs AConfig with
  | None => [Done AConfig]
  | Some e => [Printed ("Exception caught while trying to save config: " ++ e)]
  end.

(** [save_modules]: the [try] around the body of the loop is commented out,
    so the exception of a module leaves the function. *)
Fixpoint save_modules (fs : io) (modules : list string)
  : list io_event * outcome () :=
  match modules with
  | [] => ([], Ok ())
  | module_id :: rest =>
      match transfer fs (AModule module_id) with
      | None =>
          let '(log, r) := save_modules fs rest in
          (Done (AModule module_id) :: log, r)
      | Some e => ([], Raised (IOError e))
      end
  end.

(** [save_pipelines] *)
Definition save_pipelines (fs : io) : list io_event :=
  match transfer fs APipelines with
  | None => [Done APipelines]
  | Some e =>
      [Printed ("Exception caught while trying to save pipelines: " ++ e)]
  end.

(** [save_signals] *)
Definition save_signals (fs : io) : list io_event :=
  match transfer fs ASignals with
  | None => [Done ASignals]
  | Some e => [Printed ("Exception caught while trying to save signals: " ++ e)]
  end.

Definition when_verbose (verbose : bool) (msg : string) : list io_event :=
  if verbose then [Printed msg] else [].

(** [save]; [modules] lists the identifiers in [self.modules]. *)
Definition save (fs : io) (modules : list string) (verbose : bool)
    (path : option string) : list io_event * outcome () :=
  let log0 :=
    match path with
    | None =>
        [Printed "WARNING: no path provided for save. Saving in './temp_save/'."]
    | Some _ => []
    end in
  let path := default "./temp_save/" path in
  match makedirs fs with
  | Some e => (log0, Raised (IOError e))
  | None =>
      let log1 := save_config fs in
      match save_modules fs modules with
      | (log2, Ok _) =>
          (log0 ++ log1 ++ log2 ++ save_pipelines fs ++ save_signals fs
             ++ when_verbose verbose ("Saving at " ++ path ++ ": OK."), Ok ())
      | (log2, r) => (log0 ++ log1 ++ log2, r)
      end
  end.

(** [load_config] *)
Definition load_config (fs : io) (verbose : bool) : list io_event :=
  match transfer fs AConfig with
  | None => [Done AConfig]
  | Some e => [Printed ("Exception caught while trying to load config: " ++ e)]
  end ++ when_verbose verbose "Loading config: OK.".

(** The loop of [load_modules] over the paths found by [glob]. *)
Fixpoint load_each_module (fs : io) (modules_paths : list string)
  : list io_event :=
  match modules_paths with
  | [] => []
  | module_path :: rest =>
      match transfer fs (AModule module_path) with
      | None => [Done (AModule module_path)]
      | Some e =>
          [Printed (("Exception caught will trying to load module "
                       ++ module_path ++ ": ") ++ e)]
      end ++ load_each_module fs rest
  end.

(** [load_modules] *)
Definition load_modules (fs : io) (modules_paths : list string)
    (verbose : bool) : list io_event :=
  load_each_module fs modules_paths
    ++ when_verbose verbose "Loading modules: OK.".

(** [load_pipelines] *)
Definition load_pipelines (fs : io) (verbose : bool) : list io_event :=
  match transfer fs APipelines with
  | None => [Done APipelines]
  | Some e =>
      [Printed ("Exception caught while trying to load pipelines: " ++ e)]
  end ++ when_verbose verbose "Loading pipelines: OK.".

(** [load_signals] *)
Definition load_signals (fs : io) (verbose : bool) : list io_event :=
  match transfer fs ASignals with
  | None => [Done ASignals]
  | Some e => [Printed ("Exception caught while trying to load signals: " ++ e)]
  end ++ when_verbose verbose "Loading signals: OK.".

(** [load]: none of its four steps lets an exception out. *)
Definition load (fs : io) (modules_paths : list string) (verbose : bool)
    (path : string) : list io_event * outcome () :=
  (load_config fs verbose ++ load_modules fs modules_paths verbose
     ++ load_pipelines fs verbose ++ load_signals fs verbose
     ++ when_verbose verbose ("Loading from " ++ path ++ ": OK."), Ok ()).

(** The artifact [a] was written (or read) during the run with log [log]. *)
Definition completed (a : artifact) (log : list io_event) : Prop :=
  Done a ∈ log.

(** The failure on artifact [a] was reported on the console. *)
Definition reported (e : string) (log : list io_event) : Prop :=
  ∃ msg, Printed (msg ++ e) ∈ log.

End Checkpoint.

(** ** [ReferentialGame.train] *)

Module Train.

(** What the loop nest reads of [self.config] and of the game. *)
Record config := Config {
  (** [None] when the key is not in the configuration *)
  use_curriculum_nbr_distractors : option bool;
  curriculum_distractors_window_size : Z;
  (** [config['nbr_distractors']], a table of maxima by mode *)
  cfg_nbr_distractors : gmap string nat;
  nbr_communication_round : nat;
  (** [None] when the key is not in the configuration *)
  nbr_experience_repetition : option nat;
  (** [self.save_epoch_interval], an attribute of the game *)
  save_epoch_interval : option nat
}.

(** ['use_curriculum_nbr_distractors' in self.config and self.config[...]] *)
Definition curriculum_enabled (cfg : config) : bool :=
  default false (use_curriculum_nbr_distractors cfg).

(** What the orchestrator asks of its collaborators, in order.  The stream
    handler, the pipelines, the logger and the persistence layer are outside
    the function: a call is recorded, and is taken to return. *)
Inductive sigval :=
| SBool (b : bool)
| SNat (n : nat)
| SStr (s : string)
| SSample.

Inductive event :=
| Update (path : string) (v : sigval)
| Serve (pipe_id : string)
| Reset (path : string)
| SwitchEpoch
| Save.

(** The part of the state of [train] that its decisions depend on: the
    datasets by mode, the local variable [mode], the window of the
    curriculum, and the calls made so far.  The counters [it_datasamples],
    [it_samples] and [it_steps] and the signals computed from them are left
    out: nothing modelled here reads them.  Each dataset has its own table
    of distractor counts. *)
Record state := State {
  datasets : odict DualLabeledDataset;
  mode : string;
  windowed_accuracy : Q;
  window_count : nat;
  trace : list event
}.

Definition emit (evs : list event) (st : state) : state :=
  State (datasets st) (mode st) (windowed_accuracy st) (window_count st)
        (trace st ++ evs).

Definition set_mode_var (m : string) (st : state) : state :=
  State (datasets st) m (windowed_accuracy st) (window_count st) (trace st).

Definition set_window (wa : Q) (wc : nat) (st : state) : state :=
  State (datasets st) (mode st) wa wc (trace st).

Definition set_datasets (ds : odict DualLabeledDataset) (st : state) : state :=
  State ds (mode st) (windowed_accuracy st) (window_count st) (trace st).

(** [for mode in self.datasets:
       self.datasets[mode].setNbrDistractors(n, mode=mode)] (lines 213, 214);
    the loop variable is the local [mode] of [train]. *)
Fixpoint set_all (modes : list string) (n : nat) (st : state) : outcome state :=
  match modes with
  | [] => Ok st
  | m :: rest =>
      ds ← of_option (dict_get m (datasets st)) (KeyError m);
      set_all rest n
        (set_mode_var m
           (set_datasets (dict_set m (setNbrDistractors ds n m) (datasets st))
              st))
  end.

(** [for mode in self.datasets: self.datasets[mode].setNbrDistractors(
       self.datasets[mode].getNbrDistractors(mode=mode)+1, mode=mode)]
    (lines 378, 379), with the same loop variable. *)
Fixpoint increment_all (modes : list string) (st : state) : outcome state :=
  match modes with
  | [] => Ok st
  | m :: rest =>
      ds ← of_option (dict_get m (datasets st)) (KeyError m);
      n ← getNbrDistractors ds m;
      increment_all rest
        (set_mode_var m
           (set_datasets
              (dict_set m (setNbrDistractors ds (n + 1) m) (datasets st)) st))
  end.

(** Lines 372 to 374: the running mean after one more accuracy. *)
Definition windowed (wa : Q) (wc : nat) (acc : Q) : Q :=
  ((wa * inject_Z (Z.of_nat wc) + acc) / inject_Z (Z.of_nat (wc + 1)))%Q.

(** Lines 368 to 379, run after the repetitions of a batch.  [acc] is the
    value of [acc.item()] there: the mean of the last accuracy entry that
    the pipelines logged. *)
Definition curriculum (cfg : config) (acc : Q) (st : state) : outcome state :=
  if str_in "train" (mode st) && curriculum_enabled cfg then
    ds ← of_option (dict_get (mode st) (datasets st)) (KeyError (mode st));
    nbr_distractors ← getNbrDistractors ds (mode st);
    let wa := windowed (windowed_accuracy st) (window_count st) acc in
    let wc := window_count st + 1 in
    let st := set_window wa wc st in
    if Qlt_le_dec 75 wa then
      if decide (curriculum_distractors_window_size cfg < Z.of_nat wc)%Z then
        cap ← of_option (cfg_nbr_distractors cfg !! mode st)
                (KeyError (mode st));
        if decide (nbr_distractors < cap) then
          increment_all (dict_keys (datasets st)) (set_window 0%Q 0 st)
        else Ok st
      else Ok st
    else Ok st
  else Ok st.

(** A pipeline is an ordered list of module identifiers. *)
Definition pipeline := list string.

(** [for pipe_id, pipeline in self.pipelines.items():
       if "referential_game" in pipe_id: self.stream_handler.serve(pipeline)] *)
Fixpoint serve_referential_game (pipelines : odict pipeline) : list event :=
  match pipelines with
  | [] => []
  | (pipe_id, _) :: rest =>
      if str_in "referential_game" pipe_id
      then Serve pipe_id :: serve_referential_game rest
      else serve_referential_game rest
  end.

(** [for pipe_id, pipeline in self.pipelines.items():
       if "referential_game" not in pipe_id: ...serve(pipeline)] *)
Fixpoint serve_others (pipelines : odict pipeline) : list event :=
  match pipelines with
  | [] => []
  | (pipe_id, _) :: rest =>
      if str_in "referential_game" pipe_id
      then serve_others rest
      else Serve pipe_id :: serve_others rest
  end.

(** The body of [for idx_round in range(nbr_communication_round):]
    (lines 272 to 290). *)
Definition communication_round (cfg : config) (pipelines : odict pipeline)
    (idx_round : nat) : list event :=
  let end_of_communication :=
    bool_decide (idx_round = nbr_communication_round cfg - 1) in
  let multi_round := if end_of_communication then false else true in
  [Update "signals:it_step" (SNat idx_round);
   Update "signals:end_of_communication" (SBool end_of_communication);
   Update "signals:multi_round" (SBool multi_round);
   Update "current_dataloader:sample" SSample]
  ++ serve_referential_game pipelines.

(** The loop over the rounds [idxs]. *)
Fixpoint communication_rounds (cfg : config) (pipelines : odict pipeline)
    (idxs : list nat) : list event :=
  match idxs with
  | [] => []
  | idx_round :: rest =>
      communication_round cfg pipelines idx_round
        ++ communication_rounds cfg pipelines rest
  end.

(** The body of [for it_rep in range(nbr_experience_repetition):] as far as
    it calls the stream handler (lines 262 to 313). *)
Definition repetition (cfg : config) (pipelines : odict pipeline)
    (nbr_rep it_rep : nat) : list event :=
  [Update "signals:it_sample" (SNat it_rep);
   Update "signals:end_of_repetition_sequence"
     (SBool (bool_decide (it_rep = nbr_rep - 1)))]
  ++ communication_rounds cfg pipelines (seq 0 (nbr_communication_round cfg))
  ++ serve_others pipelines
  ++ [Reset "losses_dict"; Reset "logs_dict"].

(** The body of [for idx_stimulus, sample in enumerate(data_loader):], where
    the loader has [total] batches. *)
Definition batch (cfg : config) (pipelines : odict pipeline) (nbr_rep : nat)
    (total idx_stimulus : nat) (acc : Q) (st : state) : outcome state :=
  let st :=
    emit ([Update "signals:end_of_dataset"
             (SBool (bool_decide (idx_stimulus = total - 1)));
           Update "signals:it_datasample" (SNat idx_stimulus)]
          ++ concat (map (repetition cfg pipelines nbr_rep) (seq 0 nbr_rep)))
      st in
  curriculum cfg acc st.

(** The loop over the batches of one data loader; [accs] holds the accuracy
    read after each batch.  The first component lists the state after each
    completed batch. *)
Fixpoint batches (cfg : config) (pipelines : odict pipeline) (nbr_rep : nat)
    (total idx_stimulus : nat) (accs : list Q) (st : state)
  : list state * outcome state :=
  match accs with
  | [] => ([], Ok st)
  | acc :: rest =>
      match batch cfg pipelines nbr_rep total idx_stimulus acc st with
      | Ok st' =>
          let '(h, r) :=
            batches cfg pipelines nbr_rep total (S idx_stimulus) rest st' in
          (st' :: h, r)
      | Raised e => ([], Raised e)
      | OutOfFuel => ([], OutOfFuel)
      end
  end.

(** The body of [for it_dataset, (mode, data_loader) in
    enumerate(data_loaders.items()):] *)
Definition slot (cfg : config) (pipelines : odict pipeline) (nb_loaders : nat)
    (it_dataset : nat) (m : string) (accs : list Q) (st : state)
  : list state * outcome state :=
  let st := set_mode_var m st in
  let st :=
    emit [Update "current_dataset:ref" (SStr m);
          Update "signals:mode" (SStr m);
          Update "signals:end_of_epoch_dataset"
            (SBool (bool_decide (it_dataset = nb_loaders - 1)))] st in
  let nbr_rep :=
    match nbr_experience_repetition cfg with
    | Some n => if str_in "train" m then n else 1
    | None => 1
    end in
  let '(h, r) := batches cfg pipelines nbr_rep (length accs) 0 accs st in
  (h, st ← r; Ok (emit [SwitchEpoch] st)).

(** The loop over the data loaders, one per mode of [self.datasets];
    [script m] holds the accuracies read during the batches of mode [m]. *)
Fixpoint slots (cfg : config) (pipelines : odict pipeline) (nb_loaders : nat)
    (it_dataset : nat) (modes : list string) (script : string → list Q)
    (st : state) : list state * outcome state :=
  match modes with
  | [] => ([], Ok st)
  | m :: rest =>
      match slot cfg pipelines nb_loaders it_dataset m (script m) st with
      | (h, Ok st') =>
          let '(h', r) :=
            slots cfg pipelines nb_loaders (S it_dataset) rest script st' in
          (h ++ h', r)
      | (h, r) => (h, r)
      end
  end.

(** The body of [for epoch in range(init_epoch, nbr_epoch):] *)
Definition epoch_body (cfg : config) (pipelines : odict pipeline)
    (modes : list string) (script : string → list Q) (epoch : nat)
    (st : state) : list state * outcome state :=
  let st := emit [Update "signals:epoch" (SNat epoch)] st in
  let '(h, r) := slots cfg pipelines (length modes) 0 modes script st in
  (h, st ← r;
      match save_epoch_interval cfg with
      | Some k =>
          if decide (k = 0) then Raised ZeroDivisionError
          else Ok (if bool_decide (epoch mod k = 0) then emit [Save] st
                   else st)
      | None => Ok st
      end).

Fixpoint epochs (cfg : config) (pipelines : odict pipeline)
    (modes : list string) (script : nat → string → list Q)
    (todo : list nat) (st : state) : list state * outcome state :=
  match todo with
  | [] => ([], Ok st)
  | epoch :: rest =>
      match epoch_body cfg pipelines modes (script epoch) epoch st with
      | (h, Ok st') =>
          let '(h', r) := epochs cfg pipelines modes script rest st' in
          (h ++ h', r)
      | (h, r) => (h, r)
      end
  end.

(** Lines 206 to 214: the state when the loop nest is entered.
    [signal_curriculum] is [signals:curriculum_nbr_distractors]. *)
Definition initialise (cfg : config) (datasets : odict DualLabeledDataset)
    (signal_curriculum : option nat) : outcome state :=
  let init_curriculum_nbr_distractors := default 1 signal_curriculum in
  let st := State datasets "" 0%Q 0 [] in
  if curriculum_enabled cfg
  then set_all (dict_keys datasets) init_curriculum_nbr_distractors st
  else Ok st.

(** [train]: the state on entry to the loop nest followed by the state after
    each batch, and the way the call ends.  [script epoch m] holds the
    accuracies read during the batches of mode [m] in epoch [epoch];
    [signal_epoch] is [signals:epoch]. *)
Definition train (cfg : config) (datasets : odict DualLabeledDataset)
    (pipelines : odict pipeline) (signal_curriculum signal_epoch : option nat)
    (nbr_epoch : nat) (script : nat → string → list Q)
  : list state * outcome state :=
  match initialise cfg datasets signal_curriculum with
  | Ok st =>
      let init_epoch := default 0 signal_epoch in
      let '(h, r) :=
        epochs cfg pipelines (dict_keys datasets) script
          (seq init_epoch (nbr_epoch - init_epoch)) st in
      (st :: h, r)
  | Raised e => ([], Raised e)
  | OutOfFuel => ([], OutOfFuel)
  end.

(** The active distractor count of the dataset of mode [m]:
    [self.datasets[m].getNbrDistractors(mode=m)]. *)
Definition active_count (st : state) (m : string) : option nat :=
  ds ← dict_get m (datasets st); nbr_distractors ds !! m.

(** Vocabulary for the statements about [train]. *)

(** The identifiers of the pipelines served, in order. *)
Fixpoint served (evs : list event) : list string :=
  match evs with
  | [] => []
  | Serve pipe_id :: rest => pipe_id :: served rest
  | _ :: rest => served rest
  end.

(** The values written to [signals:end_of_communication], in order. *)
Fixpoint end_of_communication_flags (evs : list event) : list bool :=
  match evs with
  | [] => []
  | Update path (SBool b) :: rest =>
      if String.eqb path "signals:end_of_communication"
      then b :: end_of_communication_flags rest
      else end_of_communication_flags rest
  | _ :: rest => end_of_communication_flags rest
  end.

(** The pipelines whose identifier contains ["referential_game"], and the
    other ones, in the order of [self.pipelines]. *)
Definition referential_game_pipelines (pipelines : odict pipeline)
  : list string :=
  filter (λ pipe_id, str_in "referential_game" pipe_id = true)
    (dict_keys pipelines).

Definition other_pipelines (pipelines : odict pipeline) : list string :=
  filter (λ pipe_id, str_in "referential_game" pipe_id = false)
    (dict_keys pipelines).

(** The number of times that [pipe_id] occurs in a list of identifiers. *)
Definition occurrences (pipe_id : string) (l : list string) : nat :=
  length (filter (λ x, x = pipe_id) l).

(** The active distractor count of the dataset of mode [m] among [ds]. *)
Definition count_in (ds : odict DualLabeledDataset) (m : string) : option nat :=
  d ← dict_get m ds; nbr_distractors d !! m.


(** The datasets are those of the modes [modes], all with the count [c]. *)
Definition uniform (modes : list string) (c : nat)
    (k : odict DualLabeledDataset * Q * nat) : Prop :=
  dict_keys k.1.1 = modes ∧ ∀ m, m ∈ modes → count_in k.1.1 m = Some c.

(** What one batch can do to the curriculum: leave every dataset as it is,
    or add one to the count of every mode and empty the window, which it
    does only when the mean over the window, the accuracy [acc] of the batch
    included, is above 75 and the window is then longer than the configured
    size. *)
Definition curriculum_move (cfg : config)
    (k k' : odict DualLabeledDataset * Q * nat) : Prop :=
  k'.1.1 = k.1.1 ∨
  ((∀ m c, count_in k.1.1 m = Some c → count_in k'.1.1 m = Some (c + 1)) ∧
   k'.1.2 = 0%Q ∧ k'.2 = 0 ∧
   ∃ acc, (75 < windowed k.1.2 k.2 acc)%Q ∧
          (curriculum_distractors_window_size cfg < Z.of_nat (k.2 + 1))%Z).

(** The datasets all have one count [c], and [P c] holds. *)
Definition settled (modes : list string) (P : nat → Prop)
    (k : odict DualLabeledDataset * Q * nat) : Prop :=
  ∃ c, uniform modes c k ∧ P c.

(** One batch, seen from the curriculum. *)
Definition curriculum_step (cfg : config) (modes : list string)
    (P : nat → Prop) (k k' : odict DualLabeledDataset * Q * nat) : Prop :=
  curriculum_move cfg k k' ∧ settled modes P k'.


End Train.

(** ** Histories *)


(** The last element of [a :: l]. *)
Fixpoint final {A} (a : A) (l : list A) : A :=
  match l with
  | [] => a
  | b :: l' => final b l'
  end.


(** ** Vocabulary for the further properties *)

(** The list of ["experiences"] is the first of the dictionary, is empty
    and is shared with no other key. *)
Definition no_experience_yet (st : store) : Prop :=
  store_ok st ∧
  (∃ rest, sample_d st = ("experiences", 0) :: rest) ∧
  (∀ k, dict_get k (sample_d st) = Some 0 → k = "experiences") ∧
  heap st !! 0 = Some [].

(** The number of batches of the loaders of [modes]. *)
Definition batches_of (script : string → list Q) (modes : list string) : nat :=
  sum_list (map (λ m, length (script m)) modes).

(** A part [F] of the loop nest that returns from every state, records
    [n] states and leaves the datasets as they are. *)
Definition keeps_datasets (n : nat)
    (F : Train.state → list Train.state * outcome Train.state) : Prop :=
  ∀ st, ∃ h st', F st = (h, Ok st') ∧ length h = n ∧
                 Train.datasets st' = Train.datasets st ∧
                 ∀ s, s ∈ h → Train.datasets s = Train.datasets st.

(** The pipelines served in one repetition, in order: those of the
    communication, once per round, then the other ones. *)
Definition served_in_repetition (cfg : Train.config)
    (pipelines : odict Train.pipeline) : list string :=
  concat (replicate (Train.nbr_communication_round cfg)
            (Train.referential_game_pipelines pipelines))
  ++ Train.other_pipelines pipelines.

(** The number of repetitions of a batch of the loader of mode [m]
    (lines 238 to 241). *)
Definition repetitions_of (cfg : Train.config) (m : string) : nat :=
  match Train.nbr_experience_repetition cfg with
  | Some n => if str_in "train" m then n else 1
  | None => 1
  end.



(** ** Sample data *)

Module Examples.

Definition picture : value := VTensor (Tensor [2] [1%Q; 0%Q]).

(** An item whose label is its class. *)
Definition labelled (cl : Z) : item :=
  Item cl [("experiences", picture); ("exp_labels", VInt cl)].

(** Train classes [{0: [0,1,2], 1: [3,4]}], one test item of class 2, and
    one distractor in both modes. *)
Definition two_classes : kwargs :=
  Kwargs [labelled 0; labelled 0; labelled 0; labelled 1; labelled 1]
         [labelled 2] "train" {[ "train" := 1; "test" := 1 ]}.

(** Train classes [{0: [0], 1: [1,2]}] and two distractors. *)
Definition sparse_class : kwargs :=
  Kwargs [labelled 0; labelled 1; labelled 1] [] "train" {[ "train" := 2 ]}.


(** A checkpoint directory where writing the module ["speaker"] fails and
    everything else succeeds. *)
Definition speaker_fails : Checkpoint.io :=
  Checkpoint.IO None
    (λ a, match a with
          | Checkpoint.AModule "speaker" => Some "disk full"
          | _ => None
          end).

(** A train and a test dataset, each with the count 1 in both modes. *)
Definition two_modes : odict DualLabeledDataset :=
  [("train", init two_classes); ("test", set_mode (init two_classes) "test")].

(** The curriculum with a window of more than 0 batches, one round of
    communication, and the given maxima by mode. *)
Definition curriculum_config (caps : gmap string nat) : Train.config :=
  Train.Config (Some true) 0 caps 1 None None.

(** Every batch has the accuracy 100; each loader has one batch. *)
Definition high_accuracy : nat → string → list Q := λ _ _, [100%Q].

(** Two communication pipelines and one logging pipeline. *)
Definition three_pipelines : odict Train.pipeline :=
  [("referential_game", ["speaker"; "listener"; "loss"]);
   ("metrics", ["topsim"]);
   ("referential_game_aux", ["listener"])].

End Examples.

(** Data for the further properties. *)
Module MoreExamples.

Import Examples.

(** Two items and two distractors: one item too few. *)
Definition too_few : kwargs :=
  Kwargs [labelled 0; labelled 1] [] "train" {[ "train" := 2 ]}.

(** An item without a label. *)
Definition unlabelled : kwargs :=
  Kwargs [Item 0 [("experiences", picture)]] [] "train" {[ "train" := 0 ]}.

(** An item whose label is a tensor. *)
Definition tensor_label : kwargs :=
  Kwargs [Item 0 [("experiences", picture); ("exp_labels", picture)]] []
         "train" {[ "train" := 0 ]}.

(** An item without an image. *)
Definition no_picture : kwargs :=
  Kwargs [Item 0 [("exp_labels", VInt 0)]] [] "train" {[ "train" := 0 ]}.

Definition latent : value := VTensor (Tensor [2] [0%Q; 1%Q]).
Definition latent_value : value := VTensor (Tensor [1] [7%Q]).

(** An item of class 9, the only class, with a latent of its own. *)
Definition own_latent : kwargs :=
  Kwargs [Item 9 [("experiences", picture); ("exp_labels", VInt 9);
                  ("exp_latents", latent)]] [] "train" {[ "train" := 0 ]}.

(** A plain item followed by an item with a latent and a latent value of
    its own. *)
Definition both_latents : kwargs :=
  Kwargs [labelled 0;
          Item 0 [("experiences", picture); ("exp_labels", VInt 0);
                  ("exp_latents", latent);
                  ("exp_latents_values", latent_value)]]
         [] "train" {[ "train" := 1 ]}.

(** A checkpoint directory where the configuration cannot be written or
    read and everything else can. *)
Definition config_fails : Checkpoint.io :=
  Checkpoint.IO None
    (λ a, match a with
          | Checkpoint.AConfig => Some "permission denied"
          | _ => None
          end).

(** No curriculum, one round of communication, and the given save
    interval. *)
Definition plain_config (interval : option nat) : Train.config :=
  Train.Config None 0 ∅ 1 None interval.

End MoreExamples.

(** * Properties *)

(** ** Construction of the partition maps *)

Section PartitionMaps.

Implicit Types (classes : gmap Z (list nat)) (dataset : list item) (cl : Z).

Lemma class_members_elem cl start dataset i :
  i ∈ class_members cl start dataset ↔
  ∃ j it, dataset !! j = Some it ∧ getclass it = cl ∧ i = start + j.
Proof.
  revert start. induction dataset as [|it rest IH]; intros start; simpl.
  - split; [intros H; inversion H | intros (j & it & H & _); done].
  - assert (i ∈ class_members cl (S start) rest ↔
            ∃ j it', rest !! j = Some it' ∧ getclass it' = cl
                     ∧ i = start + S j) as IH'.
    { rewrite IH. split; intros (j & it' & ? & ? & ?); exists j, it';
        repeat split; auto; lia. }
    destruct (decide (getclass it = cl)) as [Hcl|Hcl].
    + rewrite elem_of_cons, IH'. split.
      * intros [->|(j & it' & ? & ? & ?)].
        -- exists 0, it. simpl. repeat split; auto; lia.
        -- exists (S j), it'. simpl. auto.
      * intros ([|j] & it' & Hj & ? & ?); simpl in Hj.
        -- left. lia.
        -- right. exists j, it'. auto.
    + rewrite IH'. split.
      * intros (j & it' & ? & ? & ?). exists (S j), it'. simpl. auto.
      * intros ([|j] & it' & Hj & ? & ?); simpl in Hj.
        -- congruence.
        -- exists j, it'. auto.
Qed.

Lemma class_members_nil cl start dataset :
  class_members cl start dataset = [] ↔
  ∀ it, it ∈ dataset → getclass it ≠ cl.
Proof.
  revert start. induction dataset as [|it rest IH]; intros start; simpl.
  - split; [intros _ it H; inversion H | done].
  - destruct (decide (getclass it = cl)) as [Hcl|Hcl].
    + split; [done|]. intros H. exfalso. apply (H it); [left | done].
    + rewrite IH. split.
      * intros H it' [->|Hin]%elem_of_cons; auto.
      * intros H it' Hin. apply H. by right.
Qed.

(** The entry of a class after the indexing loop: the members found are
    appended, in order, to what the map held before. *)
Lemma index_classes_lookup offset idx dataset classes cl :
  index_classes offset idx dataset classes !! cl =
  match class_members cl (offset + idx) dataset with
  | [] => classes !! cl
  | l => Some (default [] (classes !! cl) ++ l)
  end.
Proof.
  revert idx classes. induction dataset as [|it rest IH]; intros idx classes.
  - done.
  - simpl. rewrite IH. unfold register_index.
    replace (offset + S idx) with (S (offset + idx)) by lia.
    destruct (decide (getclass it = cl)) as [->|Hcl].
    + rewrite lookup_insert_eq. simpl.
      destruct (class_members cl (S (offset + idx)) rest); simpl.
      * done.
      * by rewrite <- app_assoc.
    + by rewrite lookup_insert_ne.
Qed.

Lemma index_classes_empty offset dataset cl :
  index_classes offset 0 dataset ∅ !! cl =
  match class_members cl offset dataset with
  | [] => None
  | l => Some l
  end.
Proof.
  rewrite index_classes_lookup, lookup_empty, Nat.add_0_r.
  by destruct (class_members cl offset dataset).
Qed.

(** The entry of a class after the train classes were added. *)
Lemma add_train_classes_lookup (train test : gmap Z (list nat)) cl :
  add_train_classes train test !! cl =
  match train !! cl with
  | Some idxs => Some (default [] (test !! cl) ++ idxs)
  | None => test !! cl
  end.
Proof.
  unfold add_train_classes.
  apply (map_fold_weak_ind (λ acc (m : gmap Z (list nat)),
    acc !! cl = match m !! cl with
                | Some idxs => Some (default [] (test !! cl) ++ idxs)
                | None => test !! cl
                end)).
  - by rewrite lookup_empty.
  - intros k idxs m acc Hk IH.
    destruct (decide (k = cl)) as [->|Hne].
    + rewrite !lookup_insert_eq. rewrite IH, Hk. done.
    + rewrite !lookup_insert_ne by done. done.
Qed.

Lemma train_classes_init kw cl :
  train_classes (init kw) !! cl =
  match class_members cl 0 (kw_train_dataset kw) with
  | [] => None
  | l => Some l
  end.
Proof. apply index_classes_empty. Qed.

Lemma test_classes_init kw cl :
  test_classes (init kw) !! cl =
  match class_members cl 0 (kw_train_dataset kw),
        class_members cl (length (kw_train_dataset kw)) (kw_test_dataset kw)
  with
  | [], [] => None
  | tr, te => Some (te ++ tr)
  end.
Proof.
  simpl. rewrite add_train_classes_lookup, !index_classes_empty.
  destruct (class_members cl 0 _), (class_members cl (length _) _); simpl;
    by rewrite ?app_nil_r.
Qed.

(** C4.  After construction, every class of the train map is a class of the
    test map, and its entry there ends with the train indices of the class,
    which are the positions of its items in the train dataset (no offset
    added); a class that only items of the test dataset have is a class of
    the test map and not of the train map. *)
Theorem test_map_includes_train_map (kw : kwargs) :
  (∀ cl idxs,
     train_classes (init kw) !! cl = Some idxs →
     idxs = class_members cl 0 (kw_train_dataset kw) ∧
     (∀ i, i ∈ idxs ↔
           ∃ it, kw_train_dataset kw !! i = Some it ∧ getclass it = cl) ∧
     test_classes (init kw) !! cl =
       Some (class_members cl (length (kw_train_dataset kw))
               (kw_test_dataset kw) ++ idxs)) ∧
  (∀ cl,
     (∃ it, it ∈ kw_test_dataset kw ∧ getclass it = cl) →
     (∀ it, it ∈ kw_train_dataset kw → getclass it ≠ cl) →
     train_classes (init kw) !! cl = None ∧
     is_Some (test_classes (init kw) !! cl)).
Proof.
  split.
  - intros cl idxs H. rewrite train_classes_init in H.
    assert (idxs = class_members cl 0 (kw_train_dataset kw)) as Hidxs.
    { destruct (class_members cl 0 _); congruence. }
    split; [done|]. split.
    + intros i. rewrite Hidxs, class_members_elem. split.
      * intros (j & it & ? & ? & ->). exists it. auto.
      * intros (it & ? & ?). exists i, it. auto.
    + rewrite test_classes_init, <- Hidxs.
      destruct idxs as [|i idxs].
      * destruct (class_members cl 0 _); congruence.
      * by destruct (class_members cl (length _) _).
  - intros cl (it & Hin & Hcl) Hnot.
    apply class_members_nil with (start := 0) in Hnot.
    rewrite train_classes_init, test_classes_init, Hnot. split; [done|].
    destruct (class_members cl (length (kw_train_dataset kw))
                (kw_test_dataset kw)) eqn:E.
    + rewrite class_members_nil in E. by destruct (E it Hin).
    + rewrite app_nil_r. eauto.
Qed.

(** Every index of the partition maps denotes an item of its class: the
    offset that [__init__] adds to the test indices is the one that
    [sample] takes off again. *)
Lemma item_at_partition_maps kw m cl idxs i :
  train_classes (init kw) !! cl = Some idxs
  ∨ test_classes (init kw) !! cl = Some idxs →
  i ∈ idxs →
  ∃ it, item_at (set_mode (init kw) m) i = Some it ∧ getclass it = cl.
Proof.
  assert (∀ j it, kw_train_dataset kw !! j = Some it →
                  item_at (set_mode (init kw) m) j = Some it) as Htrain.
  { intros j it Hj. unfold item_at, dereference. simpl.
    apply lookup_lt_Some in Hj as Hlt. by rewrite decide_False by lia. }
  assert (∀ j it, kw_test_dataset kw !! j = Some it →
                  item_at (set_mode (init kw) m)
                    (length (kw_train_dataset kw) + j) = Some it) as Htest.
  { intros j it Hj. unfold item_at, dereference. simpl.
    rewrite decide_True by lia. simpl. rewrite <- Hj. f_equal. lia. }
  intros [H|H] Hi.
  - rewrite train_classes_init in H.
    assert (idxs = class_members cl 0 (kw_train_dataset kw)) as ->
      by (destruct (class_members cl 0 _); congruence).
    apply class_members_elem in Hi as (j & it & Hj & Hcl & ->). eauto.
  - rewrite test_classes_init in H.
    assert (i ∈ class_members cl (length (kw_train_dataset kw))
                  (kw_test_dataset kw)
            ∨ i ∈ class_members cl 0 (kw_train_dataset kw)) as [Hi'|Hi'].
    { assert (idxs = class_members cl (length (kw_train_dataset kw))
                       (kw_test_dataset kw)
                     ++ class_members cl 0 (kw_train_dataset kw)) as ->.
      { destruct (class_members cl 0 _), (class_members cl (length _) _);
          congruence. }
      by apply elem_of_app in Hi. }
    + apply class_members_elem in Hi' as (j & it & Hj & Hcl & ->). eauto.
    + apply class_members_elem in Hi' as (j & it & Hj & Hcl & ->). eauto.
Qed.

End PartitionMaps.

(** ** The payload *)

Section Payload.

Implicit Types (self : DualLabeledDataset) (st : store) (k key : string).

(** *** The one-hot vector *)

Lemma one_hot_eq (n : nat) (label : Z) :
  one_hot n label =
  if decide (- Z.of_nat n ≤ label < Z.of_nat n)%Z
  then Ok (one_hot_tensor n label)
  else Raised IndexError.
Proof.
  unfold one_hot, one_hot_tensor, tensor_setitem, torch_zeros, position. simpl.
  rewrite length_replicate.
  destruct (decide (0 ≤ label < Z.of_nat n)%Z) as [H|H].
  - rewrite decide_True by lia. by rewrite Z.mod_small.
  - destruct (decide (- Z.of_nat n ≤ label < 0)%Z) as [H'|H'].
    + rewrite decide_True by lia.
      by rewrite <- (Z.mod_unique label (Z.of_nat n) (-1) (Z.of_nat n + label))
        by lia.
    + by rewrite decide_False by lia.
Qed.

Lemma position_lt (n : nat) (label : Z) : 0 < n → position n label < n.
Proof.
  intros Hn. unfold position.
  pose proof (Z.mod_pos_bound label (Z.of_nat n)). lia.
Qed.

(** The entries of the one-hot vector of a label inside the range. *)
Lemma one_hot_entries (n : nat) (label : Z) :
  (- Z.of_nat n ≤ label < Z.of_nat n)%Z →
  ∃ v, one_hot n label = Ok v ∧ shape v = [n] ∧ length (data v) = n ∧
       ∀ j, j < n →
            data v !! j = Some (if decide (j = position n label)
                                then 1%Q else 0%Q).
Proof.
  intros H. rewrite one_hot_eq, decide_True by done.
  eexists. split; [done|]. simpl. split; [done|].
  rewrite length_insert, length_replicate. split; [done|].
  intros j Hj. destruct (decide (j = position n label)) as [->|Hne].
  - apply list_lookup_insert_eq. by rewrite length_replicate.
  - rewrite list_lookup_insert_ne by done. by apply lookup_replicate_2.
Qed.

(** *** Dictionaries *)

Lemma dict_get_set_eq {V} (k : string) (v : V) (d : odict V) :
  dict_get k (dict_set k v d) = Some v.
Proof.
  induction d as [|[k' v'] d IH]; simpl.
  - by rewrite String.eqb_refl.
  - destruct (String.eqb k k') eqn:E; simpl; rewrite E; [done | apply IH].
Qed.

Lemma dict_get_set_ne {V} (k k' : string) (v : V) (d : odict V) :
  k ≠ k' → dict_get k' (dict_set k v d) = dict_get k' d.
Proof.
  intros Hne. induction d as [|[k0 v0] d IH]; simpl.
  - destruct (String.eqb k' k) eqn:E; [|done].
    apply String.eqb_eq in E. congruence.
  - destruct (String.eqb k k0) eqn:E; simpl.
    + apply String.eqb_eq in E. subst k0.
      destruct (String.eqb k' k) eqn:E'; [|done].
      apply String.eqb_eq in E'. congruence.
    + by rewrite IH.
Qed.

Lemma dict_mem_set {V} k k' (v : V) (d : odict V) :
  dict_mem k d = true → dict_mem k (dict_set k' v d) = true.
Proof.
  unfold dict_mem. destruct (decide (k' = k)) as [->|Hne].
  - by rewrite dict_get_set_eq.
  - by rewrite dict_get_set_ne.
Qed.

Lemma dict_set_set {V} k (v v' : V) (d : odict V) :
  dict_set k v (dict_set k v' d) = dict_set k v d.
Proof.
  induction d as [|[k0 v0] d IH]; simpl.
  - by rewrite String.eqb_refl.
  - destruct (String.eqb k k0) eqn:E; simpl; rewrite E; [done|].
    by rewrite IH.
Qed.

Lemma dict_get_need_reg {V} k (d : odict V) :
  dict_mem k d = true →
  dict_get k (map (λ kv, (kv.1, true)) d) = Some true.
Proof.
  unfold dict_mem. induction d as [|[k0 v0] d IH]; simpl; [done|].
  destruct (String.eqb k k0); [done | apply IH].
Qed.

(** *** The store *)

Lemma sample_d_list_append st key v :
  sample_d (list_append st key v) = sample_d st.
Proof. unfold list_append. by destruct (dict_get key (sample_d st)). Qed.

Lemma length_heap_list_append st key v :
  length (heap (list_append st key v)) = length (heap st).
Proof.
  unfold list_append. destruct (dict_get key (sample_d st)); [|done].
  simpl. apply length_alter.
Qed.

Lemma field_list_list_append st key v l :
  field_list st key = Some l →
  field_list (list_append st key v) key = Some (l ++ [v]).
Proof.
  unfold field_list, list_append.
  destruct (dict_get key (sample_d st)) as [r|] eqn:E; [|done]. simpl.
  intros Hl. rewrite E. simpl. rewrite list_lookup_alter_eq, Hl. done.
Qed.

Lemma store_ok_list_append st key v :
  store_ok st → store_ok (list_append st key v).
Proof.
  unfold store_ok.
  rewrite sample_d_list_append, length_heap_list_append. done.
Qed.

Lemma store_ok_new_list st key :
  store_ok st → store_ok (new_list st key).
Proof.
  intros (Href & H1 & H2 & H3). unfold store_ok, new_list. simpl.
  rewrite length_app. simpl. split.
  - intros k r. destruct (decide (key = k)) as [->|Hne].
    + rewrite dict_get_set_eq. intros [= <-]. lia.
    + rewrite dict_get_set_ne by done. intros H%Href. lia.
  - auto using dict_mem_set.
Qed.

(** Merging an item keeps the store in order, keeps the references of the
    keys that were present, and leaves [need_reg[k]] true exactly for the
    keys [k] that the item does not have. *)
Lemma merge_item_spec sampled_d : ∀ st (need_reg : odict bool),
  store_ok st →
  store_ok (merge_item sampled_d st need_reg).1 ∧
  ∀ k, dict_mem k (sample_d st) = true →
       dict_get k (sample_d (merge_item sampled_d st need_reg).1)
         = dict_get k (sample_d st) ∧
       ∀ b, dict_get k need_reg = Some b →
            dict_get k (merge_item sampled_d st need_reg).2
              = Some (b && negb (dict_mem k sampled_d)).
Proof.
  induction sampled_d as [|[key v] rest IH]; intros st need_reg Hok; simpl.
  - split; [done|]. intros k Hk. split; [done|].
    intros b ->. by rewrite andb_true_r.
  - destruct (dict_mem key (sample_d st)) eqn:Hmem.
    + destruct (IH (list_append st key v) (dict_set key false need_reg))
        as [Hok' Hk']; [by apply store_ok_list_append|].
      split; [done|]. intros k Hk.
      rewrite sample_d_list_append in Hk'. destruct (Hk' k Hk) as [Hget Hnr].
      split; [done|]. intros b Hb. unfold dict_mem at 1. simpl.
      destruct (String.eqb k key) eqn:E.
      * apply String.eqb_eq in E. subst key.
        rewrite (Hnr false) by apply dict_get_set_eq.
        by rewrite andb_false_r.
      * apply String.eqb_neq in E.
        rewrite (Hnr b) by (by rewrite dict_get_set_ne). done.
    + destruct (IH (list_append (new_list st key) key v) need_reg)
        as [Hok' Hk']; [by apply store_ok_list_append, store_ok_new_list|].
      split; [done|]. intros k Hk.
      assert (key ≠ k) as Hne by (intros ->; congruence).
      rewrite sample_d_list_append in Hk'. simpl in Hk'.
      destruct (Hk' k) as [Hget Hnr]; [by apply dict_mem_set|].
      rewrite dict_get_set_ne in Hget by done.
      split; [done|]. intros b Hb. unfold dict_mem at 1. simpl.
      destruct (String.eqb k key) eqn:E.
      * apply String.eqb_eq in E. congruence.
      * by apply Hnr.
Qed.

Lemma store_ok_initial : store_ok initial_store.
Proof.
  split; [|done]. intros k r. unfold initial_store. simpl.
  repeat (destruct (String.eqb k _); [intros [= <-]; lia|]). done.
Qed.

(** The turn of the loop for an item that has an integer label and no
    latent of its own.  With the label inside the range of the classes the
    turn succeeds and the last entry of [sample_d["exp_latents"]] is the
    one-hot vector of the label; with the label outside, line 154 raises
    [IndexError]. *)
Lemma collate_item_latent self idx st it label :
  store_ok st →
  item_at self idx = Some it →
  dict_get "exp_latents" (getitem it) = None →
  dict_get "exp_labels" (getitem it) = Some (VInt label) →
  if decide (- Z.of_nat (nbr_classes self) ≤ label
             < Z.of_nat (nbr_classes self))%Z
  then ∃ st' l v,
         collate_item self idx st = Ok st' ∧ store_ok st' ∧
         field_list st' "exp_latents" = Some (l ++ [VTensor v]) ∧
         one_hot (nbr_classes self) label = Ok v
  else collate_item self idx st = Raised IndexError.
Proof.
  intros Hok Hit Hlat Hlab.
  unfold collate_item. unfold item_at in Hit.
  destruct (dereference self idx) as [dataset i]. simpl in Hit.
  rewrite Hit. simpl.
  destruct Hok as (Href & H1 & H2 & H3).
  destruct (merge_item_spec (getitem it) st
              (map (λ kv, (kv.1, true)) (sample_d st)))
    as [Hok1 Hkeys]; [done|].
  destruct (merge_item (getitem it) st _) as [st1 need_reg]. simpl in *.
  destruct (Hkeys _ H1) as [_ Hnr1]. destruct (Hkeys _ H2) as [Hget2 Hnr2].
  destruct (Hkeys _ H3) as [_ Hnr3].
  rewrite (Hnr1 true) by by apply dict_get_need_reg.
  rewrite (Hnr2 true) by by apply dict_get_need_reg.
  rewrite (Hnr3 true) by by apply dict_get_need_reg.
  assert (dict_mem "exp_labels" (getitem it) = true) as ->
    by (unfold dict_mem; by rewrite Hlab).
  assert (dict_mem "exp_latents" (getitem it) = false) as ->
    by (unfold dict_mem; by rewrite Hlat).
  simpl. unfold derive_latent. rewrite Hlab, one_hot_eq.
  destruct (decide (- Z.of_nat (nbr_classes self) ≤ label
                    < Z.of_nat (nbr_classes self))%Z) as [Hrange|Hrange];
    [|done].
  simpl.
  set (v := Tensor [nbr_classes self]
              (<[position (nbr_classes self) label := 1%Q]>
                 (replicate (nbr_classes self) 0%Q))).
  pose proof Hok1 as (Href1 & _ & H2' & _).
  unfold dict_mem in H2'.
  destruct (dict_get "exp_latents" (sample_d st1)) as [r|] eqn:Er; [|done].
  destruct (lookup_lt_is_Some_2 (heap st1) r) as [l Hl]; [by eapply Href1|].
  assert (field_list (list_append st1 "exp_latents" (VTensor v)) "exp_latents"
          = Some (l ++ [VTensor v])) as Hfield.
  { apply field_list_list_append. unfold field_list. by rewrite Er. }
  assert (store_ok (list_append st1 "exp_latents" (VTensor v))) as Hok2.
  { by apply store_ok_list_append. }
  destruct (negb (dict_mem "exp_latents_values" (getitem it))).
  - unfold alias_latents_values. rewrite sample_d_list_append, Er. simpl.
    eexists _, l, v. split; [done|]. split; [|split; [|done]].
    + destruct Hok2 as (Href2 & G1 & G2 & G3).
      rewrite sample_d_list_append in Href2, G1, G2, G3.
      split; [|simpl; auto using dict_mem_set].
      simpl. intros k r'. destruct (decide ("exp_latents_values" = k)) as [<-|Hne].
      * rewrite dict_get_set_eq. intros [= <-]. eauto.
      * rewrite dict_get_set_ne by done. apply Href2.
    + revert Hfield. unfold field_list. simpl.
      rewrite sample_d_list_append. by rewrite dict_get_set_ne.
  - eexists _, l, v. done.
Qed.


(** The train map has no more classes than the test map. *)
Lemma size_train_classes_init kw :
  size (train_classes (init kw)) ≤ size (test_classes (init kw)).
Proof.
  rewrite <- !size_dom. apply subseteq_size. intros cl.
  rewrite !elem_of_dom, train_classes_init, test_classes_init.
  destruct (class_members cl 0 _); [by intros [? ?]|].
  intros _. destruct (class_members cl (length _) _); eauto.
Qed.

(** C10.  Whatever the mode, a vector derived for an item has as many
    entries as the test map has classes (the classes of both datasets,
    counted at construction), and one is derived unless the label is
    outside the range of these classes; outside the mode ['test'],
    [getNbrClasses] is the number of classes of the train map, which is at
    most that and, for some datasets, less. *)
Theorem latent_length_is_unified_class_count kw m idx st it label :
  let self := set_mode (init kw) m in
  store_ok st →
  item_at self idx = Some it →
  dict_get "exp_latents" (getitem it) = None →
  dict_get "exp_labels" (getitem it) = Some (VInt label) →
  nbr_classes self = size (test_classes self) ∧
  length (data (torch_zeros (nbr_classes self))) = size (test_classes self) ∧
  ((- Z.of_nat (nbr_classes self) ≤ label < Z.of_nat (nbr_classes self))%Z →
   ∃ st' l v,
     collate_item self idx st = Ok st' ∧
     field_list st' "exp_latents" = Some (l ++ [VTensor v]) ∧
     length (data v) = size (test_classes self) ∧
     shape v = [size (test_classes self)]) ∧
  (¬ (- Z.of_nat (nbr_classes self) ≤ label < Z.of_nat (nbr_classes self))%Z →
   collate_item self idx st = Raised IndexError) ∧
  (m ≠ "test" →
   getNbrClasses self = size (train_classes self) ∧
   getNbrClasses self ≤ size (test_classes self)) ∧
  (m = "test" → getNbrClasses self = size (test_classes self)) ∧
  ∃ kw',
    kw_mode kw' = "train" ∧
    getNbrClasses (init kw') < size (test_classes (init kw')) ∧
    nbr_classes (init kw') = size (test_classes (init kw')).
Proof.
  intros self Hok Hit Hlat Hlab.
  pose proof (collate_item_latent self idx st it label Hok Hit Hlat Hlab) as H.
  split; [done|]. split; [simpl; apply length_replicate|].
  split; [|split; [|split; [|split]]].
  - intros Hrange. rewrite decide_True in H by done.
    destruct H as (st' & l & v & Hrun & _ & Hfield & Hv).
    destruct (one_hot_entries (nbr_classes self) label Hrange)
      as (v' & Hv' & Hshape & Hlen & _).
    assert (v' = v) as -> by congruence.
    exists st', l, v. done.
  - intros Hrange. by rewrite decide_False in H by done.
  - intros Hm. unfold getNbrClasses. simpl.
    apply String.eqb_neq in Hm. rewrite Hm. split; [done|].
    apply size_train_classes_init.
  - intros ->. done.
  - exists Examples.two_classes. split; [done|]. split; [|done].
    vm_compute. lia.
Qed.

(** With [target_only], the dictionary is the one built for the target
    alone, with the whole list of indices attached. *)
Lemma collate_target_only self t rest :
  collate self (t :: rest) true =
  d ← collate self [t] false;
  Ok (dict_set "indices" (FIndices (t :: rest)) d).
Proof.
  unfold collate. simpl.
  destruct (collate_item self t initial_store) as [st| |]; simpl; [|done..].
  unfold finish.
  destruct (stack_fields (heap st) (sample_d st)) as [d| |]; simpl; [|done..].
  destruct (dict_get "experiences" d) as [e|]; simpl; [|done].
  destruct (unsqueeze1 e) as [e'| |]; simpl; [|done..].
  by rewrite dict_set_set.
Qed.

(** The index list attached to the returned dictionary is the list chosen. *)
Lemma collate_indices self indices target_only d :
  collate self indices target_only = Ok d →
  dict_get "indices" d = Some (FIndices indices).
Proof.
  unfold collate, finish. intros H.
  destruct (collate_items self indices target_only initial_store) as [st| |];
    simpl in H; [|done..].
  destruct (stack_fields (heap st) (sample_d st)) as [d0| |];
    simpl in H; [|done..].
  destruct (dict_get "experiences" d0) as [e|]; simpl in H; [|done].
  destruct (unsqueeze1 e) as [e'| |]; simpl in H; [|done..].
  injection H as <-. apply dict_get_set_eq.
Qed.

(** *** Plain items *)

Lemma collate_item_plain self s idx it x r xs :
  item_at self idx = Some it →
  plain_item (nbr_classes self) s it x →
  collate_item self idx (plain_store (nbr_classes self) s r xs)
  = Ok (plain_store (nbr_classes self) s 2 (xs ++ [x])).
Proof.
  intros Hit [Hget Hrange]. unfold collate_item. unfold item_at in Hit.
  destruct (dereference self idx) as [dataset i]. simpl in Hit.
  rewrite Hit. simpl. rewrite Hget. simpl.
  unfold derive_latent. simpl. rewrite one_hot_eq, decide_True by done.
  simpl. unfold plain_store. rewrite !map_app. done.
Qed.

Lemma collate_items_plain self s : ∀ indices xs r xs0,
  plain_items self s indices xs →
  collate_items self indices false (plain_store (nbr_classes self) s r xs0)
  = Ok (plain_store (nbr_classes self) s (if indices is [] then r else 2) (xs0 ++ xs)).
Proof.
  intros indices xs r xs0 H. revert r xs0.
  induction H as [|i x indices xs (it & Hit & Hx) H IH]; intros r xs0; simpl.
  - by rewrite app_nil_r.
  - rewrite (collate_item_plain self s i it x) by done. simpl.
    rewrite IH. rewrite <- app_assoc. simpl. by destruct indices.
Qed.

Lemma stack_data_plain {X} s (f : X → list Q) (xs : list X) :
  stack_data s (map (λ x, VTensor (Tensor s (f x))) xs)
  = Ok (concat (map f xs)).
Proof.
  induction xs as [|x xs IH]; simpl; [done|].
  rewrite decide_True by done. rewrite IH. done.
Qed.

Lemma torch_stack_plain {X} s (f : X → list Q) (xs : list X) :
  xs ≠ [] →
  torch_stack (map (λ x, VTensor (Tensor s (f x))) xs)
  = Ok (Tensor (length xs :: s) (concat (map f xs))).
Proof.
  intros Hne. destruct xs as [|x xs]; [done|]. simpl.
  rewrite decide_True by done. rewrite stack_data_plain. simpl.
  by rewrite length_map.
Qed.

Lemma stack_field_tensors {X} s (f : X → list Q) (xs : list X) :
  xs ≠ [] →
  stack_field (map (λ x, VTensor (Tensor s (f x))) xs)
  = Ok (FTensor (Tensor (length xs :: s) (concat (map f xs)))).
Proof.
  intros Hne. unfold stack_field. rewrite torch_stack_plain by done.
  by destruct xs.
Qed.

Lemma stack_field_ints {X} (g : X → Z) (xs : list X) :
  xs ≠ [] →
  stack_field (map (λ x, VInt (g x)) xs) = Ok (FList (map (λ x, VInt (g x)) xs)).
Proof. intros Hne. by destruct xs. Qed.

Lemma finish_plain n s xs indices :
  xs ≠ [] →
  finish (plain_store n s 2 xs) indices = Ok (plain_result n s xs indices).
Proof.
  intros Hne. unfold finish, plain_store, plain_result.
  cbn [heap sample_d stack_fields lookup list_lookup default id].
  rewrite (stack_field_tensors s fst xs Hne).
  rewrite (stack_field_ints snd xs Hne).
  assert (stack_field (map (λ x : list Q * Z, VTensor (one_hot_tensor n x.2)) xs)
          = Ok (FTensor (Tensor [length xs; n]
                  (concat (map (λ x, data (one_hot_tensor n x.2)) xs)))))
    as -> by exact (stack_field_tensors [n] _ xs Hne).
  reflexivity.
Qed.

Lemma collate_plain self s indices xs :
  indices ≠ [] →
  plain_items self s indices xs →
  collate self indices false
    = Ok (plain_result (nbr_classes self) s xs indices) ∧
  collate self indices true
    = Ok (plain_result (nbr_classes self) s (take 1 xs) indices).
Proof.
  intros Hne H. split.
  - unfold collate.
    change initial_store with (plain_store (nbr_classes self) s 3 []).
    rewrite (collate_items_plain self s indices xs) by done.
    destruct H as [|i x indices xs _ _]; [done|]. simpl.
    by apply finish_plain.
  - destruct H as [|i x indices xs (it & Hit & Hx) _]; [done|].
    unfold collate. simpl.
    change initial_store with (plain_store (nbr_classes self) s 3 []).
    rewrite (collate_item_plain self s i it x) by done. simpl.
    by apply finish_plain.
Qed.

Lemma plain_items_exist self s indices :
  (∀ i, i ∈ indices →
        ∃ it x, item_at self i = Some it
                ∧ plain_item (nbr_classes self) s it x) →
  ∃ xs, plain_items self s indices xs.
Proof.
  induction indices as [|i indices IH]; intros H.
  - exists []. constructor.
  - destruct (H i) as (it & x & Hit & Hx); [left|].
    destruct IH as [xs Hxs]; [intros j Hj; apply H; by right|].
    exists (x :: xs). constructor; eauto.
Qed.

(** For plain items the dictionary is built, with the indices attached. *)
Lemma collate_total self s indices target_only :
  indices ≠ [] →
  (∀ i, i ∈ indices →
        ∃ it x, item_at self i = Some it
                ∧ plain_item (nbr_classes self) s it x) →
  ∃ d, collate self indices target_only = Ok d
       ∧ dict_get "indices" d = Some (FIndices indices).
Proof.
  intros Hne Hall. destruct (plain_items_exist self s indices Hall) as [xs Hxs].
  destruct (collate_plain self s indices xs Hne Hxs) as [Hf Ht].
  destruct target_only; eexists; (split; [eassumption | reflexivity]).
Qed.

(** With [target_only] and a plain target, the dictionary holds the target
    alone under every key but ["indices"]. *)
Lemma collate_target_only_plain self s t rest it x :
  item_at self t = Some it →
  plain_item (nbr_classes self) s it x →
  collate self (t :: rest) true
  = Ok (plain_result (nbr_classes self) s [x] (t :: rest)).
Proof.
  intros Hit Hx. unfold collate. simpl.
  change initial_store with (plain_store (nbr_classes self) s 3 []).
  rewrite (collate_item_plain self s t it x) by done. simpl.
  by apply finish_plain.
Qed.

End Payload.

(** ** Choice of the indices *)

Section Selection.

Implicit Types (classes : gmap Z (list nat)) (X U W : gset nat).
Implicit Types (self : DualLabeledDataset) (rnd : nat → nat).

Lemma union_classes_elem classes from_class X U :
  union_classes classes from_class X = Ok U →
  ∀ i, i ∈ U ↔
       i ∈ X ∨ ∃ cl idxs, cl ∈ from_class ∧ classes !! cl = Some idxs
                          ∧ i ∈ idxs.
Proof.
  revert X. induction from_class as [|cl rest IH]; intros X H i; simpl in H.
  - injection H as <-. split; [auto|].
    intros [?|(cl & idxs & Hin & _)]; [done | inversion Hin].
  - destruct (classes !! cl) as [idxs|] eqn:E; [|done].
    rewrite (IH _ H i), elem_of_union, elem_of_list_to_set. split.
    + intros [[?|?]|(cl' & idxs' & ? & ? & ?)]; auto.
      * right. exists cl, idxs. split; [left | done].
      * right. exists cl', idxs'. split; [by right | done].
    + intros [?|(cl' & idxs' & [->|?]%elem_of_cons & Hl & ?)]; auto.
      * left. right. congruence.
      * right. exists cl', idxs'. auto.
Qed.

Lemma union_classes_total classes from_class X :
  (∀ cl, cl ∈ from_class → is_Some (classes !! cl)) →
  ∃ U, union_classes classes from_class X = Ok U.
Proof.
  revert X. induction from_class as [|cl rest IH]; intros X H; simpl.
  - eauto.
  - destruct (H cl) as [idxs ->]; [left|]. apply IH.
    intros cl' ?. apply H. by right.
Qed.

Lemma class_keys_elem classes cl :
  cl ∈ class_keys classes ↔ is_Some (classes !! cl).
Proof.
  unfold class_keys. rewrite list_elem_of_fmap. split.
  - intros ([k v] & -> & H%elem_of_map_to_list). eauto.
  - intros [v H]. exists (cl, v). split; [done|].
    by apply elem_of_map_to_list.
Qed.

Lemma not_excluded_remove_excepts U excepts i :
  i ∈ remove_excepts U excepts ↔ i ∈ U ∧ ¬ excluded excepts i.
Proof.
  unfold remove_excepts, excluded. destruct excepts as [ex|].
  - rewrite elem_of_difference, elem_of_list_to_set. split.
    + intros [? ?]. split; [done|]. intros (ex' & [= <-] & ?). done.
    + intros [? Hn]. split; [done|]. intros ?. apply Hn. eauto.
  - split; [|tauto]. intros ?. split; [done|]. intros (? & ? & _). done.
Qed.

(** Drawing [n] indices from a set of at least [n] elements succeeds; the
    indices drawn are distinct members of the set, appended in order. *)
Lemma draw_spec rnd n : ∀ k X indices,
  n ≤ size X →
  ∃ chosen, draw rnd k n X indices = Ok (indices ++ chosen)
            ∧ length chosen = n ∧ NoDup chosen ∧ ∀ i, i ∈ chosen → i ∈ X.
Proof.
  induction n as [|n IH]; intros k X indices Hsize; simpl.
  - exists []. rewrite app_nil_r. repeat split; auto using NoDup_nil_2.
    intros i Hi. inversion Hi.
  - unfold random_choice.
    assert (length (elements X) = size X) as Hlen by done.
    destruct (lookup_lt_is_Some_2 (elements X)
                (rnd k mod length (elements X))) as [c Hc].
    { apply Nat.mod_upper_bound. lia. }
    rewrite Hc. simpl.
    assert (c ∈ X) as HcS.
    { apply elem_of_elements, list_elem_of_lookup. eauto. }
    destruct (IH (S k) (X ∖ {[c]}) (indices ++ [c]))
      as (chosen & -> & Hl & Hnd & Hin).
    { rewrite size_difference, size_singleton; [lia|].
      by apply singleton_subseteq_l. }
    exists (c :: chosen). rewrite <- app_assoc. simpl.
    repeat split; auto.
    + apply NoDup_cons. split; [|done]. intros Hc'.
      apply Hin, elem_of_difference in Hc' as [_ Hc'].
      by apply Hc', elem_of_singleton.
    + intros i [->|Hi]%elem_of_cons; [done|].
      by apply Hin, elem_of_difference in Hi as [Hi _].
Qed.

(** One turn of the loop that finds enough elements ends the loop. *)
Lemma sample_loop_enough fuel self classes idx (from_class : option (list Z))
    excepts (b : bool) dbg U n :
  union_classes classes
    (match from_class with
     | Some fc => if b then class_keys classes else fc
     | None => class_keys classes
     end) ∅ = Ok U →
  nbr_distractors self !! mode self = Some n →
  idx ∈ remove_excepts U excepts →
  n ≤ size (remove_excepts U excepts ∖ {[idx]}) →
  sample_loop (S fuel) self classes idx from_class excepts b dbg =
  ([], Ok (remove_excepts U excepts ∖ {[idx]}, [idx], n)).
Proof.
  intros HU Hn Hidx Hsize. simpl. rewrite HU, Hn. unfold remove_target.
  rewrite decide_True by done. rewrite decide_False by lia. done.
Qed.

(** One turn of the loop that finds too few elements prints the warnings and
    goes on with all the classes. *)
Lemma sample_loop_not_enough fuel self classes idx
    (from_class : option (list Z)) excepts (b : bool) dbg U n :
  let candidates :=
    match from_class with
    | Some fc => if b then class_keys classes else fc
    | None => class_keys classes
    end in
  union_classes classes candidates ∅ = Ok U →
  nbr_distractors self !! mode self = Some n →
  idx ∈ remove_excepts U excepts →
  size (remove_excepts U excepts ∖ {[idx]}) < n →
  sample_loop (S fuel) self classes idx from_class excepts b dbg =
  let next :=
    sample_loop fuel self classes idx (Some candidates) excepts true dbg in
  ([Print msg_not_enough; Print msg_all_classes] ++ next.1, next.2).
Proof.
  intros candidates HU Hn Hidx Hsize. simpl. fold candidates.
  rewrite HU, Hn. unfold remove_target.
  rewrite decide_True by done. rewrite decide_True by done.
  by destruct (sample_loop fuel self classes idx _ excepts true dbg).
Qed.

(** The first turn of the loop ends it when the working set is large
    enough, and the draw that follows succeeds. *)
Lemma sample_indices_first_turn self idx from_class excepts rnd dbg fuel U n :
  union_classes (active_classes self) (candidate_classes self from_class) ∅
    = Ok U →
  nbr_distractors self !! mode self = Some n →
  target_index self idx ∈ remove_excepts U excepts →
  n ≤ size (remove_excepts U excepts ∖ {[target_index self idx]}) →
  ∃ indices,
    sample_indices self idx from_class excepts rnd dbg (S fuel)
      = ([], Ok indices) ∧
    length indices = 1 + n ∧
    head indices = Some (target_index self idx) ∧
    NoDup indices ∧
    (∀ i, i ∈ indices → ¬ excluded excepts i) ∧
    (∀ i, i ∈ tail indices → i ∈ remove_excepts U excepts) ∧
    ∀ target_only,
      sample self idx from_class excepts target_only rnd dbg (S fuel)
        = ([], collate self indices target_only) ∧
      ∀ d, collate self indices target_only = Ok d →
           dict_get "indices" d = Some (FIndices indices).
Proof.
  intros HU Hn Hidx Hsize.
  destruct (draw_spec rnd n 0 _ [target_index self idx] Hsize)
    as (chosen & Hd & Hl & Hnd & Hin).
  assert (sample_indices self idx from_class excepts rnd dbg (S fuel)
          = ([], Ok (target_index self idx :: chosen))) as Hsi.
  { unfold sample_indices.
    rewrite (sample_loop_enough fuel self (active_classes self)
               (target_index self idx) from_class excepts false dbg U n).
    - simpl. by rewrite Hd.
    - unfold candidate_classes in HU. by destruct from_class.
    - done.
    - done.
    - done. }
  exists (target_index self idx :: chosen). repeat split; auto.
  - simpl. by rewrite Hl.
  - apply NoDup_cons. split; [|done]. intros Ht.
    apply Hin, elem_of_difference in Ht as [_ Ht].
    by apply Ht, elem_of_singleton.
  - intros i [->|Hi]%elem_of_cons.
    + by apply not_excluded_remove_excepts in Hidx as [_ ?].
    + apply Hin, elem_of_difference in Hi as [Hi _].
      by apply not_excluded_remove_excepts in Hi as [_ ?].
  - simpl. intros i Hi. by apply Hin, elem_of_difference in Hi as [Hi _].
  - unfold sample. by rewrite Hsi.
  - apply collate_indices.
Qed.

(** Every index of a list that starts with the target and goes on in the
    working set denotes a plain item when every index of the set does. *)
Lemma plain_indices self s U excepts t indices :
  (∀ i, i ∈ remove_excepts U excepts →
        ∃ it x, item_at self i = Some it
                ∧ plain_item (nbr_classes self) s it x) →
  t ∈ remove_excepts U excepts →
  head indices = Some t →
  (∀ i, i ∈ tail indices → i ∈ remove_excepts U excepts) →
  indices ≠ [] ∧
  ∀ i, i ∈ indices →
       ∃ it x, item_at self i = Some it
               ∧ plain_item (nbr_classes self) s it x.
Proof.
  intros Hplain Ht Hhd Htl. destruct indices as [|t' rest]; [done|].
  injection Hhd as ->. split; [done|].
  intros i [->|Hi]%elem_of_cons; apply Hplain; [done|]. by apply Htl.
Qed.

(** C1.  When the target is in the working set of the candidate classes
    (their indices without the excluded ones) and, the target removed, that
    set has at least as many elements as the distractor count [n] of the
    active mode, the first turn of the loop succeeds: no message is printed,
    and the list of indices has [1 + n] elements, starts with the target,
    has no repetition and no excluded index; every other index is in the
    working set.  [sample] then builds the dictionary for these indices and
    attaches the list under ["indices"]; it returns that dictionary when
    the items of the working set are plain ones (an image and a label
    inside the range of the classes). *)
Theorem sample_indices_sufficient self idx from_class excepts rnd dbg fuel U n :
  union_classes (active_classes self) (candidate_classes self from_class) ∅
    = Ok U →
  nbr_distractors self !! mode self = Some n →
  target_index self idx ∈ remove_excepts U excepts →
  n ≤ size (remove_excepts U excepts ∖ {[target_index self idx]}) →
  ∃ indices,
    sample_indices self idx from_class excepts rnd dbg (S fuel)
      = ([], Ok indices) ∧
    length indices = 1 + n ∧
    head indices = Some (target_index self idx) ∧
    NoDup indices ∧
    (∀ i, i ∈ indices → ¬ excluded excepts i) ∧
    (∀ i, i ∈ tail indices → i ∈ remove_excepts U excepts) ∧
    (∀ target_only,
       sample self idx from_class excepts target_only rnd dbg
         (S fuel)
         = ([], collate self indices target_only) ∧
       ∀ d, collate self indices target_only = Ok d →
            dict_get "indices" d = Some (FIndices indices)) ∧
    ∀ s,
      (∀ i, i ∈ remove_excepts U excepts →
            ∃ it x, item_at self i = Some it
                    ∧ plain_item (nbr_classes self) s it x) →
      ∀ target_only,
        ∃ d, sample self idx from_class excepts target_only rnd dbg
               (S fuel) = ([], Ok d)
             ∧ dict_get "indices" d = Some (FIndices indices).
Proof.
  intros HU Hn Hidx Hsize.
  destruct (sample_indices_first_turn self idx from_class excepts rnd dbg fuel
              U n HU Hn Hidx Hsize)
    as (indices & Hsi & Hlen & Hhd & Hnd & Hex & Htl & Hs).
  exists indices. do 6 (split; [done|]). split; [done|].
  intros s Hplain target_only.
  destruct (plain_indices self s U excepts _ indices Hplain Hidx Hhd Htl)
    as [Hne Hall].
  destruct (collate_total self s indices target_only Hne Hall) as (d & Hd & Hi).
  exists d. split; [|done]. destruct (Hs target_only) as [-> _]. by rewrite Hd.
Qed.

Lemma union_classes_keys classes :
  ∃ U, union_classes classes (class_keys classes) ∅ = Ok U.
Proof. apply union_classes_total. intros cl. by rewrite class_keys_elem. Qed.

Lemma union_classes_subseteq classes from_class U1 U :
  union_classes classes from_class ∅ = Ok U1 →
  union_classes classes (class_keys classes) ∅ = Ok U →
  U1 ⊆ U.
Proof.
  intros H1 H i. rewrite (union_classes_elem _ _ _ _ H1 i).
  rewrite (union_classes_elem _ _ _ _ H i).
  intros [Hi|(cl & idxs & _ & Hl & Hin)]; [by left|].
  right. exists cl, idxs. rewrite class_keys_elem. eauto.
Qed.

(** Once the loop has widened the candidates to all classes, every turn
    sees the same working set: a set that is too small stays too small, and
    the loop does not end. *)
Lemma sample_loop_never_ends self classes idx from_class excepts dbg U n :
  union_classes classes (class_keys classes) ∅ = Ok U →
  nbr_distractors self !! mode self = Some n →
  idx ∈ remove_excepts U excepts →
  size (remove_excepts U excepts ∖ {[idx]}) < n →
  ∀ fuel,
    (sample_loop fuel self classes idx (Some from_class) excepts true dbg).2
    = OutOfFuel.
Proof.
  intros HU Hn Hidx Hsize fuel. revert from_class.
  induction fuel as [|fuel IH]; intros from_class; [done|].
  simpl. rewrite HU, Hn. unfold remove_target.
  rewrite decide_True by done. rewrite decide_True by done.
  specialize (IH (class_keys classes)).
  by destruct (sample_loop fuel self classes idx _ excepts true dbg).
Qed.

(** C2.  When the classes given by the caller leave, the target removed, a
    working set smaller than the distractor count [n], and all the classes
    of the active map leave one that is large enough, the loop prints its
    two warnings, takes all the classes in its second turn and ends there:
    the indices are those of the call without a restriction on the classes,
    [1 + n] of them, the target first, distinct, none excluded; [sample]
    returns them in its dictionary when the items are plain ones. *)
Theorem sample_widens_to_all_classes self idx fc excepts rnd dbg fuel U1 U n :
  union_classes (active_classes self) fc ∅ = Ok U1 →
  nbr_distractors self !! mode self = Some n →
  target_index self idx ∈ remove_excepts U1 excepts →
  size (remove_excepts U1 excepts ∖ {[target_index self idx]}) < n →
  union_classes (active_classes self) (class_keys (active_classes self)) ∅
    = Ok U →
  n ≤ size (remove_excepts U excepts ∖ {[target_index self idx]}) →
  ∃ indices,
    sample_indices self idx (Some fc) excepts rnd dbg
      (S (S fuel))
      = ([Print msg_not_enough; Print msg_all_classes], Ok indices) ∧
    sample_indices self idx None excepts rnd dbg (S fuel)
      = ([], Ok indices) ∧
    length indices = 1 + n ∧
    head indices = Some (target_index self idx) ∧
    NoDup indices ∧
    (∀ i, i ∈ indices → ¬ excluded excepts i) ∧
    (∀ i, i ∈ tail indices → i ∈ remove_excepts U excepts) ∧
    (∀ target_only,
       sample self idx (Some fc) excepts target_only rnd dbg
         (S (S fuel))
         = ([Print msg_not_enough; Print msg_all_classes],
            collate self indices target_only) ∧
       ∀ d, collate self indices target_only = Ok d →
            dict_get "indices" d = Some (FIndices indices)) ∧
    ∀ s,
      (∀ i, i ∈ remove_excepts U excepts →
            ∃ it x, item_at self i = Some it
                    ∧ plain_item (nbr_classes self) s it x) →
      ∀ target_only,
        ∃ d, sample self idx (Some fc) excepts target_only rnd dbg
               (S (S fuel))
             = ([Print msg_not_enough; Print msg_all_classes], Ok d)
             ∧ dict_get "indices" d = Some (FIndices indices).
Proof.
  intros HU1 Hn Hidx1 Hsmall HU Hsize.
  assert (target_index self idx ∈ remove_excepts U excepts) as Hidx.
  { apply not_excluded_remove_excepts in Hidx1 as [Hin Hex].
    apply not_excluded_remove_excepts. split; [|done].
    by apply (union_classes_subseteq _ _ _ _ HU1 HU). }
  destruct (sample_indices_first_turn self idx None excepts rnd dbg fuel U n)
    as (indices & Hnone & Hlen & Hhd & Hnd & Hex & Htl & _); auto.
  exists indices.
  assert (sample_indices self idx (Some fc) excepts rnd dbg
            (S (S fuel))
          = ([Print msg_not_enough; Print msg_all_classes], Ok indices)) as Hsi.
  { revert Hnone. unfold sample_indices.
    rewrite (sample_loop_enough fuel self (active_classes self)
               (target_index self idx) None excepts false dbg U n); auto.
    intros Hnone.
    rewrite (sample_loop_not_enough (S fuel) self
               (active_classes self) (target_index self idx) (Some fc) excepts
               false dbg U1 n); auto.
    rewrite (sample_loop_enough fuel self (active_classes self)
               (target_index self idx) (Some fc) excepts true dbg U n); auto.
    simpl. simpl in Hnone. by injection Hnone as ->. }
  do 7 (split; [done|]).
  assert (∀ target_only,
            sample self idx (Some fc) excepts target_only rnd dbg
              (S (S fuel))
            = ([Print msg_not_enough; Print msg_all_classes],
               collate self indices target_only)) as Hrun.
  { intros target_only. unfold sample. by rewrite Hsi. }
  split.
  - intros target_only. split; [done | apply collate_indices].
  - intros s Hplain target_only.
    destruct (plain_indices self s U excepts _ indices Hplain Hidx Hhd Htl)
      as [Hne Hall].
    destruct (collate_total self s indices target_only Hne Hall)
      as (d & Hd & Hi).
    exists d. split; [|done]. by rewrite Hrun, Hd.
Qed.

(** The ways in which the loop can end: with the target alone in [indices]
    and a working set of at least [n] elements, or by the user leaving the
    debugger.  The loop itself raises nothing. *)
Lemma sample_loop_outcome self classes idx excepts dbg n :
  nbr_distractors self !! mode self = Some n →
  ∀ fuel (from_class : option (list Z)) (b : bool),
    (∃ U, union_classes classes
            (match from_class with
             | Some fc => if b then class_keys classes else fc
             | None => class_keys classes
             end) ∅ = Ok U) →
    match (sample_loop fuel self classes idx from_class excepts b dbg).2 with
    | Ok (W, indices, n') => indices = [idx] ∧ n' = n ∧ n ≤ size W
    | Raised e => e = BdbQuit ∧ dbg = DbgQuit
    | OutOfFuel => True
    end.
Proof.
  intros Hn. induction fuel as [|fuel IH]; intros from_class b [U HU]; [done|].
  simpl. rewrite HU, Hn. unfold remove_target.
  specialize (IH (Some (match from_class with
                        | Some fc => if b then class_keys classes else fc
                        | None => class_keys classes
                        end)) true (union_classes_keys classes)).
  destruct (sample_loop fuel self classes idx _ excepts true dbg) as [log' r].
  destruct (decide (idx ∈ remove_excepts U excepts)).
  - destruct (decide (size (remove_excepts U excepts ∖ {[idx]}) < n)); simpl.
    + done.
    + repeat split; auto. lia.
  - destruct dbg; [|done].
    destruct (decide (size (remove_excepts U excepts) < n)); simpl.
    + done.
    + repeat split; auto. lia.
Qed.

(** C5, as the code has it.  When the target is not in the working set of
    the candidate classes, the [KeyError] of the removal is caught: the
    message and the error are printed and the debugger is entered.  Leaving
    the debugger with [quit] ends the call with [BdbQuit]; resuming it lets
    the call go on with the target as first index, and the call builds its
    dictionary for [1 + n] indices when the working set has at least [n]
    elements.  Whatever the answer, [sample] raises no error of its own for
    the missing target. *)
Theorem missing_target_is_caught self idx from_class excepts target_only rnd
    dbg fuel U n :
  union_classes (active_classes self) (candidate_classes self from_class) ∅
    = Ok U →
  nbr_distractors self !! mode self = Some n →
  target_index self idx ∉ remove_excepts U excepts →
  let stop :=
    [Print msg_removal;
     PrintExn (KeyErrorInt (Z.of_nat (target_index self idx))); Breakpoint] in
  let run :=
    sample self idx from_class excepts target_only rnd dbg (S fuel)
  in
  (∃ log, run.1 = stop ++ log) ∧
  (dbg = DbgQuit → run = (stop, Raised BdbQuit)) ∧
  (dbg = DbgContinue → n ≤ size (remove_excepts U excepts) →
   ∃ indices,
     run = (stop, collate self indices target_only) ∧
     head indices = Some (target_index self idx) ∧
     length indices = 1 + n) ∧
  (∀ e, (sample_indices self idx from_class excepts rnd dbg
           (S fuel)).2 = Raised e →
        e = BdbQuit ∧ dbg = DbgQuit).
Proof.
  intros HU Hn Hidx stop run.
  assert (HU' : union_classes (active_classes self)
                  (match from_class with
                   | Some fc => if false then class_keys (active_classes self)
                                else fc
                   | None => class_keys (active_classes self)
                   end) ∅ = Ok U).
  { unfold candidate_classes in HU. by destruct from_class. }
  split; [|split; [|split]].
  - subst run. unfold sample, sample_indices. simpl.
    rewrite HU', Hn. unfold remove_target. rewrite decide_False by done.
    destruct dbg; [|by exists []].
    destruct (decide (size (remove_excepts U excepts) < n)).
    + destruct (sample_loop fuel self _ _ _ excepts true DbgContinue)
        as [log' r].
      simpl. eauto.
    + simpl. by exists [].
  - intros ->. subst run. unfold sample, sample_indices. simpl.
    rewrite HU', Hn. unfold remove_target. by rewrite decide_False by done.
  - intros -> Hsize. subst run. unfold sample, sample_indices. simpl.
    rewrite HU', Hn. unfold remove_target. rewrite decide_False by done.
    rewrite decide_False by lia. simpl.
    destruct (draw_spec rnd n 0 _ [target_index self idx] Hsize)
      as (chosen & -> & Hl & _). simpl.
    exists (target_index self idx :: chosen). simpl. by rewrite Hl.
  - intros e. unfold sample_indices.
    pose proof (sample_loop_outcome self (active_classes self)
                  (target_index self idx) excepts dbg n Hn
                  (S fuel) from_class false
                  (ex_intro _ U HU')) as Hout.
    destruct (sample_loop (S fuel) self _ _ from_class excepts
                false dbg) as [log r].
    simpl in Hout. destruct r as [[[W indices] n']| |]; simpl.
    + destruct Hout as (_ & -> & Hsize).
      destruct (draw_spec rnd n 0 W indices Hsize) as (chosen & -> & _).
      done.
    + intros [= <-]. done.
    + done.
Qed.

(** C9.  Under the conditions of C1, a call with [target_only] draws the
    same [1 + n] indices as a call without it, the target first, and
    attaches them to the dictionary; every other entry of the dictionary is
    the one built for the list that holds the target alone.  For a plain
    target the dictionary is returned, and its image, label and latent
    entries hold one item, the target. *)
Theorem target_only_keeps_indices self idx from_class excepts rnd dbg fuel U n :
  union_classes (active_classes self) (candidate_classes self from_class) ∅
    = Ok U →
  nbr_distractors self !! mode self = Some n →
  target_index self idx ∈ remove_excepts U excepts →
  n ≤ size (remove_excepts U excepts ∖ {[target_index self idx]}) →
  ∃ indices,
    length indices = 1 + n ∧
    head indices = Some (target_index self idx) ∧
    NoDup indices ∧
    sample self idx from_class excepts false rnd dbg (S fuel)
      = ([], collate self indices false) ∧
    sample self idx from_class excepts true rnd dbg (S fuel)
      = ([], d ← collate self [target_index self idx] false;
             Ok (dict_set "indices" (FIndices indices) d)) ∧
    (∀ d, (sample self idx from_class excepts true rnd dbg
             (S fuel)).2 = Ok d →
          dict_get "indices" d = Some (FIndices indices) ∧
          ∃ d1, collate self [target_index self idx] false = Ok d1 ∧
                ∀ k, k ≠ "indices" → dict_get k d = dict_get k d1) ∧
    ∀ s it x,
      item_at self (target_index self idx) = Some it →
      plain_item (nbr_classes self) s it x →
      sample self idx from_class excepts true rnd dbg (S fuel)
      = ([], Ok (plain_result (nbr_classes self) s [x] indices)).
Proof.
  intros HU Hn Hidx Hsize.
  destruct (sample_indices_first_turn self idx from_class excepts rnd dbg fuel
              U n HU Hn Hidx Hsize)
    as (indices & _ & Hlen & Hhd & Hnd & _ & _ & Hs).
  exists indices. split; [done|]. split; [done|]. split; [done|].
  destruct (Hs false) as [Hfalse _]. destruct (Hs true) as [Htrue _].
  split; [done|].
  destruct indices as [|t rest]; [done|]. injection Hhd as ->.
  split; [by rewrite <- collate_target_only|]. split.
  - intros d. rewrite Htrue, collate_target_only. simpl.
    destruct (collate self [target_index self idx] false) as [d1| |];
      simpl; [|done..].
    intros [= <-]. split; [apply dict_get_set_eq|].
    exists d1. split; [done|]. intros k Hk. by apply dict_get_set_ne.
  - intros s it x Hit Hx. rewrite Htrue.
    by rewrite (collate_target_only_plain self s _ rest it x).
Qed.

End Selection.

(** ** Serving the pipelines *)

Section Serving.

Import Train.

Implicit Types (cfg : config) (pipelines : odict pipeline).

Lemma served_app evs evs' : served (evs ++ evs') = served evs ++ served evs'.
Proof.
  induction evs as [|[] evs IH]; simpl; by rewrite ?IH.
Qed.

Lemma flags_app evs evs' :
  end_of_communication_flags (evs ++ evs') =
  end_of_communication_flags evs ++ end_of_communication_flags evs'.
Proof.
  induction evs as [|[path [] | | | |] evs IH]; simpl; rewrite ?IH; try done.
  by destruct (String.eqb path _).
Qed.

Lemma served_referential_game pipelines :
  served (serve_referential_game pipelines)
  = referential_game_pipelines pipelines.
Proof.
  unfold referential_game_pipelines.
  induction pipelines as [|[pipe_id p] rest IH]; [done|]. simpl.
  rewrite filter_cons. simpl.
  destruct (str_in "referential_game" pipe_id) eqn:E.
  - rewrite decide_True by done. simpl. by rewrite IH.
  - rewrite decide_False by done. done.
Qed.

Lemma flags_referential_game pipelines :
  end_of_communication_flags (serve_referential_game pipelines) = [].
Proof.
  induction pipelines as [|[pipe_id p] rest IH]; [done|]. simpl.
  by destruct (str_in "referential_game" pipe_id).
Qed.

Lemma served_others pipelines :
  served (serve_others pipelines) = other_pipelines pipelines.
Proof.
  unfold other_pipelines.
  induction pipelines as [|[pipe_id p] rest IH]; [done|]. simpl.
  rewrite filter_cons. simpl.
  destruct (str_in "referential_game" pipe_id) eqn:E.
  - rewrite decide_False by done. done.
  - rewrite decide_True by done. simpl. by rewrite IH.
Qed.

Lemma flags_others pipelines :
  end_of_communication_flags (serve_others pipelines) = [].
Proof.
  induction pipelines as [|[pipe_id p] rest IH]; [done|]. simpl.
  by destruct (str_in "referential_game" pipe_id).
Qed.

(** One round serves each communication pipeline once and writes the flag
    of the round. *)
Lemma communication_round_spec cfg pipelines idx_round :
  served (communication_round cfg pipelines idx_round)
    = referential_game_pipelines pipelines ∧
  end_of_communication_flags (communication_round cfg pipelines idx_round)
    = [bool_decide (idx_round = nbr_communication_round cfg - 1)].
Proof.
  unfold communication_round. split.
  - simpl. apply served_referential_game.
  - simpl. by rewrite flags_referential_game.
Qed.

Lemma communication_rounds_spec cfg pipelines idxs :
  served (communication_rounds cfg pipelines idxs)
    = concat (replicate (length idxs) (referential_game_pipelines pipelines)) ∧
  end_of_communication_flags (communication_rounds cfg pipelines idxs)
    = map (λ i, bool_decide (i = nbr_communication_round cfg - 1)) idxs.
Proof.
  induction idxs as [|i idxs [IH1 IH2]]; [done|].
  destruct (communication_round_spec cfg pipelines i) as [H1 H2].
  change (communication_rounds cfg pipelines (i :: idxs))
    with (communication_round cfg pipelines i
            ++ communication_rounds cfg pipelines idxs).
  rewrite served_app, flags_app, H1, H2, IH1, IH2. done.
Qed.

Lemma occurrences_app p l l' :
  occurrences p (l ++ l') = occurrences p l + occurrences p l'.
Proof. unfold occurrences. by rewrite filter_app, length_app. Qed.

Lemma occurrences_concat_replicate p n l :
  occurrences p (concat (replicate n l)) = n * occurrences p l.
Proof.
  induction n as [|n IH]; [done|]. simpl.
  by rewrite occurrences_app, IH.
Qed.

Lemma occurrences_not_elem_of p l : p ∉ l → occurrences p l = 0.
Proof.
  unfold occurrences. induction l as [|x l IH]; [done|].
  intros Hp. apply not_elem_of_cons in Hp as [Hne Hp].
  rewrite filter_cons, decide_False by done. by apply IH.
Qed.

(** In a list without repetition an element that passes the filter occurs
    once among those kept, and one that does not pass occurs in none. *)
Lemma occurrences_filter (P : string → Prop) `{∀ x, Decision (P x)} p l :
  NoDup l → p ∈ l →
  occurrences p (filter P l) = if decide (P p) then 1 else 0.
Proof.
  intros Hnd. induction Hnd as [|x l Hx Hnd IH].
  - intros Hp. inversion Hp.
  - intros Hp. rewrite filter_cons.
    assert (p ∉ l → occurrences p (filter P l) = 0) as Hnone.
    { intros Hnot. apply occurrences_not_elem_of.
      by intros [_ ?]%list_elem_of_filter. }
    apply elem_of_cons in Hp as [->|Hp].
    + destruct (decide (P x)); [|by apply Hnone].
      change (x :: filter P l) with ([x] ++ filter P l).
      rewrite occurrences_app, Hnone by done.
      unfold occurrences. by rewrite filter_cons, decide_True.
    + assert (x ≠ p) as Hne by (intros ->; done).
      destruct (decide (P x)); [|by apply IH].
      change (x :: filter P l) with ([x] ++ filter P l).
      rewrite occurrences_app, IH by done.
      unfold occurrences at 1. by rewrite filter_cons, decide_False.
Qed.

(** C6.  In one repetition the rounds [0 .. n-1] run, with [n] the
    configured number of rounds: each round serves every pipeline whose
    identifier contains ["referential_game"] once, in order, and writes
    [end_of_communication], true for the round [n - 1] alone; then every
    other pipeline is served once.  So a pipeline of the first kind is
    served [n] times in the repetition and one of the second kind once. *)
Theorem repetition_serves_pipelines cfg pipelines nbr_rep it_rep :
  NoDup (dict_keys pipelines) →
  let n := nbr_communication_round cfg in
  let evs := repetition cfg pipelines nbr_rep it_rep in
  (∀ idx_round,
     served (communication_round cfg pipelines idx_round)
       = referential_game_pipelines pipelines ∧
     end_of_communication_flags (communication_round cfg pipelines idx_round)
       = [bool_decide (idx_round = n - 1)]) ∧
  served evs
    = concat (replicate n (referential_game_pipelines pipelines))
      ++ other_pipelines pipelines ∧
  end_of_communication_flags evs
    = map (λ idx_round, bool_decide (idx_round = n - 1)) (seq 0 n) ∧
  (∀ i b, end_of_communication_flags evs !! i = Some b →
          i < n ∧ (b = true ↔ i = n - 1)) ∧
  ∀ pipe_id, pipe_id ∈ dict_keys pipelines →
    occurrences pipe_id (served evs)
    = if str_in "referential_game" pipe_id then n else 1.
Proof.
  intros Hnd n evs.
  destruct (communication_rounds_spec cfg pipelines (seq 0 n)) as [Hs Hf].
  rewrite length_seq in Hs.
  assert (served evs
          = concat (replicate n (referential_game_pipelines pipelines))
            ++ other_pipelines pipelines) as Hserved.
  { subst evs n. unfold repetition.
    rewrite !served_app, Hs, served_others. simpl. by rewrite app_nil_r. }
  assert (end_of_communication_flags evs
          = map (λ idx_round, bool_decide (idx_round = n - 1)) (seq 0 n))
    as Hflags.
  { subst evs n. unfold repetition.
    rewrite !flags_app, Hf, flags_others. simpl. by rewrite app_nil_r. }
  split; [apply communication_round_spec|]. split; [done|]. split; [done|].
  split.
  - intros i b. rewrite Hflags, list_lookup_fmap.
    destruct (seq 0 n !! i) as [j|] eqn:E; [|done].
    apply lookup_seq in E as [-> Hi]. simpl. intros [= <-].
    split; [done|]. by rewrite bool_decide_eq_true.
  - intros pipe_id Hin. rewrite Hserved, occurrences_app.
    rewrite occurrences_concat_replicate.
    unfold referential_game_pipelines, other_pipelines.
    rewrite !occurrences_filter by done.
    destruct (str_in "referential_game" pipe_id).
    + rewrite decide_True, decide_False by done. lia.
    + rewrite decide_False, decide_True by done. lia.
Qed.

End Serving.

(** ** Checkpoints *)

Section Persistence.

Import Checkpoint.

Implicit Types (fs : io) (log : list io_event) (a : artifact).

Lemma completed_app a log log' :
  completed a (log ++ log') ↔ completed a log ∨ completed a log'.
Proof. apply elem_of_app. Qed.

Lemma reported_app e log log' :
  reported e log ∨ reported e log' → reported e (log ++ log').
Proof.
  unfold reported. intros [[msg H]|[msg H]]; exists msg; apply elem_of_app; auto.
Qed.

Lemma not_completed_when_verbose a verbose msg :
  ¬ completed a (when_verbose verbose msg).
Proof.
  unfold completed, when_verbose. destruct verbose.
  - intros H%list_elem_of_singleton. done.
  - intros H. inversion H.
Qed.

(** The modules written before [save_modules] returns or raises. *)
Lemma save_modules_completed fs modules a :
  completed a (save_modules fs modules).1 →
  ∃ module_id, a = AModule module_id ∧ module_id ∈ modules
               ∧ transfer fs a = None.
Proof.
  unfold completed. induction modules as [|m rest IH]; simpl.
  - intros H. inversion H.
  - destruct (transfer fs (AModule m)) eqn:E; simpl.
    + intros H. inversion H.
    + destruct (save_modules fs rest) as [log r]. simpl in *.
      intros [[= ->]|H]%elem_of_cons.
      * exists m. split; [done|]. split; [left | done].
      * destruct (IH H) as (m' & -> & Hin & Hok).
        exists m'. split; [done|]. split; [by right | done].
Qed.

(** When a module cannot be written, [save_modules] raises its exception. *)
Lemma save_modules_raises fs pre module_id post e :
  (∀ m, m ∈ pre → transfer fs (AModule m) = None) →
  transfer fs (AModule module_id) = Some e →
  save_modules fs (pre ++ module_id :: post)
  = (map (λ m, Done (AModule m)) pre, Raised (IOError e)).
Proof.
  intros Hpre He. induction pre as [|m pre IH]; simpl.
  - by rewrite He.
  - rewrite (Hpre m) by left. rewrite IH; [done|].
    intros m' Hm'. apply Hpre. by right.
Qed.

Lemma save_modules_returns fs modules :
  (∀ m, m ∈ modules → transfer fs (AModule m) = None) →
  save_modules fs modules = (map (λ m, Done (AModule m)) modules, Ok ()).
Proof.
  intros Hall. induction modules as [|m rest IH]; simpl; [done|].
  rewrite (Hall m) by left. rewrite IH; [done|].
  intros m' Hm'. apply Hall. by right.
Qed.

Lemma load_config_handles fs verbose :
  (transfer fs AConfig = None → completed AConfig (load_config fs verbose)) ∧
  (∀ e, transfer fs AConfig = Some e → reported e (load_config fs verbose)).
Proof.
  unfold load_config. split.
  - intros ->. apply completed_app. left. left.
  - intros e ->. apply reported_app. left. eexists. left.
Qed.

Lemma load_pipelines_handles fs verbose :
  (transfer fs APipelines = None →
   completed APipelines (load_pipelines fs verbose)) ∧
  (∀ e, transfer fs APipelines = Some e →
        reported e (load_pipelines fs verbose)).
Proof.
  unfold load_pipelines. split.
  - intros ->. apply completed_app. left. left.
  - intros e ->. apply reported_app. left. eexists. left.
Qed.

Lemma load_signals_handles fs verbose :
  (transfer fs ASignals = None → completed ASignals (load_signals fs verbose)) ∧
  (∀ e, transfer fs ASignals = Some e → reported e (load_signals fs verbose)).
Proof.
  unfold load_signals. split.
  - intros ->. apply completed_app. left. left.
  - intros e ->. apply reported_app. left. eexists. left.
Qed.

Lemma load_each_module_handles fs modules_paths m :
  m ∈ modules_paths →
  (transfer fs (AModule m) = None →
   completed (AModule m) (load_each_module fs modules_paths)) ∧
  (∀ e, transfer fs (AModule m) = Some e →
        reported e (load_each_module fs modules_paths)).
Proof.
  induction modules_paths as [|m' rest IH]; intros Hm; [inversion Hm|]. simpl.
  apply elem_of_cons in Hm as [<-|Hm].
  - split.
    + intros ->. apply completed_app. left. left.
    + intros e ->. apply reported_app. left.
      eexists. left.
  - destruct (IH Hm) as [IH1 IH2]. split.
    + intros H. apply completed_app. right. auto.
    + intros e H. apply reported_app. right. auto.
Qed.

(** [load] returns whatever fails, reads every artifact that can be read
    and reports the failure of every other one. *)
Lemma load_handles_each_artifact fs modules_paths verbose path :
  let run := load fs modules_paths verbose path in
  run.2 = Ok () ∧
  ∀ a, a ∈ [AConfig; APipelines; ASignals] ++ map AModule modules_paths →
       (transfer fs a = None → completed a run.1) ∧
       (∀ e, transfer fs a = Some e → reported e run.1).
Proof.
  split; [done|]. intros a Ha. simpl.
  destruct (load_config_handles fs verbose) as [C1 C2].
  destruct (load_pipelines_handles fs verbose) as [P1 P2].
  destruct (load_signals_handles fs verbose) as [S1 S2].
  apply elem_of_app in Ha as [Ha|Ha].
  - apply elem_of_cons in Ha as [->|Ha]; [|apply elem_of_cons in Ha as [->|Ha];
      [|apply list_elem_of_singleton in Ha as ->]].
    + split; [intros H; apply completed_app | intros e H; apply reported_app];
        left; auto.
    + split; [intros H; do 2 (apply completed_app; right); apply completed_app
             | intros e H; do 2 (apply reported_app; right); apply reported_app];
        left; auto.
    + split; [intros H; do 3 (apply completed_app; right); apply completed_app
             | intros e H; do 3 (apply reported_app; right); apply reported_app];
        left; auto.
  - apply list_elem_of_fmap in Ha as (m & -> & Hm).
    destruct (load_each_module_handles fs modules_paths m Hm) as [M1 M2].
    unfold load_modules. split.
    + intros H. apply completed_app. right. apply completed_app. left.
      apply completed_app. left. auto.
    + intros e H. apply reported_app. right. apply reported_app. left.
      apply reported_app. left. auto.
Qed.

(** [save] catches what the configuration, the pipelines and the signals
    raise: when every module can be written, it returns, writes every
    artifact that can be written and reports the failure of the others. *)
Lemma save_handles_config_pipelines_signals fs modules verbose path :
  makedirs fs = None →
  (∀ m, m ∈ modules → transfer fs (AModule m) = None) →
  let run := save fs modules verbose path in
  run.2 = Ok () ∧
  ∀ a, a ∈ [AConfig; APipelines; ASignals] ++ map AModule modules →
       (transfer fs a = None → completed a run.1) ∧
       (∀ e, transfer fs a = Some e → reported e run.1).
Proof.
  intros Hdir Hall. unfold save. rewrite Hdir.
  rewrite (save_modules_returns fs modules Hall). simpl.
  split; [done|]. intros a Ha.
  apply elem_of_cons in Ha as [->|Ha]; [|apply elem_of_cons in Ha as [->|Ha];
    [|apply elem_of_cons in Ha as [->|Ha]]].
  - unfold save_config. split.
    + intros ->. apply completed_app. right. apply completed_app. left. left.
    + intros e ->. apply reported_app. right. apply reported_app. left.
      eexists. left.
  - unfold save_pipelines. split.
    + intros ->. do 3 (apply completed_app; right). apply completed_app.
      left. left.
    + intros e ->. do 3 (apply reported_app; right). apply reported_app.
      left. eexists. left.
  - unfold save_signals. split.
    + intros ->. do 4 (apply completed_app; right). apply completed_app.
      left. left.
    + intros e ->. do 4 (apply reported_app; right). apply reported_app.
      left. eexists. left.
  - apply list_elem_of_fmap in Ha as (m & -> & Hm). split.
    + intros _. do 2 (apply completed_app; right). apply completed_app. left.
      unfold completed. apply list_elem_of_fmap. eauto.
    + intros e He. rewrite (Hall m Hm) in He. done.
Qed.

(** A module that cannot be written ends [save] with its exception: nothing
    is printed about it, and neither the pipelines nor the signals are
    written. *)
Lemma save_module_failure_propagates fs pre module_id post e verbose path :
  makedirs fs = None →
  (∀ m, m ∈ pre → transfer fs (AModule m) = None) →
  transfer fs (AModule module_id) = Some e →
  let run := save fs (pre ++ module_id :: post) verbose path in
  run.2 = Raised (IOError e) ∧
  ¬ completed APipelines run.1 ∧ ¬ completed ASignals run.1 ∧
  ∀ m, m ∈ post → ¬ completed (AModule m) run.1 ∨ m ∈ pre.
Proof.
  intros Hdir Hpre He. unfold save. rewrite Hdir.
  rewrite (save_modules_raises fs pre module_id post e Hpre He). simpl.
  assert (∀ a, completed a
                 (match path with
                  | Some _ => []
                  | None =>
                      [Printed
                         "WARNING: no path provided for save. Saving in './temp_save/'."]
                  end ++ save_config fs ++ map (λ m, Done (AModule m)) pre) →
               a = AConfig ∨ ∃ m, a = AModule m ∧ m ∈ pre) as Hlog.
  { intros a. unfold completed, save_config.
    rewrite !elem_of_app. intros [H|[H|H]].
    - destruct path.
      + inversion H.
      + apply list_elem_of_singleton in H. done.
    - destruct (transfer fs AConfig);
        apply list_elem_of_singleton in H; [done|].
      left. congruence.
    - apply list_elem_of_fmap in H as (m & [= ->] & Hm). eauto. }
  split; [done|]. split; [|split].
  - intros [|(m & ? & _)]%Hlog; done.
  - intros [|(m & ? & _)]%Hlog; done.
  - intros m _. destruct (decide (m ∈ pre)); [by right|]. left.
    intros [|(m' & [= ->] & ?)]%Hlog; done.
Qed.

(** C7 at a failing input.  With the modules ["speaker"] and ["listener"],
    when writing ["speaker"] raises and nothing else does, [save] writes the
    configuration and ends with the exception of the module: the other
    module, the pipelines and the signals are not written and nothing is
    printed, whereas [load] in the same directory returns and reads the
    three other artifacts. *)
Theorem save_stops_at_failing_module :
  save Examples.speaker_fails ["speaker"; "listener"] false (Some "ckpt")
    = ([Done AConfig], Raised (IOError "disk full")) ∧
  transfer Examples.speaker_fails APipelines = None ∧
  transfer Examples.speaker_fails ASignals = None ∧
  ¬ completed APipelines
      (save Examples.speaker_fails ["speaker"; "listener"] false
         (Some "ckpt")).1 ∧
  ¬ completed ASignals
      (save Examples.speaker_fails ["speaker"; "listener"] false
         (Some "ckpt")).1 ∧
  load Examples.speaker_fails ["speaker"] false "ckpt"
    = ([Done AConfig;
        Printed "Exception caught will trying to load module speaker: disk full";
        Done APipelines; Done ASignals], Ok ()).
Proof.
  split; [reflexivity|]. split; [reflexivity|]. split; [reflexivity|].
  destruct (save_module_failure_propagates Examples.speaker_fails []
              "speaker" ["listener"] "disk full" false (Some "ckpt"))
    as (_ & Hp & Hs & _); try done.
  intros m Hm. inversion Hm.
Qed.

End Persistence.

(** ** The curriculum on the number of distractors *)

Section Chains.

Context {A : Type} (R : A → A → Prop).



Lemma final_elem_of (a : A) l : final a l = a ∨ final a l ∈ l.
Proof.
  revert a. induction l as [|b l IH]; intros a; simpl; [by left|].
  right. destruct (IH b) as [->|?]; [left | by right].
Qed.






End Chains.

Section Curriculum.

Import Train.

Implicit Types (st : state) (ds : odict DualLabeledDataset) (m : string).

Lemma dict_get_keys {V} (k : string) (d : odict V) :
  is_Some (dict_get k d) ↔ k ∈ dict_keys d.
Proof.
  induction d as [|[k' v] d IH]; simpl.
  - split; [by intros [? ?] | intros H; inversion H].
  - destruct (String.eqb k k') eqn:E.
    + apply String.eqb_eq in E as ->. split; [left | eauto].
    + apply String.eqb_neq in E. rewrite IH, elem_of_cons.
      split; [auto | by intros [?|?]].
Qed.

Lemma dict_keys_set {V} (k : string) (v : V) (d : odict V) :
  k ∈ dict_keys d → dict_keys (dict_set k v d) = dict_keys d.
Proof.
  induction d as [|[k' v'] d IH]; simpl.
  - intros H. inversion H.
  - destruct (String.eqb k k') eqn:E; [done|].
    apply String.eqb_neq in E. intros [?|?]%elem_of_cons; [done|].
    simpl. by rewrite IH.
Qed.

Lemma count_in_set ds m d n x :
  dict_get m ds = Some d →
  count_in (dict_set m (setNbrDistractors d n m) ds) x
  = if decide (x = m) then Some n else count_in ds x.
Proof.
  intros Hd. unfold count_in. destruct (decide (x = m)) as [->|Hne].
  - rewrite dict_get_set_eq. simpl. apply lookup_insert_eq.
  - by rewrite dict_get_set_ne.
Qed.

Lemma count_in_keys ds m c : count_in ds m = Some c → m ∈ dict_keys ds.
Proof.
  unfold count_in. intros H. apply dict_get_keys.
  destruct (dict_get m ds); [eauto | done].
Qed.

(** The loop of lines 378 and 379 adds one to the count of each mode. *)
Lemma increment_all_spec todo : ∀ st,
  NoDup todo →
  (∀ m, m ∈ todo → is_Some (count_in (datasets st) m)) →
  ∃ st', increment_all todo st = Ok st' ∧
         dict_keys (datasets st') = dict_keys (datasets st) ∧
         windowed_accuracy st' = windowed_accuracy st ∧
         window_count st' = window_count st ∧
         ∀ x, count_in (datasets st') x
              = if decide (x ∈ todo)
                then (λ n, n + 1) <$> count_in (datasets st) x
                else count_in (datasets st) x.
Proof.
  induction todo as [|m rest IH]; intros st Hnd Hall.
  - exists st. repeat split; auto.
  - apply NoDup_cons in Hnd as [Hm Hnd].
    destruct (Hall m) as [n Hn]; [left|].
    assert (∃ d, dict_get m (datasets st) = Some d
                 ∧ nbr_distractors d !! m = Some n) as (d & Hd & Hdn).
    { unfold count_in in Hn. destruct (dict_get m (datasets st)); [eauto|done]. }
    simpl. rewrite Hd. simpl. unfold getNbrDistractors. rewrite Hdn. simpl.
    set (st1 := set_mode_var m
                  (set_datasets
                     (dict_set m (setNbrDistractors d (n + 1) m) (datasets st))
                     st)).
    assert (∀ x, count_in (datasets st1) x
                 = if decide (x = m) then Some (n + 1)
                   else count_in (datasets st) x) as Hst1.
    { intros x. apply count_in_set. done. }
    destruct (IH st1 Hnd) as (st' & Hrun & Hkeys & Hwa & Hwc & Hcount).
    { intros m' Hm'. rewrite Hst1. rewrite decide_False by (intros ->; done).
      apply Hall. by right. }
    exists st'. split; [done|]. split.
    { rewrite Hkeys. simpl. apply dict_keys_set, dict_get_keys. eauto. }
    split; [done|]. split; [done|].
    intros x. rewrite Hcount, Hst1.
    destruct (decide (x = m)) as [->|Hne].
    + rewrite decide_False by done. rewrite decide_True by left.
      by rewrite Hn.
    + destruct (decide (x ∈ rest)).
      * rewrite decide_True by (by right). done.
      * rewrite decide_False; [done|]. by intros [?|?]%elem_of_cons.
Qed.


Section Steps.

Variables (cfg : config) (pipelines : odict pipeline) (modes : list string).
Variable P : nat → Prop.
Hypothesis modes_NoDup : NoDup modes.
Hypothesis P_step :
  ∀ c m cap, P c → m ∈ modes → str_in "train" m = true →
             cfg_nbr_distractors cfg !! m = Some cap → c < cap → P (c + 1).

#[local] Abbreviation Rel := (curriculum_step cfg modes P).
#[local] Abbreviation Inv := (settled modes P).











End Steps.






End Curriculum.

(** * Further properties *)

(** ** More on the partition maps *)

Section PartitionMapsMore.

Implicit Types (classes : gmap Z (list nat)) (dataset : list item) (cl : Z).
Implicit Types (kw : kwargs) (U : gset nat).

(** The union of all the classes of a map holds the indices of its lists. *)
Lemma union_all_classes_elem classes U i :
  union_classes classes (class_keys classes) ∅ = Ok U →
  i ∈ U ↔ ∃ cl idxs, classes !! cl = Some idxs ∧ i ∈ idxs.
Proof.
  intros HU. rewrite (union_classes_elem _ _ _ _ HU i). split.
  - intros [H|(cl & idxs & _ & Hl & Hi)]; [by apply not_elem_of_empty in H|].
    eauto.
  - intros (cl & idxs & Hl & Hi). right. exists cl, idxs.
    rewrite class_keys_elem. eauto.
Qed.

Lemma train_classes_elem kw cl idxs i :
  train_classes (init kw) !! cl = Some idxs →
  i ∈ idxs ↔ ∃ it, kw_train_dataset kw !! i = Some it ∧ getclass it = cl.
Proof.
  rewrite train_classes_init. intros H.
  assert (idxs = class_members cl 0 (kw_train_dataset kw)) as ->
    by (destruct (class_members cl 0 _); congruence).
  rewrite class_members_elem. split.
  - intros (j & it & ? & ? & ->). eauto.
  - intros (it & ? & ?). exists i, it. auto.
Qed.

Lemma test_classes_elem kw cl idxs i :
  test_classes (init kw) !! cl = Some idxs →
  i ∈ idxs ↔
  (∃ it, kw_train_dataset kw !! i = Some it ∧ getclass it = cl) ∨
  (∃ j it, kw_test_dataset kw !! j = Some it ∧ getclass it = cl
           ∧ i = length (kw_train_dataset kw) + j).
Proof.
  rewrite test_classes_init. intros H.
  assert (idxs = class_members cl (length (kw_train_dataset kw))
                   (kw_test_dataset kw)
                 ++ class_members cl 0 (kw_train_dataset kw)) as ->.
  { destruct (class_members cl 0 (kw_train_dataset kw)),
      (class_members cl (length (kw_train_dataset kw)) (kw_test_dataset kw));
      congruence. }
  rewrite elem_of_app, !class_members_elem. split.
  - intros [(j & it & ? & ? & ->)|(j & it & ? & ? & ->)].
    + right. exists j, it. auto.
    + left. exists it. auto.
  - intros [(it & ? & ?)|(j & it & ? & ? & ->)].
    + right. exists i, it. auto.
    + left. exists j, it. auto.
Qed.

(** Every item has an entry in the map of its dataset. *)
Lemma train_classes_defined kw i it :
  kw_train_dataset kw !! i = Some it →
  ∃ idxs, train_classes (init kw) !! getclass it = Some idxs ∧ i ∈ idxs.
Proof.
  intros Hi. rewrite train_classes_init.
  assert (i ∈ class_members (getclass it) 0 (kw_train_dataset kw)) as Hin.
  { apply class_members_elem. exists i, it. auto. }
  destruct (class_members (getclass it) 0 _) as [|x l] eqn:E;
    [inversion Hin | eauto].
Qed.

Lemma test_classes_defined kw cl :
  (∃ it, (it ∈ kw_train_dataset kw ∨ it ∈ kw_test_dataset kw)
         ∧ getclass it = cl) →
  is_Some (test_classes (init kw) !! cl).
Proof.
  intros (it & Hin & Hcl). rewrite test_classes_init.
  destruct (class_members cl 0 (kw_train_dataset kw)) eqn:E1;
    destruct (class_members cl (length (kw_train_dataset kw))
                (kw_test_dataset kw)) eqn:E2; eauto.
  rewrite class_members_nil in E1, E2.
  destruct Hin as [Hin|Hin]; [by destruct (E1 it Hin) | by destruct (E2 it Hin)].
Qed.

Lemma partition_nonempty_aux kw cl idxs :
  test_classes (init kw) !! cl = Some idxs → ∃ i, i ∈ idxs.
Proof.
  rewrite test_classes_init.
  destruct (class_members cl 0 (kw_train_dataset kw)) as [|i l],
    (class_members cl (length (kw_train_dataset kw)) (kw_test_dataset kw))
    as [|i' l']; intros H; try done; injection H as <-; simpl;
    eexists; left.
Qed.

(** The working set of all the classes of a map made by [__init__]. *)
Lemma partition_maps_cover_aux kw U_train U_test :
  union_classes (train_classes (init kw))
    (class_keys (train_classes (init kw))) ∅ = Ok U_train →
  union_classes (test_classes (init kw))
    (class_keys (test_classes (init kw))) ∅ = Ok U_test →
  (∀ i, i ∈ U_train ↔ i < length (kw_train_dataset kw)) ∧
  (∀ i, i ∈ U_test ↔
        i < length (kw_train_dataset kw) + length (kw_test_dataset kw)).
Proof.
  intros Htrain Htest. split.
  - intros i. rewrite (union_all_classes_elem _ _ _ Htrain). split.
    + intros (cl & idxs & Hl & Hi).
      apply (train_classes_elem kw cl idxs i Hl) in Hi as (it & Hit & _).
      by apply lookup_lt_Some in Hit.
    + intros Hi. destruct (lookup_lt_is_Some_2 _ _ Hi) as [it Hit].
      destruct (train_classes_defined kw i it Hit) as (idxs & Hl & Hin).
      eauto.
  - intros i. rewrite (union_all_classes_elem _ _ _ Htest). split.
    + intros (cl & idxs & Hl & Hi).
      apply (test_classes_elem kw cl idxs i Hl) in Hi
        as [(it & Hit & _)|(j & it & Hit & _ & ->)];
        apply lookup_lt_Some in Hit; lia.
    + intros Hi.
      destruct (decide (i < length (kw_train_dataset kw))) as [Hlt|Hge].
      * destruct (lookup_lt_is_Some_2 _ _ Hlt) as [it Hit].
        destruct (test_classes_defined kw (getclass it)) as [idxs Hl].
        { exists it. split; [|done]. left. by eapply list_elem_of_lookup_2. }
        exists (getclass it), idxs. split; [done|].
        apply (test_classes_elem kw _ idxs i Hl). left. eauto.
      * destruct (lookup_lt_is_Some_2 (kw_test_dataset kw)
                    (i - length (kw_train_dataset kw))) as [it Hit]; [lia|].
        destruct (test_classes_defined kw (getclass it)) as [idxs Hl].
        { exists it. split; [|done]. right. by eapply list_elem_of_lookup_2. }
        exists (getclass it), idxs. split; [done|].
        apply (test_classes_elem kw _ idxs i Hl). right.
        exists (i - length (kw_train_dataset kw)), it.
        split; [done|]. split; [done|]. lia.
Qed.

Lemma size_below (U : gset nat) n : (∀ i, i ∈ U ↔ i < n) → size U = n.
Proof.
  intros HU.
  assert (U = list_to_set (seq 0 n)) as ->.
  { apply set_eq. intros i. rewrite HU, elem_of_list_to_set, elem_of_seq. lia. }
  rewrite size_list_to_set by apply NoDup_seq. apply length_seq.
Qed.

(** X1.  The classes of the train map together hold the positions of the
    train dataset and nothing else; those of the test map hold, besides,
    the positions of the test dataset shifted by the length of the train
    dataset.  The working set of an unrestricted call has as many elements
    as the train dataset has items, in a mode that works on the train map,
    and as both datasets have, in a mode that works on the test map. *)
Theorem partition_maps_cover_the_datasets kw U_train U_test :
  union_classes (train_classes (init kw))
    (class_keys (train_classes (init kw))) ∅ = Ok U_train →
  union_classes (test_classes (init kw))
    (class_keys (test_classes (init kw))) ∅ = Ok U_test →
  (∀ i, i ∈ U_train ↔ i < length (kw_train_dataset kw)) ∧
  (∀ i, i ∈ U_test ↔
        i < length (kw_train_dataset kw) + length (kw_test_dataset kw)) ∧
  size U_train = length (kw_train_dataset kw) ∧
  size U_test = length (kw_train_dataset kw) + length (kw_test_dataset kw).
Proof.
  intros Htrain Htest.
  destruct (partition_maps_cover_aux kw U_train U_test Htrain Htest)
    as [H1 H2].
  split; [done|]. split; [done|]. split; by apply size_below.
Qed.

Lemma class_members_ge cl start dataset i :
  i ∈ class_members cl start dataset → start ≤ i.
Proof. rewrite class_members_elem. intros (j & it & _ & _ & ->). lia. Qed.

Lemma class_members_NoDup cl start dataset :
  NoDup (class_members cl start dataset).
Proof.
  revert start. induction dataset as [|it rest IH]; intros start; simpl.
  - apply NoDup_nil_2.
  - destruct (decide (getclass it = cl)); [|apply IH].
    apply NoDup_cons. split; [|apply IH].
    intros H%class_members_ge. lia.
Qed.

(** X2.  Each partition map is a partition: a class that it lists has at
    least one index and no index twice, and an index is listed under one
    class only. *)
Theorem partition_maps_are_partitions kw classes cl idxs :
  classes = train_classes (init kw) ∨ classes = test_classes (init kw) →
  classes !! cl = Some idxs →
  idxs ≠ [] ∧ NoDup idxs ∧
  ∀ cl' idxs' i,
    classes !! cl' = Some idxs' → i ∈ idxs → i ∈ idxs' → cl' = cl.
Proof.
  intros Hmap Hcl. split; [|split].
  - destruct Hmap as [-> | ->].
    + rewrite train_classes_init in Hcl.
      destruct (class_members cl 0 (kw_train_dataset kw)); congruence.
    + rewrite test_classes_init in Hcl.
      destruct (class_members cl 0 (kw_train_dataset kw)),
        (class_members cl (length (kw_train_dataset kw)) (kw_test_dataset kw));
        try congruence; injection Hcl as <-; done.
  - destruct Hmap as [-> | ->].
    + rewrite train_classes_init in Hcl.
      pose proof (class_members_NoDup cl 0 (kw_train_dataset kw)) as Hnd.
      destruct (class_members cl 0 (kw_train_dataset kw)); congruence.
    + rewrite test_classes_init in Hcl.
      assert (idxs = class_members cl (length (kw_train_dataset kw))
                       (kw_test_dataset kw)
                     ++ class_members cl 0 (kw_train_dataset kw)) as ->.
      { destruct (class_members cl 0 (kw_train_dataset kw)),
          (class_members cl (length (kw_train_dataset kw))
             (kw_test_dataset kw)); congruence. }
      apply NoDup_app. split; [apply class_members_NoDup|].
      split; [|apply class_members_NoDup].
      intros i Hte%class_members_ge.
      rewrite class_members_elem. intros (j & it & Hj & _ & ->).
      apply lookup_lt_Some in Hj. lia.
  - intros cl' idxs' i Hcl' Hi Hi'.
    assert (∃ it, item_at (set_mode (init kw) "train") i = Some it
                  ∧ getclass it = cl) as (it & Hit & <-).
    { apply (item_at_partition_maps kw "train" cl idxs i); [|done].
      destruct Hmap as [-> | ->]; auto. }
    assert (∃ it', item_at (set_mode (init kw) "train") i = Some it'
                   ∧ getclass it' = cl') as (it' & Hit' & <-).
    { apply (item_at_partition_maps kw "train" cl' idxs' i); [|done].
      destruct Hmap as [-> | ->]; auto. }
    congruence.
Qed.

(** X3.  The offset that [__init__] adds to the positions of the test
    dataset is the one that [sample] takes off again: in every mode, an
    index listed under a class denotes an item of that class, the item at
    that position of the train dataset when the index is below the length
    of the train dataset, and otherwise the item of the test dataset at the
    index less that length. *)
Theorem listed_index_denotes_item_of_class kw m cl idxs i :
  train_classes (init kw) !! cl = Some idxs
  ∨ test_classes (init kw) !! cl = Some idxs →
  i ∈ idxs →
  ∃ it, item_at (set_mode (init kw) m) i = Some it
        ∧ getclass it = cl
        ∧ (i < length (kw_train_dataset kw) →
           kw_train_dataset kw !! i = Some it)
        ∧ (length (kw_train_dataset kw) ≤ i →
           kw_test_dataset kw !! (i - length (kw_train_dataset kw)) = Some it).
Proof.
  intros Hcl Hi.
  destruct (item_at_partition_maps kw m cl idxs i Hcl Hi) as (it & Hit & Hc).
  exists it. split; [exact Hit|]. split; [done|].
  unfold item_at, dereference in Hit. simpl in Hit.
  destruct (decide (length (kw_train_dataset kw) ≤ i)); simpl in Hit.
  - split; [lia | done].
  - split; [done | lia].
Qed.

Lemma dom_train_classes kw :
  dom (train_classes (init kw))
  = list_to_set (C := gset Z) (getclass <$> kw_train_dataset kw).
Proof.
  apply set_eq. intros cl.
  rewrite elem_of_dom, train_classes_init, elem_of_list_to_set,
    list_elem_of_fmap.
  destruct (class_members cl 0 (kw_train_dataset kw)) as [|i l] eqn:E.
  - rewrite class_members_nil in E. split; [by intros [? ?]|].
    intros (it & -> & Hin). by destruct (E it Hin).
  - split; [|eauto]. intros _.
    assert (i ∈ class_members cl 0 (kw_train_dataset kw)) as Hi
      by (rewrite E; left).
    apply class_members_elem in Hi as (j & it & Hj & <- & _).
    exists it. split; [done|]. by eapply list_elem_of_lookup_2.
Qed.

Lemma dom_test_classes kw :
  dom (test_classes (init kw))
  = list_to_set (C := gset Z)
      (getclass <$> (kw_train_dataset kw ++ kw_test_dataset kw)).
Proof.
  apply set_eq. intros cl.
  rewrite elem_of_dom, elem_of_list_to_set, list_elem_of_fmap. split.
  - intros [idxs Hl].
    destruct (partition_nonempty_aux kw cl idxs Hl) as (i & Hi).
    apply (test_classes_elem kw cl idxs i Hl) in Hi
      as [(it & Hit & <-)|(j & it & Hit & <- & _)]; exists it;
      (split; [done|]); apply elem_of_app; [left|right];
      by eapply list_elem_of_lookup_2.
  - intros (it & -> & Hin). apply test_classes_defined.
    exists it. split; [|done]. by apply elem_of_app in Hin.
Qed.

(** X4.  [getNbrClasses] counts distinct classes: those of both datasets
    in the mode ['test'], those of the train dataset in every other mode,
    the modes in which [sample] works on the test map included. *)
Theorem getNbrClasses_counts_distinct_classes kw m :
  getNbrClasses (set_mode (init kw) m) =
  if String.eqb m "test"
  then size (list_to_set (C := gset Z)
               (getclass <$> (kw_train_dataset kw ++ kw_test_dataset kw)))
  else size (list_to_set (C := gset Z) (getclass <$> kw_train_dataset kw)).
Proof.
  unfold getNbrClasses.
  change (mode (set_mode (init kw) m)) with m.
  change (nbr_classes (set_mode (init kw) m))
    with (size (test_classes (init kw))).
  change (train_classes (set_mode (init kw) m)) with (train_classes (init kw)).
  rewrite <- dom_train_classes, <- dom_test_classes, !size_dom.
  done.
Qed.

(** X5.  The positions that can serve as target: with all the classes as
    candidates, the target of [sample] is in the working set exactly when
    [idx] is a position of the train dataset, in a mode without ['test'] in
    its name, and of the test dataset, in a mode with it.  These are the
    positions below [len(self)] in the mode ['test'] and in the modes
    without ['test'] in their name. *)
Theorem targets_are_the_positions_of_the_mode kw m U idx :
  let self := set_mode (init kw) m in
  union_classes (active_classes self) (class_keys (active_classes self)) ∅
    = Ok U →
  (target_index self idx ∈ U ↔
   idx < if str_in "test" m then length (kw_test_dataset kw)
         else length (kw_train_dataset kw)) ∧
  (m = "test" ∨ str_in "test" m = false →
   target_index self idx ∈ U ↔ idx < len self).
Proof.
  intros self HU.
  assert (target_index self idx ∈ U ↔
          idx < if str_in "test" m then length (kw_test_dataset kw)
                else length (kw_train_dataset kw)) as Hiff.
  { destruct (union_classes_keys (train_classes (init kw))) as [Utr Htr].
    destruct (union_classes_keys (test_classes (init kw))) as [Ute Hte].
    destruct (partition_maps_cover_aux kw Utr Ute Htr Hte) as [H1 H2].
    revert HU. unfold target_index, active_classes, self.
    change (mode (set_mode (init kw) m)) with m.
    change (test_classes (set_mode (init kw) m)) with (test_classes (init kw)).
    change (train_classes (set_mode (init kw) m))
      with (train_classes (init kw)).
    change (train_dataset (set_mode (init kw) m)) with (kw_train_dataset kw).
    destruct (str_in "test" m); intros HU.
    - assert (U = Ute) as -> by congruence. rewrite H2. lia.
    - assert (U = Utr) as -> by congruence. by rewrite H1. }
  split; [done|]. intros Hm. rewrite Hiff. unfold len, self.
  change (mode (set_mode (init kw) m)) with m.
  destruct Hm as [-> | Hm]; [done|]. rewrite Hm.
  destruct (String.eqb m "test") eqn:E; [|done].
  apply String.eqb_eq in E. subst m. done.
Qed.

End PartitionMapsMore.

(** ** More on the choice of the indices *)

Section SelectionMore.

Implicit Types (self : DualLabeledDataset) (classes : gmap Z (list nat)).
Implicit Types (U W X : gset nat) (excepts : option (list nat)).
Implicit Types (dbg : debugger_cmd) (rnd : nat → nat).

Lemma remove_excepts_mono U1 U excepts :
  U1 ⊆ U → remove_excepts U1 excepts ⊆ remove_excepts U excepts.
Proof.
  intros Hsub i. rewrite !not_excluded_remove_excepts.
  intros [? ?]. split; [by apply Hsub | done].
Qed.

(** Whenever the loop ends, by whatever path, it has the target alone in
    [indices], and a working set without the target that is large enough
    and holds indices of the active map that are not excluded. *)
Lemma sample_loop_returned self classes idx excepts dbg U :
  union_classes classes (class_keys classes) ∅ = Ok U →
  ∀ fuel (from_class : option (list Z)) (b : bool) log W indices n,
    sample_loop fuel self classes idx from_class excepts b dbg
      = (log, Ok (W, indices, n)) →
    indices = [idx] ∧ nbr_distractors self !! mode self = Some n ∧
    n ≤ size W ∧ (idx ∉ W) ∧ W ⊆ remove_excepts U excepts.
Proof.
  intros HU. induction fuel as [|fuel IH];
    intros from_class b log W indices n; [done|].
  simpl.
  match goal with
  | |- context [union_classes classes ?c ∅] =>
      destruct (union_classes classes c ∅) as [U1| |] eqn:HU1; [|done..]
  end.
  pose proof (union_classes_subseteq _ _ _ _ HU1 HU) as Hsub.
  apply (remove_excepts_mono _ _ excepts) in Hsub.
  destruct (nbr_distractors self !! mode self) as [n'|] eqn:Hn; [|done].
  unfold remove_target.
  destruct (decide (idx ∈ remove_excepts U1 excepts)) as [Hin|Hin].
  - destruct (decide (size (remove_excepts U1 excepts ∖ {[idx]}) < n')).
    + destruct (sample_loop fuel self classes idx _ excepts true dbg)
        as [log' r] eqn:E.
      intros [= <- ->]. by apply (IH _ _ _ _ _ _ E).
    + intros [= <- <- <- <-]. split; [done|]. split; [done|].
      split; [lia|]. split.
      * rewrite elem_of_difference, elem_of_singleton. intros [_ ?]. done.
      * intros i [Hi _]%elem_of_difference. by apply Hsub.
  - destruct dbg; [|done].
    destruct (decide (size (remove_excepts U1 excepts) < n')).
    + destruct (sample_loop fuel self classes idx _ excepts true DbgContinue)
        as [log' r] eqn:E.
      intros [= <- ->]. by apply (IH _ _ _ _ _ _ E).
    + intros [= <- <- <- <-]. split; [done|]. split; [done|].
      split; [lia|]. split; [done|]. done.
Qed.

(** The indices of a call that returns some. *)
Lemma sample_indices_returned self idx from_class excepts rnd dbg fuel log
    indices U :
  union_classes (active_classes self) (class_keys (active_classes self)) ∅
    = Ok U →
  sample_indices self idx from_class excepts rnd dbg fuel = (log, Ok indices) →
  ∃ n, nbr_distractors self !! mode self = Some n ∧
       length indices = 1 + n ∧
       head indices = Some (target_index self idx) ∧
       NoDup indices ∧
       ∀ i, i ∈ tail indices → i ∈ U ∧ ¬ excluded excepts i.
Proof.
  intros HU. unfold sample_indices.
  destruct (sample_loop fuel self (active_classes self)
              (target_index self idx) from_class excepts false dbg)
    as [log' r] eqn:E.
  destruct r as [[[W l] n]| |]; simpl; [|done..].
  destruct (sample_loop_returned self _ _ excepts dbg U HU _ _ _ _ _ _ _ E)
    as (-> & Hn & Hsize & Hidx & Hsub).
  destruct (draw_spec rnd n 0 W [target_index self idx] Hsize)
    as (chosen & -> & Hlen & Hnd & Hin).
  intros [= <- <-]. exists n. split; [done|]. simpl.
  split; [by rewrite Hlen|]. split; [done|]. split.
  - apply NoDup_cons. split; [|done]. intros Ht. by apply Hidx, Hin.
  - intros i Hi. by apply not_excluded_remove_excepts, Hsub, Hin.
Qed.

(** X6.  Whenever [sample] gets as far as a list of indices, whatever the
    candidate classes, the exclusion list, the number of turns of its loop
    and the answers given in the debugger, the list has one index more than
    the distractor count of the mode and starts with the target; no index
    occurs twice, so that no distractor is the target; and every distractor
    is an index of the active map that is not excluded. *)
Theorem sample_never_repeats_an_index self idx from_class excepts rnd dbg fuel
    log indices U :
  union_classes (active_classes self) (class_keys (active_classes self)) ∅
    = Ok U →
  sample_indices self idx from_class excepts rnd dbg fuel = (log, Ok indices) →
  ∃ n, nbr_distractors self !! mode self = Some n ∧
       length indices = 1 + n ∧
       head indices = Some (target_index self idx) ∧
       NoDup indices ∧
       ∀ i, i ∈ tail indices →
            i ≠ target_index self idx ∧ i ∈ U ∧ ¬ excluded excepts i.
Proof.
  intros HU Hrun.
  destruct (sample_indices_returned self idx from_class excepts rnd dbg fuel
              log indices U HU Hrun) as (n & Hn & Hlen & Hhd & Hnd & Htl).
  exists n. do 4 (split; [done|]). intros i Hi.
  split; [|by apply Htl].
  destruct indices as [|t rest]; [done|]. injection Hhd as ->.
  apply NoDup_cons in Hnd as [Ht _]. simpl in Hi. by intros ->.
Qed.

(** X7.  On a dataset built by [__init__], an index that [sample] returns
    as a distractor denotes an item of the datasets, so that reading it
    raises no [IndexError]; in a mode without ['test'] in its name, it is an
    item of the train dataset. *)
Theorem distractors_denote_items kw m idx from_class excepts rnd dbg fuel log
    indices :
  let self := set_mode (init kw) m in
  sample_indices self idx from_class excepts rnd dbg fuel = (log, Ok indices) →
  ∀ i, i ∈ tail indices →
       ∃ it, item_at self i = Some it ∧
             (str_in "test" m = false → kw_train_dataset kw !! i = Some it).
Proof.
  intros self Hrun i Hi.
  destruct (union_classes_keys (active_classes self)) as [U HU].
  destruct (sample_indices_returned self idx from_class excepts rnd dbg fuel
              log indices U HU Hrun) as (n & _ & _ & _ & _ & Htl).
  destruct (Htl i Hi) as [HiU _].
  apply (union_all_classes_elem _ _ _ HU) in HiU as (cl & idxs & Hcl & Hin).
  assert (train_classes (init kw) !! cl = Some idxs
          ∨ test_classes (init kw) !! cl = Some idxs) as Hmaps.
  { revert Hcl. unfold active_classes, self.
    change (mode (set_mode (init kw) m)) with m.
    destruct (str_in "test" m); auto. }
  destruct (item_at_partition_maps kw m cl idxs i Hmaps Hin) as (it & Hit & _).
  exists it. split; [done|]. intros Hm.
  revert Hcl. unfold active_classes, self.
  change (mode (set_mode (init kw) m)) with m. rewrite Hm.
  change (train_classes (set_mode (init kw) m)) with (train_classes (init kw)).
  intros Hcl. apply (train_classes_elem kw cl idxs i Hcl) in Hin
    as (it' & Hit' & _).
  revert Hit. unfold item_at, dereference. simpl.
  apply lookup_lt_Some in Hit' as Hlt.
  rewrite decide_False by lia. simpl. congruence.
Qed.

Lemma union_classes_unknown classes pre cl post X :
  (∀ c, c ∈ pre → is_Some (classes !! c)) →
  classes !! cl = None →
  union_classes classes (pre ++ cl :: post) X = Raised (KeyErrorInt cl).
Proof.
  revert X. induction pre as [|c pre IH]; intros X Hpre Hcl; simpl.
  - by rewrite Hcl.
  - destruct (Hpre c) as [idxs ->]; [left|]. apply IH; [|done].
    intros c' Hc'. apply Hpre. by right.
Qed.

(** X8.  A class in [from_class] that the active map does not have ends
    the call with the [KeyError] of that class, the first such class of the
    list; nothing is printed, and the debugger is not entered. *)
Theorem unknown_class_raises_key_error self idx pre cl post excepts target_only
    rnd dbg fuel :
  (∀ c, c ∈ pre → is_Some (active_classes self !! c)) →
  active_classes self !! cl = None →
  sample self idx (Some (pre ++ cl :: post)) excepts target_only rnd dbg
    (S fuel)
  = ([], Raised (KeyErrorInt cl)).
Proof.
  intros Hpre Hcl. unfold sample, sample_indices. simpl.
  by rewrite (union_classes_unknown _ pre cl post ∅ Hpre Hcl).
Qed.

(** With all the classes as candidates, a working set that is too small
    stays so: every turn prints the two warnings and asks for one more. *)
Lemma sample_loop_all_classes_diverges self classes idx excepts dbg U n :
  union_classes classes (class_keys classes) ∅ = Ok U →
  nbr_distractors self !! mode self = Some n →
  idx ∈ remove_excepts U excepts →
  size (remove_excepts U excepts ∖ {[idx]}) < n →
  ∀ fuel (from_class : option (list Z)) (b : bool),
    from_class = None ∨ b = true →
    sample_loop fuel self classes idx from_class excepts b dbg
    = (concat (replicate fuel [Print msg_not_enough; Print msg_all_classes]),
       OutOfFuel).
Proof.
  intros HU Hn Hidx Hsize. induction fuel as [|fuel IH];
    intros from_class b Hall; [done|].
  rewrite (sample_loop_not_enough fuel self classes idx from_class excepts b
             dbg U n); [|by destruct Hall as [-> | ->]; [|destruct from_class]
                        |done..].
  cbv zeta. by rewrite IH by (by right).
Qed.

(** The same from any candidate classes that hold the target: the first
    turn finds too few indices as well, and hands over to all the
    classes. *)
Lemma sample_loop_too_few self idx from_class excepts dbg U1 U n :
  union_classes (active_classes self) (candidate_classes self from_class) ∅
    = Ok U1 →
  union_classes (active_classes self) (class_keys (active_classes self)) ∅
    = Ok U →
  nbr_distractors self !! mode self = Some n →
  target_index self idx ∈ remove_excepts U1 excepts →
  size (remove_excepts U excepts ∖ {[target_index self idx]}) < n →
  ∀ fuel,
    sample_loop fuel self (active_classes self) (target_index self idx)
      from_class excepts false dbg
    = (concat (replicate fuel [Print msg_not_enough; Print msg_all_classes]),
       OutOfFuel).
Proof.
  intros HU1 HU Hn Hidx1 Hsize fuel.
  pose proof (remove_excepts_mono _ _ excepts
                (union_classes_subseteq _ _ _ _ HU1 HU)) as Hsub.
  destruct fuel as [|fuel]; [done|].
  rewrite (sample_loop_not_enough fuel self _ _ from_class excepts false
             dbg U1 n).
  - cbv zeta.
    by rewrite (sample_loop_all_classes_diverges self _ _ excepts dbg U n)
      by auto.
  - unfold candidate_classes in HU1. by destruct from_class.
  - done.
  - done.
  - eapply Nat.le_lt_trans; [|exact Hsize]. apply subseteq_size.
    intros i. rewrite !elem_of_difference. intros [? ?]. split; auto.
Qed.

(** X9.  When the target is in the working set of the candidate classes
    and all the classes of the active map together leave, the target
    removed, fewer indices than the distractor count, the loop does not end:
    whatever the number of turns allowed, the call has returned nothing
    after them and has printed its two warnings once per turn. *)
Theorem sample_loops_forever_when_too_few self idx from_class excepts
    target_only rnd dbg U1 U n :
  union_classes (active_classes self) (candidate_classes self from_class) ∅
    = Ok U1 →
  union_classes (active_classes self) (class_keys (active_classes self)) ∅
    = Ok U →
  nbr_distractors self !! mode self = Some n →
  target_index self idx ∈ remove_excepts U1 excepts →
  size (remove_excepts U excepts ∖ {[target_index self idx]}) < n →
  ∀ fuel,
    sample self idx from_class excepts target_only rnd dbg fuel
    = (concat (replicate fuel [Print msg_not_enough; Print msg_all_classes]),
       OutOfFuel).
Proof.
  intros HU1 HU Hn Hidx1 Hsize fuel. unfold sample, sample_indices.
  by rewrite (sample_loop_too_few self idx from_class excepts dbg U1 U n).
Qed.

(** X10.  A call without restriction on a dataset built by [__init__]
    needs more items than distractors.  Let [total] be the number of items
    that the mode can draw from: those of the train dataset, and those of
    both datasets in a mode with ['test'] in its name.  For a target among
    the positions of the mode, the call gets its [1 + n] indices in the
    first turn of the loop when [n < total], and its loop does not end when
    [total ≤ n]. *)
Theorem sample_needs_more_items_than_distractors kw m idx n target_only rnd
    dbg :
  let self := set_mode (init kw) m in
  let total :=
    if str_in "test" m
    then length (kw_train_dataset kw) + length (kw_test_dataset kw)
    else length (kw_train_dataset kw) in
  kw_nbr_distractors kw !! m = Some n →
  idx < (if str_in "test" m then length (kw_test_dataset kw)
         else length (kw_train_dataset kw)) →
  (n < total →
   ∀ fuel, ∃ indices,
     sample_indices self idx None None rnd dbg (S fuel) = ([], Ok indices)
     ∧ length indices = 1 + n) ∧
  (total ≤ n →
   ∀ fuel,
     sample self idx None None target_only rnd dbg fuel
     = (concat (replicate fuel [Print msg_not_enough; Print msg_all_classes]),
        OutOfFuel)).
Proof.
  intros self total Hn Hidx.
  destruct (union_classes_keys (active_classes self)) as [U HU].
  assert (∀ i, i ∈ U ↔ i < total) as HUelem.
  { destruct (union_classes_keys (train_classes (init kw))) as [Utr Htr].
    destruct (union_classes_keys (test_classes (init kw))) as [Ute Hte].
    destruct (partition_maps_cover_aux kw Utr Ute Htr Hte) as [H1 H2].
    revert HU. unfold active_classes, self, total.
    change (mode (set_mode (init kw) m)) with m.
    change (test_classes (set_mode (init kw) m)) with (test_classes (init kw)).
    change (train_classes (set_mode (init kw) m))
      with (train_classes (init kw)).
    destruct (str_in "test" m); intros HU.
    - by assert (U = Ute) as -> by congruence.
    - by assert (U = Utr) as -> by congruence. }
  assert (target_index self idx ∈ U) as Ht.
  { apply HUelem. unfold target_index, self, total.
    change (mode (set_mode (init kw) m)) with m.
    change (train_dataset (set_mode (init kw) m)) with (kw_train_dataset kw).
    destruct (str_in "test" m); lia. }
  assert (size (U ∖ {[target_index self idx]}) = total - 1) as Hsize.
  { rewrite size_difference by (by apply singleton_subseteq_l).
    rewrite size_singleton. by rewrite (size_below U total). }
  assert (nbr_distractors self !! mode self = Some n) as Hn' by done.
  split.
  - intros Hlt fuel.
    destruct (sample_indices_first_turn self idx None None rnd dbg fuel U n)
      as (indices & Hrun & Hlen & _); [done|done|done| |by eauto].
    change (remove_excepts U None) with U. rewrite Hsize. lia.
  - intros Hle fuel.
    unfold sample, sample_indices.
    rewrite (sample_loop_too_few self idx None None dbg U U n); auto.
    change (remove_excepts U None) with U. rewrite Hsize.
    assert (0 < total) by (apply HUelem in Ht; lia). lia.
Qed.

(** X11.  When the working set, the target removed, has exactly as many
    elements as there are distractors to draw, the call returns all of
    them: the distractors are the elements of that set, whatever the random
    source. *)
Theorem sample_takes_every_index_when_just_enough self idx from_class excepts
    rnd dbg fuel U n :
  union_classes (active_classes self) (candidate_classes self from_class) ∅
    = Ok U →
  nbr_distractors self !! mode self = Some n →
  target_index self idx ∈ remove_excepts U excepts →
  n = size (remove_excepts U excepts ∖ {[target_index self idx]}) →
  ∃ indices,
    sample_indices self idx from_class excepts rnd dbg (S fuel)
      = ([], Ok indices) ∧
    head indices = Some (target_index self idx) ∧
    ∀ i, i ∈ tail indices ↔
         i ∈ remove_excepts U excepts ∖ {[target_index self idx]}.
Proof.
  intros HU Hn Hidx Hsize.
  destruct (sample_indices_first_turn self idx from_class excepts rnd dbg fuel
              U n HU Hn Hidx)
    as (indices & Hrun & Hlen & Hhd & Hnd & _ & Htl & _); [lia|].
  exists indices. split; [done|]. split; [done|].
  destruct indices as [|t rest]; [done|]. injection Hhd as ->.
  apply NoDup_cons in Hnd as [Ht Hnd]. simpl in Hlen, Htl. simpl.
  assert (list_to_set rest
          = remove_excepts U excepts ∖ {[target_index self idx]}) as Heq.
  { apply set_subseteq_size_eq.
    - intros i Hi%elem_of_list_to_set. apply elem_of_difference.
      split; [by apply Htl|]. rewrite elem_of_singleton. by intros ->.
    - rewrite size_list_to_set by done. lia. }
  intros i. by rewrite <- Heq, elem_of_list_to_set.
Qed.

End SelectionMore.

(** ** More on the payload *)

Section PayloadMore.

Implicit Types (self : DualLabeledDataset) (st : store) (it : item).

(** What the turn of the loop for an item reads after the merge: the
    store, and the three flags of [need_reg] that lines 149 to 159 test. *)
Lemma merge_item_flags st it :
  store_ok st →
  ∃ st1 need_reg,
    merge_item (getitem it) st (map (λ kv, (kv.1, true)) (sample_d st))
      = (st1, need_reg) ∧
    store_ok st1 ∧
    (∀ k, dict_mem k (sample_d st) = true →
          dict_get k (sample_d st1) = dict_get k (sample_d st)) ∧
    dict_get "exp_labels" need_reg
      = Some (negb (dict_mem "exp_labels" (getitem it))) ∧
    dict_get "exp_latents" need_reg
      = Some (negb (dict_mem "exp_latents" (getitem it))) ∧
    dict_get "exp_latents_values" need_reg
      = Some (negb (dict_mem "exp_latents_values" (getitem it))).
Proof.
  intros Hok.
  destruct (merge_item_spec (getitem it) st
              (map (λ kv, (kv.1, true)) (sample_d st)) Hok) as [Hok1 Hkeys].
  destruct (merge_item (getitem it) st _) as [st1 need_reg]. simpl in *.
  exists st1, need_reg. split; [done|]. split; [done|].
  destruct Hok as (_ & H1 & H2 & H3).
  split; [intros k Hk; by apply Hkeys|].
  destruct (Hkeys _ H1) as [_ Hnr1]. destruct (Hkeys _ H2) as [_ Hnr2].
  destruct (Hkeys _ H3) as [_ Hnr3].
  rewrite (Hnr1 true) by by apply dict_get_need_reg.
  rewrite (Hnr2 true) by by apply dict_get_need_reg.
  rewrite (Hnr3 true) by by apply dict_get_need_reg.
  done.
Qed.

Lemma collate_item_unfold self idx st it :
  item_at self idx = Some it →
  collate_item self idx st =
  let '(st1, need_reg) :=
    merge_item (getitem it) st (map (λ kv, (kv.1, true)) (sample_d st)) in
  no_labels ← of_option (dict_get "exp_labels" need_reg) (KeyError "exp_labels");
  if no_labels : bool then Raised AssertionError else
  no_latents ← of_option (dict_get "exp_latents" need_reg)
                 (KeyError "exp_latents");
  st2 ← (if no_latents : bool then derive_latent self (getitem it) st1
         else Ok st1);
  no_values ← of_option (dict_get "exp_latents_values" need_reg)
                (KeyError "exp_latents_values");
  if no_values : bool then alias_latents_values st2 else Ok st2.
Proof.
  intros Hit. unfold collate_item. unfold item_at in Hit.
  destruct (dereference self idx) as [dataset i]. simpl in Hit.
  by rewrite Hit.
Qed.

Lemma collate_first_raises self idx rest target_only e :
  collate_item self idx initial_store = Raised e →
  collate self (idx :: rest) target_only = Raised e.
Proof. intros H. unfold collate. simpl. by rewrite H. Qed.

(** X12.  An item without the key ["exp_labels"] fails the assertion of
    line 149, at whatever turn of the loop it is read; as target it ends
    the call with [AssertionError]. *)
Theorem item_without_label_fails_assertion self idx it :
  item_at self idx = Some it →
  dict_get "exp_labels" (getitem it) = None →
  (∀ st, store_ok st → collate_item self idx st = Raised AssertionError) ∧
  ∀ rest target_only,
    collate self (idx :: rest) target_only = Raised AssertionError.
Proof.
  intros Hit Hlab.
  assert (∀ st, store_ok st → collate_item self idx st = Raised AssertionError)
    as Hturn.
  { intros st Hok. rewrite (collate_item_unfold self idx st it Hit).
    destruct (merge_item_flags st it Hok)
      as (st1 & need_reg & -> & _ & _ & -> & _).
    unfold dict_mem. by rewrite Hlab. }
  split; [done|]. intros rest target_only.
  apply collate_first_raises, Hturn, store_ok_initial.
Qed.

(** X13.  An item that has a label which is not an integer, a tensor for
    one, and no latent of its own fails the assertion of line 152. *)
Theorem label_that_is_no_integer_fails_assertion self idx it v :
  item_at self idx = Some it →
  dict_get "exp_labels" (getitem it) = Some v →
  (∀ z, v ≠ VInt z) →
  dict_get "exp_latents" (getitem it) = None →
  (∀ st, store_ok st → collate_item self idx st = Raised AssertionError) ∧
  ∀ rest target_only,
    collate self (idx :: rest) target_only = Raised AssertionError.
Proof.
  intros Hit Hlab Hv Hlat.
  assert (∀ st, store_ok st → collate_item self idx st = Raised AssertionError)
    as Hturn.
  { intros st Hok. rewrite (collate_item_unfold self idx st it Hit).
    destruct (merge_item_flags st it Hok)
      as (st1 & need_reg & -> & _ & _ & -> & -> & _).
    unfold dict_mem. rewrite Hlab, Hlat. simpl.
    unfold derive_latent. rewrite Hlab.
    destruct v as [t|z|descr]; [done| |done]. by destruct (Hv z). }
  split; [done|]. intros rest target_only.
  apply collate_first_raises, Hturn, store_ok_initial.
Qed.

Lemma collate_item_no_item self idx st :
  item_at self idx = None → collate_item self idx st = Raised IndexError.
Proof.
  intros Hit. unfold collate_item. unfold item_at in Hit.
  destruct (dereference self idx) as [dataset i]. simpl in Hit.
  by rewrite Hit.
Qed.

Lemma alias_latents_values_spec st st' :
  store_ok st → alias_latents_values st = Ok st' →
  store_ok st' ∧ heap st' = heap st ∧
  dict_get "exp_latents_values" (sample_d st')
    = dict_get "exp_latents" (sample_d st') ∧
  ∀ k, k ≠ "exp_latents_values" →
       dict_get k (sample_d st') = dict_get k (sample_d st).
Proof.
  intros (Href & H1 & H2 & H3). unfold alias_latents_values.
  destruct (dict_get "exp_latents" (sample_d st)) as [r|] eqn:Er; [|done].
  simpl. intros [= <-]. cbn [sample_d heap].
  assert (∀ k, k ≠ "exp_latents_values" →
               dict_get k (dict_set "exp_latents_values" r (sample_d st))
               = dict_get k (sample_d st)) as Hne.
  { intros k Hk. by apply dict_get_set_ne. }
  split; [|split; [done|split; [|done]]].
  - unfold store_ok. cbn [sample_d heap]. split; [|auto using dict_mem_set].
    intros k r'. destruct (decide ("exp_latents_values" = k)) as [<-|Hk].
    + rewrite dict_get_set_eq. intros [= <-]. eauto.
    + rewrite dict_get_set_ne by done. apply Href.
  - rewrite dict_get_set_eq, Hne by done. done.
Qed.

Lemma derive_latent_spec self sampled_d st st' :
  store_ok st → derive_latent self sampled_d st = Ok st' →
  store_ok st' ∧ sample_d st' = sample_d st.
Proof.
  intros Hok. unfold derive_latent.
  destruct (dict_get "exp_labels" sampled_d) as [[t|label|descr]|]; try done.
  destruct (one_hot (nbr_classes self) label) as [latent| |]; simpl; [|done..].
  intros [= <-]. split; [by apply store_ok_list_append|].
  apply sample_d_list_append.
Qed.

(** A turn of the loop that succeeds keeps the store in order; after an
    item that has no ["exp_latents_values"], the two latent keys hold the
    same list. *)
Lemma collate_item_store_ok self idx st st' :
  store_ok st → collate_item self idx st = Ok st' →
  store_ok st' ∧
  ∀ it, item_at self idx = Some it →
        dict_get "exp_latents_values" (getitem it) = None →
        dict_get "exp_latents_values" (sample_d st')
          = dict_get "exp_latents" (sample_d st').
Proof.
  intros Hok.
  destruct (item_at self idx) as [it|] eqn:Hit;
    [|by rewrite collate_item_no_item].
  rewrite (collate_item_unfold self idx st it Hit).
  destruct (merge_item_flags st it Hok)
    as (st1 & need_reg & -> & Hok1 & _ & -> & -> & ->).
  simpl. destruct (negb (dict_mem "exp_labels" (getitem it))); [done|]. simpl.
  assert (∀ st2, store_ok st2 →
            (if negb (dict_mem "exp_latents_values" (getitem it))
             then alias_latents_values st2 else Ok st2) = Ok st' →
            store_ok st' ∧
            ∀ it0, Some it = Some it0 →
                   dict_get "exp_latents_values" (getitem it0) = None →
                   dict_get "exp_latents_values" (sample_d st')
                   = dict_get "exp_latents" (sample_d st')) as Hlast.
  { intros st2 Hok2 Hrun.
    destruct (dict_mem "exp_latents_values" (getitem it)) eqn:Hmem; simpl in Hrun.
    - injection Hrun as <-. split; [done|]. intros it0 [= <-] Hnone.
      unfold dict_mem in Hmem. by rewrite Hnone in Hmem.
    - destruct (alias_latents_values_spec st2 st' Hok2 Hrun) as (? & _ & ? & _).
      by split. }
  destruct (negb (dict_mem "exp_latents" (getitem it))).
  - destruct (derive_latent self (getitem it) st1) as [st2| |] eqn:Hd;
      simpl; [|done..].
    apply Hlast. by destruct (derive_latent_spec self _ st1 st2 Hok1 Hd).
  - simpl. by apply Hlast.
Qed.

Lemma collate_items_store_ok self target_only : ∀ indices st st',
  store_ok st → collate_items self indices target_only st = Ok st' →
  store_ok st' ∧
  ∀ i it,
    (if target_only then head indices else last indices) = Some i →
    item_at self i = Some it →
    dict_get "exp_latents_values" (getitem it) = None →
    dict_get "exp_latents_values" (sample_d st')
      = dict_get "exp_latents" (sample_d st').
Proof.
  induction indices as [|idx rest IH]; intros st st' Hok; simpl.
  - intros [= <-]. split; [done|]. by destruct target_only.
  - destruct (collate_item self idx st) as [st1| |] eqn:E; simpl; [|done..].
    destruct (collate_item_store_ok self idx st st1 Hok E) as [Hok1 Hal].
    destruct target_only.
    + intros [= <-]. split; [done|]. intros i it [= <-]. apply Hal.
    + intros Hrun. destruct (IH st1 st' Hok1 Hrun) as [Hok' Hal'].
      split; [done|]. intros i it Hlast Hit Hnone.
      destruct rest as [|idx' rest'].
      * simpl in Hrun, Hlast. injection Hrun as <-. injection Hlast as <-.
        by apply (Hal it).
      * apply (Hal' i it); [|done..]. by rewrite last_cons_cons in Hlast.
Qed.

Lemma stack_fields_get heap (d : odict nat) d' k :
  stack_fields heap d = Ok d' →
  dict_get k d' =
  r ← dict_get k d;
  match stack_field (default [] (heap !! r)) with
  | Ok f => Some f
  | _ => None
  end.
Proof.
  revert d'. induction d as [|[k0 r0] d IH]; intros d'; simpl.
  - by intros [= <-].
  - destruct (stack_field (default [] (heap !! r0))) as [f| |] eqn:Ef;
      simpl; [|done..].
    destruct (stack_fields heap d) as [rest'| |]; simpl; [|done..].
    intros [= <-]. simpl. destruct (String.eqb k k0); [|by apply IH].
    simpl. by rewrite Ef.
Qed.

(** X14.  When the last item that the loop reads (the target, with
    [target_only]) has no ["exp_latents_values"], the returned dictionary
    has the same entry under ["exp_latents_values"] as under
    ["exp_latents"], whatever the items before it brought under that
    key. *)
Theorem latent_values_default_to_latents self indices target_only d i it :
  collate self indices target_only = Ok d →
  (if target_only then head indices else last indices) = Some i →
  item_at self i = Some it →
  dict_get "exp_latents_values" (getitem it) = None →
  dict_get "exp_latents_values" d = dict_get "exp_latents" d.
Proof.
  unfold collate. intros Hrun Hi Hit Hnone.
  destruct (collate_items self indices target_only initial_store)
    as [st| |] eqn:E; simpl in Hrun; [|done..].
  destruct (collate_items_store_ok self target_only indices initial_store st
              store_ok_initial E) as [_ Hal].
  specialize (Hal i it Hi Hit Hnone).
  unfold finish in Hrun.
  destruct (stack_fields (heap st) (sample_d st)) as [d0| |] eqn:Es;
    simpl in Hrun; [|done..].
  destruct (dict_get "experiences" d0) as [e|]; simpl in Hrun; [|done].
  destruct (unsqueeze1 e) as [e'| |]; simpl in Hrun; [|done..].
  injection Hrun as <-.
  rewrite !dict_get_set_ne by done.
  rewrite (stack_fields_get _ _ _ "exp_latents_values" Es).
  rewrite (stack_fields_get _ _ _ "exp_latents" Es).
  by rewrite Hal.
Qed.

(** The lists of the heap after the merge of an item: the list at [r] has
    gained the values of the keys that referred to it, in the order of the
    item. *)
Lemma merge_item_heap (sampled_d : list (string * value)) :
  ∀ st (need_reg : odict bool) r l,
  heap st !! r = Some l →
  heap (merge_item sampled_d st need_reg).1 !! r
  = Some (l ++ map snd
                 (filter (λ kv, dict_get kv.1 (sample_d st) = Some r)
                    sampled_d)).
Proof.
  induction sampled_d as [|[key v] rest IH]; intros st need_reg r l Hl.
  - simpl. by rewrite app_nil_r.
  - cbn [merge_item].
    destruct (dict_mem key (sample_d st)) eqn:Hmem.
    + unfold dict_mem in Hmem.
      destruct (dict_get key (sample_d st)) as [r0|] eqn:Hkey; [|done].
      assert (sample_d (list_append st key v) = sample_d st) as Hd
        by apply sample_d_list_append.
      destruct (decide (r0 = r)) as [->|Hne].
      * rewrite (IH _ _ r (l ++ [v])).
        -- rewrite Hd, filter_cons_True by done. simpl.
           by rewrite <- app_assoc.
        -- unfold list_append. rewrite Hkey. simpl.
           by rewrite list_lookup_alter_eq, Hl.
      * rewrite (IH _ _ r l).
        -- rewrite Hd, filter_cons_False; [done|]. simpl. congruence.
        -- unfold list_append. rewrite Hkey. simpl.
           by rewrite list_lookup_alter_ne.
    + unfold dict_mem in Hmem.
      destruct (dict_get key (sample_d st)) as [r0|] eqn:Hkey; [done|].
      apply lookup_lt_Some in Hl as Hlt.
      rewrite (IH _ _ r l).
      * rewrite filter_cons_False by (simpl; congruence).
        f_equal. f_equal. f_equal. apply list_filter_iff. intros [k w].
        rewrite sample_d_list_append. simpl.
        destruct (decide (key = k)) as [<-|Hk].
        -- rewrite dict_get_set_eq, Hkey. split; [|done].
           intros [= <-]. lia.
        -- by rewrite dict_get_set_ne.
      * unfold list_append, new_list. simpl. rewrite dict_get_set_eq. simpl.
        rewrite list_lookup_alter_ne by lia.
        by rewrite lookup_app_l.
Qed.

Lemma dict_get_elem_of {V} (k : string) (v : V) (d : list (string * V)) :
  dict_get k d = Some v → (k, v) ∈ d.
Proof.
  induction d as [|[k' v'] d IH]; simpl; [done|].
  destruct (String.eqb k k') eqn:E.
  - apply String.eqb_eq in E as ->. intros [= ->]. left.
  - intros H. right. by apply IH.
Qed.

Lemma filter_none {A} (P : A → Prop) `{∀ x, Decision (P x)} (l : list A) :
  (∀ x, x ∈ l → ¬ P x) → filter P l = [].
Proof.
  induction l as [|a l IH]; intros Hall; [done|].
  rewrite filter_cons_False by (apply Hall; left).
  apply IH. intros x Hx. apply Hall. by right.
Qed.

Lemma filter_key_NoDup {V} (k : string) (v : V) (d : list (string * V)) :
  NoDup (dict_keys d) → dict_get k d = Some v →
  filter (λ kv, kv.1 = k) d = [(k, v)].
Proof.
  induction d as [|[k' v'] d IH]; simpl; [done|].
  intros [Hk' Hnd]%NoDup_cons.
  destruct (String.eqb k k') eqn:E.
  - apply String.eqb_eq in E as ->. intros [= ->].
    rewrite filter_cons_True by done. f_equal.
    apply filter_none. intros [k v0] Hin Heq. simpl in Heq. subst k.
    apply Hk'. unfold dict_keys. apply list_elem_of_fmap.
    by exists (k', v0).
  - apply String.eqb_neq in E. intros H.
    rewrite filter_cons_False by (simpl; congruence). by apply IH.
Qed.

(** X15.  An item that brings its own ["exp_latents"] is taken as it is:
    whatever its label, an integer outside the range of the classes
    included, the turn succeeds, derives no one-hot vector, and appends the
    latent of the item, and nothing else, to the list of ["exp_latents"]
    when no other key shares that list. *)
Theorem supplied_latent_is_kept self idx st it v r l :
  store_ok st →
  item_at self idx = Some it →
  NoDup (dict_keys (getitem it)) →
  is_Some (dict_get "exp_labels" (getitem it)) →
  dict_get "exp_latents" (getitem it) = Some v →
  dict_get "exp_latents" (sample_d st) = Some r →
  (∀ k, dict_get k (sample_d st) = Some r → k = "exp_latents") →
  heap st !! r = Some l →
  ∃ st', collate_item self idx st = Ok st' ∧
         field_list st' "exp_latents" = Some (l ++ [v]).
Proof.
  intros Hok Hit Hnd [lab Hlab] Hlat Hr Honly Hl.
  rewrite (collate_item_unfold self idx st it Hit).
  pose proof (merge_item_heap (getitem it) st
                (map (λ kv, (kv.1, true)) (sample_d st)) r l Hl) as Hheap.
  destruct (merge_item_flags st it Hok)
    as (st1 & need_reg & Hm & Hok1 & Hkeep & Hf1 & Hf2 & Hf3).
  rewrite Hm in Hheap |- *. rewrite Hf1, Hf2, Hf3. simpl in Hheap.
  assert (dict_get "exp_latents" (sample_d st1) = Some r) as Hr1.
  { rewrite Hkeep; [done|]. unfold dict_mem. by rewrite Hr. }
  assert (filter (λ kv : string * value, dict_get kv.1 (sample_d st) = Some r)
            (getitem it : list (string * value)) = [("exp_latents", v)]) as Hf.
  { rewrite <- (filter_key_NoDup "exp_latents" v (getitem it) Hnd Hlat).
    apply list_filter_iff. intros [k w]. simpl. split; [apply Honly|].
    by intros ->. }
  rewrite Hf in Hheap. simpl in Hheap.
  unfold dict_mem. rewrite Hlab, Hlat. simpl.
  destruct (dict_get "exp_latents_values" (getitem it)); simpl.
  - exists st1. split; [done|]. unfold field_list. by rewrite Hr1.
  - destruct (alias_latents_values st1) as [st2| |] eqn:Ea.
    + destruct (alias_latents_values_spec st1 st2 Hok1 Ea)
        as (_ & Hh & _ & Hne).
      exists st2. split; [done|]. unfold field_list.
      rewrite Hne, Hr1 by done. simpl. by rewrite Hh.
    + exfalso. revert Ea. unfold alias_latents_values. by rewrite Hr1.
    + exfalso. revert Ea. unfold alias_latents_values. by rewrite Hr1.
Qed.

Lemma two_elements {A} (x y : A) (l : list A) :
  x ∈ l → y ∈ l → x ≠ y → 2 ≤ length l.
Proof.
  intros Hx Hy Hne. destruct l as [|a [|b l]]; simpl; [|exfalso|lia].
  - inversion Hx.
  - apply list_elem_of_singleton in Hx, Hy. congruence.
Qed.

(** X16.  The assignment of line 160 shares the list, it does not copy
    it.  When the two latent keys hold the same list (which is so after an
    item without ["exp_latents_values"]), an item that brings both
    ["exp_latents"] and ["exp_latents_values"] adds both values to that one
    list: the two keys still hold the same list, and it has gained at
    least two entries for one item. *)
Theorem shared_latent_list_grows_twice self idx st it v w r l :
  store_ok st →
  item_at self idx = Some it →
  is_Some (dict_get "exp_labels" (getitem it)) →
  dict_get "exp_latents" (getitem it) = Some v →
  dict_get "exp_latents_values" (getitem it) = Some w →
  dict_get "exp_latents" (sample_d st) = Some r →
  dict_get "exp_latents_values" (sample_d st) = Some r →
  heap st !! r = Some l →
  ∃ st' l',
    collate_item self idx st = Ok st' ∧
    field_list st' "exp_latents" = Some (l ++ l') ∧
    field_list st' "exp_latents_values" = Some (l ++ l') ∧
    v ∈ l' ∧ w ∈ l' ∧ 2 ≤ length l'.
Proof.
  intros Hok Hit [lab Hlab] Hlat Hval Hr Hr' Hl.
  rewrite (collate_item_unfold self idx st it Hit).
  pose proof (merge_item_heap (getitem it) st
                (map (λ kv, (kv.1, true)) (sample_d st)) r l Hl) as Hheap.
  destruct (merge_item_flags st it Hok)
    as (st1 & need_reg & Hm & Hok1 & Hkeep & Hf1 & Hf2 & Hf3).
  rewrite Hm in Hheap |- *. rewrite Hf1, Hf2, Hf3. simpl in Hheap.
  unfold dict_mem. rewrite Hlab, Hlat, Hval. simpl.
  eexists st1, _. split; [done|].
  unfold field_list.
  rewrite !Hkeep by (unfold dict_mem; by rewrite ?Hr, ?Hr').
  rewrite Hr, Hr'. simpl. split; [exact Hheap|]. split; [exact Hheap|].
  assert (("exp_latents", v) ∈
            filter (λ kv : string * value,
                      dict_get kv.1 (sample_d st) = Some r)
              (getitem it : list (string * value)))
    as Hv.
  { apply list_elem_of_filter. split; [done|]. by apply dict_get_elem_of. }
  assert (("exp_latents_values", w) ∈
            filter (λ kv : string * value,
                      dict_get kv.1 (sample_d st) = Some r)
              (getitem it : list (string * value)))
    as Hw.
  { apply list_elem_of_filter. split; [done|]. by apply dict_get_elem_of. }
  split; [|split].
  - apply list_elem_of_fmap. by exists ("exp_latents", v).
  - apply list_elem_of_fmap. by exists ("exp_latents_values", w).
  - rewrite length_map.
    by apply (two_elements ("exp_latents", v) ("exp_latents_values", w)).
Qed.

(** The dictionary after the merge of an item: its first entry stays, and
    a key that refers to a list which was there before the merge referred
    to it before. *)
Lemma merge_item_refs (sampled_d : list (string * value)) :
  ∀ st (need_reg : odict bool),
    (∀ x rest, sample_d st = x :: rest →
               ∃ rest', sample_d (merge_item sampled_d st need_reg).1
                        = x :: rest') ∧
    ∀ k r, dict_get k (sample_d (merge_item sampled_d st need_reg).1) = Some r →
           r < length (heap st) → dict_get k (sample_d st) = Some r.
Proof.
  induction sampled_d as [|[key v] rest IH]; intros st need_reg.
  - simpl. split; [eauto | done].
  - cbn [merge_item]. destruct (dict_mem key (sample_d st)) eqn:Hmem.
    + destruct (IH (list_append st key v) (dict_set key false need_reg))
        as [Hhd Href].
      rewrite sample_d_list_append in Hhd, Href.
      rewrite length_heap_list_append in Href. by split.
    + destruct (IH (list_append (new_list st key) key v) need_reg)
        as [Hhd Href].
      rewrite sample_d_list_append in Hhd, Href.
      rewrite length_heap_list_append in Href.
      unfold new_list in Hhd, Href. cbn [sample_d heap] in Hhd, Href.
      rewrite length_app in Href. split.
      * intros [k0 r0] rest0 Hd. apply (Hhd (k0, r0) (dict_set key (length (heap st)) rest0)).
        rewrite Hd. simpl.
        destruct (String.eqb key k0) eqn:E; [|done].
        apply String.eqb_eq in E. subst k0.
        rewrite Hd in Hmem. unfold dict_mem in Hmem. simpl in Hmem.
        by rewrite String.eqb_refl in Hmem.
      * intros k r Hk Hr. specialize (Href k r Hk). simpl in Href.
        destruct (decide (key = k)) as [<-|Hne].
        -- rewrite dict_get_set_eq in Href.
           assert (Some (length (heap st)) = Some r) as [= <-] by (apply Href; lia).
           lia.
        -- rewrite dict_get_set_ne in Href by done. apply Href. lia.
Qed.

Lemma dict_get_None_filter {V} (k : string) (d : list (string * V)) :
  dict_get k d = None → ∀ kv, kv ∈ d → kv.1 ≠ k.
Proof.
  induction d as [|[k' v'] d IH]; simpl; intros H kv Hin; [inversion Hin|].
  destruct (String.eqb k k') eqn:E; [done|]. apply String.eqb_neq in E.
  apply elem_of_cons in Hin as [->|Hin]; [simpl; congruence | by apply IH].
Qed.

Lemma no_experience_yet_initial : no_experience_yet initial_store.
Proof.
  split; [apply store_ok_initial|]. split; [by eexists|]. split; [|done].
  intros k. unfold initial_store. simpl.
  destruct (String.eqb k "experiences") eqn:E;
    [by apply String.eqb_eq in E|].
  repeat (destruct (String.eqb k _); [done|]). done.
Qed.

Lemma collate_item_no_experience self idx st st' it :
  no_experience_yet st →
  item_at self idx = Some it →
  dict_get "experiences" (getitem it) = None →
  collate_item self idx st = Ok st' →
  no_experience_yet st'.
Proof.
  intros (Hok & [rest Hhd] & Honly & Hnil) Hit Hnone.
  rewrite (collate_item_unfold self idx st it Hit).
  pose proof (merge_item_heap (getitem it) st
                (map (λ kv, (kv.1, true)) (sample_d st)) 0 [] Hnil) as Hheap.
  destruct (merge_item_refs (getitem it) st
              (map (λ kv, (kv.1, true)) (sample_d st))) as [Hhd1 Href1].
  destruct (merge_item_flags st it Hok)
    as (st1 & need_reg & Hm & Hok1 & Hkeep & Hf1 & Hf2 & Hf3).
  rewrite Hm in Hheap, Hhd1, Href1 |- *. rewrite Hf1, Hf2, Hf3.
  cbn [fst] in Hheap, Hhd1, Href1.
  rewrite filter_none in Hheap.
  2:{ intros kv Hin Hkv. apply Honly in Hkv.
      by apply (dict_get_None_filter _ _ Hnone kv Hin). }
  simpl in Hheap.
  assert (0 < length (heap st)) as Hpos by (by apply lookup_lt_Some in Hnil).
  assert (no_experience_yet st1) as Hinv1.
  { split; [done|]. split; [by apply (Hhd1 _ rest)|]. split; [|done].
    intros k Hk. apply Honly. by apply Href1. }
  assert (∀ st2, no_experience_yet st2 →
            (if negb (dict_mem "exp_latents_values" (getitem it))
             then alias_latents_values st2 else Ok st2) = Ok st' →
            no_experience_yet st') as Hlast.
  { intros st2 Hinv2 Hrun.
    destruct (negb (dict_mem "exp_latents_values" (getitem it)));
      [|by injection Hrun as <-].
    destruct Hinv2 as (Hok2 & [rest2 Hhd2] & Honly2 & Hnil2).
    destruct (alias_latents_values_spec st2 st' Hok2 Hrun)
      as (Hok' & Hh & Heq & Hne).
    revert Hrun. unfold alias_latents_values.
    destruct (dict_get "exp_latents" (sample_d st2)) as [r|] eqn:Er; [|done].
    simpl. intros [= <-]. unfold no_experience_yet. cbn [sample_d heap] in *.
    split; [done|]. split; [|split; [|done]].
    - rewrite Hhd2. simpl. by eexists.
    - intros k. destruct (decide ("exp_latents_values" = k)) as [<-|Hk].
      + rewrite dict_get_set_eq. intros [= ->].
        by apply Honly2 in Er.
      + rewrite dict_get_set_ne by done. apply Honly2. }
  simpl. destruct (negb (dict_mem "exp_labels" (getitem it))); [done|]. simpl.
  destruct (negb (dict_mem "exp_latents" (getitem it))); [|by apply Hlast].
  unfold derive_latent.
  destruct (dict_get "exp_labels" (getitem it)) as [[t|label|descr]|];
    try done.
  destruct (one_hot (nbr_classes self) label) as [latent| |]; simpl; [|done..].
  apply Hlast.
  destruct Hinv1 as (_ & [rest1 Hhd1'] & Honly1 & Hnil1).
  split; [by apply store_ok_list_append|].
  rewrite sample_d_list_append. split; [by eexists|]. split; [done|].
  unfold list_append.
  destruct (dict_get "exp_latents" (sample_d st1)) as [r|] eqn:Er; [|done].
  simpl. rewrite list_lookup_alter_ne; [done|].
  intros ->. by apply Honly1 in Er.
Qed.

(** X17.  When no item that the loop reads has the key ["experiences"],
    the list of that key is still empty after the loop, and the call ends
    at line 166, in the first turn of the loop over the keys, with the
    [IndexError] of [lvalue[0]]. *)
Theorem items_without_experiences_raise_index_error self indices target_only
    st :
  (∀ i it, i ∈ indices → item_at self i = Some it →
           dict_get "experiences" (getitem it) = None) →
  collate_items self indices target_only initial_store = Ok st →
  field_list st "experiences" = Some [] ∧
  collate self indices target_only = Raised IndexError.
Proof.
  intros Hnone Hrun.
  assert (no_experience_yet st) as (Hok & [rest Hhd] & Honly & Hnil).
  { revert Hrun. generalize no_experience_yet_initial.
    generalize initial_store. revert Hnone.
    induction indices as [|idx rest IH]; intros Hnone st0 Hinv; simpl.
    - by intros [= <-].
    - destruct (collate_item self idx st0) as [st1| |] eqn:E; simpl; [|done..].
      destruct (item_at self idx) as [it|] eqn:Hit;
        [|by rewrite collate_item_no_item in E].
      assert (no_experience_yet st1) as Hinv1.
      { apply (collate_item_no_experience self idx st0 st1 it); auto.
        apply (Hnone idx); [left | done]. }
      destruct target_only; [by intros [= <-]|].
      apply IH; [|done]. intros i it' Hi. apply Hnone. by right. }
  split.
  - unfold field_list. rewrite Hhd. simpl. done.
  - unfold collate. rewrite Hrun. simpl. unfold finish. rewrite Hhd.
    simpl. by rewrite Hnil.
Qed.


End PayloadMore.

(** ** More on the checkpoints *)

Section PersistenceMore.

Import Checkpoint.

Implicit Types (fs : io) (log : list io_event) (a : artifact).

Lemma completed_when_verbose a verbose msg :
  completed a (when_verbose verbose msg) ↔ False.
Proof. split; [apply not_completed_when_verbose | done]. Qed.

Lemma completed_step a a0 fs msg :
  completed a (match transfer fs a0 with
               | None => [Done a0]
               | Some e => [Printed (msg ++ e)]
               end) ↔ a = a0 ∧ transfer fs a0 = None.
Proof.
  unfold completed. destruct (transfer fs a0) as [e|].
  - rewrite list_elem_of_singleton. split; [done | by intros [_ ?]].
  - rewrite list_elem_of_singleton. split; [by intros [= ->] | by intros [-> _]].
Qed.

Lemma completed_load_each_module a fs modules_paths :
  completed a (load_each_module fs modules_paths) ↔
  ∃ m, m ∈ modules_paths ∧ a = AModule m ∧ transfer fs a = None.
Proof.
  induction modules_paths as [|m rest IH]; simpl.
  - split; [intros H; inversion H | intros (m & H & _); inversion H].
  - rewrite completed_app, IH, completed_step. split.
    + intros [[-> Hm]|(m' & Hin & -> & Hm')].
      * exists m. split; [left | done].
      * exists m'. split; [by right | done].
    + intros (m' & [->|Hin]%elem_of_cons & -> & Hm'); [by left|].
      right. eauto.
Qed.

(** The artifacts of a checkpoint with the modules [modules]. *)
Lemma elem_of_artifacts a (modules : list string) :
  a ∈ [AConfig; APipelines; ASignals] ++ map AModule modules ↔
  a = AConfig ∨ a = APipelines ∨ a = ASignals
  ∨ ∃ m, m ∈ modules ∧ a = AModule m.
Proof.
  rewrite elem_of_app, !elem_of_cons, list_elem_of_fmap. split.
  - intros [[?|[?|[?|H]]]|(m & -> & Hm)]; eauto 7. inversion H.
  - intros [?|[?|[?|(m & Hm & ->)]]]; eauto 7.
Qed.

(** X19.  [load] returns, whatever fails.  What it has read afterwards is
    exactly what could be read: the configuration, the pipelines, the
    signals and the module of each path found; and the failure of each
    other one has been printed. *)
Theorem load_reads_what_can_be_read fs modules_paths verbose path :
  (load fs modules_paths verbose path).2 = Ok () ∧
  (∀ a, completed a (load fs modules_paths verbose path).1 ↔
        a ∈ [AConfig; APipelines; ASignals] ++ map AModule modules_paths
        ∧ transfer fs a = None) ∧
  ∀ a e, a ∈ [AConfig; APipelines; ASignals] ++ map AModule modules_paths →
         transfer fs a = Some e →
         reported e (load fs modules_paths verbose path).1.
Proof.
  split; [done|]. split.
  - intros a. rewrite elem_of_artifacts. unfold load, load_config,
      load_modules, load_pipelines, load_signals. cbn [fst].
    rewrite !completed_app, !completed_when_verbose, !completed_step,
      completed_load_each_module.
    split.
    + intros [[[-> ?]|[]]|[[(m & ? & -> & ?)|[]]|[[[-> ?]|[]]
                          |[[[-> ?]|[]]|[]]]]]; eauto 10.
    + intros [[->|[->|[->|(m & Hm & ->)]]] Ha].
      * by left; left.
      * by right; right; left; left.
      * by right; right; right; left; left.
      * right. left. left. eauto.
  - intros a e Ha He.
    destruct (load_handles_each_artifact fs modules_paths verbose path)
      as [_ Hall].
    by apply (Hall a Ha).
Qed.

(** X20.  The messages that end in [OK.] say nothing about success: with
    [verbose], [load] prints all five of them whatever could be read, also
    when nothing could; without [verbose], it prints nothing unless
    something fails. *)
Theorem load_prints_ok_whatever_fails fs modules_paths (path : string) :
  (∀ msg, msg ∈ ["Loading config: OK."; "Loading modules: OK.";
                 "Loading pipelines: OK."; "Loading signals: OK.";
                 ("Loading from " ++ path ++ ": OK.")%string] →
          Printed msg ∈ (load fs modules_paths true path).1) ∧
  ((∀ a, transfer fs a = None) →
   ∀ msg, Printed msg ∉ (load fs modules_paths false path).1).
Proof.
  split.
  - intros msg Hmsg. unfold load, load_config, load_modules, load_pipelines,
      load_signals, when_verbose. cbn [fst].
    rewrite !elem_of_app, !list_elem_of_singleton.
    repeat (apply elem_of_cons in Hmsg as [->|Hmsg]; [tauto|]).
    inversion Hmsg.
  - intros Hall msg.
    unfold load, load_config, load_modules, load_pipelines, load_signals,
      when_verbose. cbn [fst]. rewrite !Hall, !app_nil_r.
    rewrite !elem_of_app, !list_elem_of_singleton.
    intros [?|[H|[?|?]]]; try done.
    induction modules_paths as [|m rest IH]; simpl in H; [inversion H|].
    rewrite Hall in H. apply elem_of_cons in H as [?|H]; [done | auto].
Qed.

(** X21.  When the directory can be made and every module can be
    written, [save] returns, and what it has written is exactly what could
    be written: a failure on the configuration, the pipelines or the
    signals is printed and stops nothing. *)
Theorem save_writes_what_can_be_written fs modules verbose path :
  makedirs fs = None →
  (∀ m, m ∈ modules → transfer fs (AModule m) = None) →
  (save fs modules verbose path).2 = Ok () ∧
  (∀ a, completed a (save fs modules verbose path).1 ↔
        a ∈ [AConfig; APipelines; ASignals] ++ map AModule modules
        ∧ transfer fs a = None) ∧
  ∀ a e, a ∈ [AConfig; APipelines; ASignals] ++ map AModule modules →
         transfer fs a = Some e →
         reported e (save fs modules verbose path).1.
Proof.
  intros Hdir Hall.
  destruct (save_handles_config_pipelines_signals fs modules verbose path
              Hdir Hall) as [Hret Hhandles].
  split; [done|]. split.
  - intros a. split.
    + unfold save. rewrite Hdir, (save_modules_returns fs modules Hall).
      cbn [fst]. unfold save_config, save_pipelines, save_signals.
      rewrite elem_of_artifacts, !completed_app, !completed_step,
        completed_when_verbose.
      intros [H|[[-> ?]|[H|[[-> ?]|[[-> ?]|[]]]]]]; eauto 10.
      * destruct path; [inversion H|].
        apply list_elem_of_singleton in H. done.
      * apply list_elem_of_fmap in H as (m & [= ->] & Hm). eauto 10.
    + intros [Ha Hnone]. by apply (Hhandles a Ha).
  - intros a e Ha He. by apply (Hhandles a Ha).
Qed.

(** X22.  A module that cannot be written ends [save] there and then:
    the log holds the configuration, written or reported, and the modules
    before the failing one; the exception leaves [save] unreported, and
    neither a later module nor the pipelines nor the signals are written,
    whether they could be or not. *)
Theorem save_ends_at_first_failing_module fs pre module_id post e verbose
    path :
  makedirs fs = None →
  (∀ m, m ∈ pre → transfer fs (AModule m) = None) →
  transfer fs (AModule module_id) = Some e →
  save fs (pre ++ module_id :: post) verbose path
  = (match path with
     | None =>
         [Printed "WARNING: no path provided for save. Saving in './temp_save/'."]
     | Some _ => []
     end ++ save_config fs ++ map (λ m, Done (AModule m)) pre,
     Raised (IOError e)) ∧
  ∀ a, completed a (save fs (pre ++ module_id :: post) verbose path).1 ↔
       (a = AConfig ∧ transfer fs AConfig = None)
       ∨ ∃ m, m ∈ pre ∧ a = AModule m.
Proof.
  intros Hdir Hpre He.
  assert (save fs (pre ++ module_id :: post) verbose path
          = (match path with
             | None =>
                 [Printed
                    "WARNING: no path provided for save. Saving in './temp_save/'."]
             | Some _ => []
             end ++ save_config fs ++ map (λ m, Done (AModule m)) pre,
             Raised (IOError e))) as Hrun.
  { unfold save. rewrite Hdir.
    by rewrite (save_modules_raises fs pre module_id post e Hpre He). }
  split; [done|]. intros a. rewrite Hrun. cbn [fst].
  unfold save_config. rewrite !completed_app, completed_step. split.
  - intros [H|[?|H]]; [|by left|].
    + destruct path; [inversion H|]. apply list_elem_of_singleton in H. done.
    + apply list_elem_of_fmap in H as (m & [= ->] & Hm). eauto.
  - intros [?|(m & Hm & ->)]; [auto|]. right. right.
    apply list_elem_of_fmap. eauto.
Qed.

End PersistenceMore.

(** ** More on [train] *)

Section TrainMore.

Import Train.

Implicit Types (cfg : config) (st : state) (ds : odict DualLabeledDataset).
Implicit Types (m : string) (pipelines : odict pipeline).

Lemma curriculum_disabled cfg acc st :
  curriculum_enabled cfg = false → curriculum cfg acc st = Ok st.
Proof. intros Hoff. unfold curriculum. by rewrite Hoff, andb_false_r. Qed.

Lemma batches_disabled cfg pipelines nbr_rep total accs :
  curriculum_enabled cfg = false →
  ∀ idx_stimulus,
    keeps_datasets (length accs)
      (batches cfg pipelines nbr_rep total idx_stimulus accs).
Proof.
  intros Hoff. induction accs as [|acc rest IH]; intros idx st.
  - exists [], st. split; [done|]. split; [done|]. split; [done|].
    intros s Hs. inversion Hs.
  - simpl. unfold batch. rewrite (curriculum_disabled cfg acc _ Hoff).
    match goal with
    | |- context [batches cfg pipelines nbr_rep total (S idx) rest ?s] =>
        destruct (IH (S idx) s) as (h & st' & -> & Hlen & Hds & Hall)
    end.
    eexists _, st'. split; [done|]. simpl. split; [by rewrite Hlen|].
    split; [done|]. intros s [->|Hs]%elem_of_cons; [done | by apply Hall].
Qed.

Lemma slot_disabled cfg pipelines nb_loaders it_dataset m accs :
  curriculum_enabled cfg = false →
  keeps_datasets (length accs)
    (slot cfg pipelines nb_loaders it_dataset m accs).
Proof.
  intros Hoff st. unfold slot.
  match goal with
  | |- context [batches cfg pipelines ?n ?t 0 accs ?s] =>
      destruct (batches_disabled cfg pipelines n t accs Hoff 0 s)
        as (h & st' & -> & Hlen & Hds & Hall)
  end.
  exists h, (emit [SwitchEpoch] st'). done.
Qed.

Lemma slots_disabled cfg pipelines nb_loaders script (todo : list string) :
  curriculum_enabled cfg = false →
  ∀ it_dataset,
    keeps_datasets (batches_of script todo)
      (slots cfg pipelines nb_loaders it_dataset todo script).
Proof.
  intros Hoff. induction todo as [|m rest IH]; intros it_dataset st.
  - exists [], st. split; [done|]. split; [done|]. split; [done|].
    intros s Hs. inversion Hs.
  - simpl.
    destruct (slot_disabled cfg pipelines nb_loaders it_dataset m (script m)
                Hoff st) as (h & st1 & -> & Hlen & Hds & Hall).
    destruct (IH (S it_dataset) st1) as (h' & st' & -> & Hlen' & Hds' & Hall').
    exists (h ++ h'), st'. split; [done|].
    split; [rewrite length_app; unfold batches_of in *; simpl; lia|].
    split; [congruence|].
    intros s [Hs|Hs]%elem_of_app; [by apply Hall|].
    rewrite <- Hds. by apply Hall'.
Qed.




Lemma epoch_body_zero_interval cfg pipelines (todo : list string) script epoch
    st h r :
  save_epoch_interval cfg = Some 0 →
  epoch_body cfg pipelines todo script epoch st = (h, r) →
  ∀ st', r ≠ Ok st'.
Proof.
  intros Hk. unfold epoch_body. rewrite Hk.
  destruct (slots cfg pipelines _ 0 todo script _) as [h' r'].
  intros [= <- <-] st'. by destruct r'.
Qed.

(** X24.  With the save interval 0, a call of [train] that has an epoch
    to run does not return: [epoch % 0] raises at the end of the first
    epoch, unless something else has raised before.  Without the
    curriculum, it is that [ZeroDivisionError] which ends the call, after
    all the batches of the first epoch. *)
Theorem zero_save_interval_ends_train cfg ds pipelines signal_curriculum
    signal_epoch nbr_epoch script :
  save_epoch_interval cfg = Some 0 →
  default 0 signal_epoch < nbr_epoch →
  (∀ st',
     (train cfg ds pipelines signal_curriculum signal_epoch nbr_epoch
        script).2 ≠ Ok st') ∧
  (curriculum_enabled cfg = false →
   ∃ h,
     train cfg ds pipelines signal_curriculum signal_epoch nbr_epoch script
       = (h, Raised ZeroDivisionError) ∧
     (∀ s, s ∈ h → datasets s = ds) ∧
     length h
     = 1 + batches_of (script (default 0 signal_epoch)) (dict_keys ds)).
Proof.
  intros Hk Hlt.
  assert (seq (default 0 signal_epoch) (nbr_epoch - default 0 signal_epoch)
          = default 0 signal_epoch
              :: seq (S (default 0 signal_epoch))
                   (nbr_epoch - default 0 signal_epoch - 1)) as Hseq.
  { destruct (nbr_epoch - default 0 signal_epoch) as [|n] eqn:E; [lia|].
    simpl. by rewrite Nat.sub_0_r. }
  split.
  - intros st'. unfold train.
    destruct (initialise cfg ds signal_curriculum) as [st0| |]; [|done..].
    rewrite Hseq. simpl.
    destruct (epoch_body cfg pipelines (dict_keys ds)
                (script (default 0 signal_epoch)) (default 0 signal_epoch) st0)
      as [h r] eqn:E.
    pose proof (epoch_body_zero_interval _ _ _ _ _ _ _ _ Hk E) as Hr.
    destruct r as [st1| |]; [by destruct (Hr st1)|done..].
  - intros Hoff. unfold train, initialise. rewrite Hoff, Hseq. simpl.
    unfold epoch_body. rewrite Hk.
    match goal with
    | |- context [slots cfg pipelines ?n 0 ?todo ?sc ?s] =>
        destruct (slots_disabled cfg pipelines n sc todo Hoff 0 s)
          as (h & st' & -> & Hlen & Hds & Hall)
    end.
    simpl. eexists. split; [done|]. split.
    + intros s [->|Hs]%elem_of_cons; [done | by apply Hall].
    + simpl. by rewrite Hlen.
Qed.

(** The loop of lines 378 and 379 leaves in [mode] the last mode of the
    datasets. *)
Lemma increment_all_mode (todo : list string) : ∀ st st',
  increment_all todo st = Ok st' → mode st' = default (mode st) (last todo).
Proof.
  induction todo as [|m rest IH]; intros st st'; simpl.
  - by intros [= <-].
  - destruct (dict_get m (datasets st)) as [d|]; [|done]. simpl.
    destruct (getNbrDistractors d m) as [n| |]; [|done..]. simpl.
    intros Hrun. rewrite (IH _ _ Hrun). cbn [mode set_mode_var].
    clear IH Hrun. destruct rest as [|m' rest']; [reflexivity|].
    rewrite last_cons_cons.
    destruct (last (m' :: rest')) as [x|] eqn:E; [done|].
    by apply last_None in E.
Qed.

(** What the curriculum does to the datasets and to [mode]: nothing, or
    one more distractor in every mode, with [mode] left at the last mode of
    the datasets. *)
Lemma curriculum_cases cfg acc st st' :
  NoDup (dict_keys (datasets st)) →
  (∀ x, x ∈ dict_keys (datasets st) → is_Some (count_in (datasets st) x)) →
  curriculum cfg acc st = Ok st' →
  (datasets st' = datasets st ∧ mode st' = mode st) ∨
  (dict_keys (datasets st') = dict_keys (datasets st) ∧
   (∀ x, count_in (datasets st') x = (λ n, n + 1) <$> count_in (datasets st) x) ∧
   last (dict_keys (datasets st)) = Some (mode st')).
Proof.
  intros Hnd Hall. unfold curriculum.
  destruct (str_in "train" (mode st) && curriculum_enabled cfg);
    [|intros [= <-]; by left].
  destruct (dict_get (mode st) (datasets st)) as [d|] eqn:Hd; [|done].
  simpl. unfold getNbrDistractors.
  destruct (nbr_distractors d !! mode st) as [n|]; [|done]. simpl.
  destruct (Qlt_le_dec 75 _) as [_|_]; [|intros [= <-]; by left].
  destruct (decide (curriculum_distractors_window_size cfg < _)%Z)
    as [_|_]; [|intros [= <-]; by left].
  simpl. destruct (cfg_nbr_distractors cfg !! mode st) as [cap|]; [|done].
  simpl. destruct (decide (n < cap)) as [_|_]; [|intros [= <-]; by left].
  match goal with
  | |- increment_all ?todo ?s = Ok st' → _ =>
      destruct (increment_all_spec todo s) as (st'' & Hrun & Hkeys & _ & _ & Hc);
        [done | done |];
      pose proof (increment_all_mode todo s st'' Hrun) as Hmode
  end.
  simpl in Hrun, Hkeys, Hc, Hmode. rewrite Hrun. intros [= <-]. right.
  split; [done|]. split.
  - intros x. rewrite Hc. destruct (decide (x ∈ dict_keys (datasets st)))
      as [Hin|Hin]; [done|].
    destruct (count_in (datasets st) x) as [c|] eqn:Hx; [|done].
    by apply count_in_keys in Hx.
  - assert (mode st ∈ dict_keys (datasets st)) as Hin
      by (apply dict_get_keys; eauto).
    destruct (last (dict_keys (datasets st))) as [ml|] eqn:Hlast.
    + simpl in Hmode. by rewrite Hmode.
    + apply last_None in Hlast. rewrite Hlast in Hin. inversion Hin.
Qed.

Lemma batches_frozen cfg pipelines nbr_rep total accs : ∀ idx_stimulus st h r,
  str_in "train" (mode st) = false →
  batches cfg pipelines nbr_rep total idx_stimulus accs st = (h, r) →
  ∀ s, s ∈ h → datasets s = datasets st.
Proof.
  induction accs as [|acc rest IH]; intros idx st h r Hm; simpl.
  - intros [= <- <-] s Hs. inversion Hs.
  - unfold batch, curriculum. cbn [mode emit]. rewrite Hm. simpl.
    match goal with
    | |- context [batches cfg pipelines nbr_rep total (S idx) rest ?s] =>
        destruct (batches cfg pipelines nbr_rep total (S idx) rest s)
          as [h' r'] eqn:E;
        pose proof (IH (S idx) s h' r' Hm E) as Hall
    end.
    intros [= <- <-] s [->|Hs]%elem_of_cons; [done|]. by apply Hall.
Qed.

Lemma batches_grow_once cfg pipelines nbr_rep total ml accs :
  str_in "train" ml = false →
  ∀ idx_stimulus st h r,
    NoDup (dict_keys (datasets st)) →
    (∀ x, x ∈ dict_keys (datasets st) → is_Some (count_in (datasets st) x)) →
    last (dict_keys (datasets st)) = Some ml →
    batches cfg pipelines nbr_rep total idx_stimulus accs st = (h, r) →
    ∀ s, s ∈ h →
         datasets s = datasets st ∨
         ∀ x, count_in (datasets s) x
              = (λ n, n + 1) <$> count_in (datasets st) x.
Proof.
  intros Hml. induction accs as [|acc rest IH];
    intros idx st h r Hnd Hall Hlast; simpl.
  - intros [= <- <-] s Hs. inversion Hs.
  - unfold batch.
    match goal with
    | |- context [curriculum cfg acc ?s0] =>
        pose proof (curriculum_cases cfg acc s0) as Hcases;
        destruct (curriculum cfg acc s0) as [st1| |]
    end; [|by intros [= <- <-] s Hs; inversion Hs..].
    destruct (batches cfg pipelines nbr_rep total (S idx) rest st1)
      as [h' r'] eqn:E.
    intros [= <- <-] s Hs.
    destruct (Hcases st1 Hnd Hall eq_refl)
      as [[Hds _]|(Hkeys & Hinc & Hmode)]; simpl in *.
    + apply elem_of_cons in Hs as [->|Hs]; [by left|].
      rewrite <- Hds. apply (IH (S idx) st1 h' r'); try done;
        by rewrite Hds.
    + right. apply elem_of_cons in Hs as [->|Hs]; [done|].
      assert (str_in "train" (mode st1) = false) as Hm1.
      { assert (mode st1 = ml) as -> by congruence. done. }
      by rewrite (batches_frozen _ _ _ _ _ _ _ _ _ Hm1 E s Hs).
Qed.

(** X25.  The loop of lines 378 and 379 uses the variable [mode] of the
    loop over the loaders, and leaves it at the last mode of the datasets.
    When the name of that mode does not contain ['train'], as with the
    modes ['train'] and ['test'] in this order, the curriculum is off for
    the rest of the loader after it has added a distractor: during the
    batches of one loader, the count of a mode is the one on entry or that
    count plus one. *)
Theorem curriculum_grows_once_per_loader cfg pipelines nb_loaders it_dataset m
    accs st h r ml :
  NoDup (dict_keys (datasets st)) →
  (∀ x, x ∈ dict_keys (datasets st) → is_Some (active_count st x)) →
  last (dict_keys (datasets st)) = Some ml →
  str_in "train" ml = false →
  slot cfg pipelines nb_loaders it_dataset m accs st = (h, r) →
  ∀ s, s ∈ h →
       (∀ x, active_count s x = active_count st x) ∨
       (∀ x, active_count s x = (λ n, n + 1) <$> active_count st x).
Proof.
  intros Hnd Hall Hlast Hml. unfold slot.
  match goal with
  | |- context [batches cfg pipelines ?n ?t 0 accs ?s0] =>
      destruct (batches cfg pipelines n t 0 accs s0) as [h' r'] eqn:E;
      pose proof (batches_grow_once cfg pipelines n t ml accs Hml 0 s0 h' r'
                    Hnd Hall Hlast E) as Hstep
  end.
  intros [= <- _] s Hs. destruct (Hstep s Hs) as [Hds|Hinc].
  - left. intros x. unfold active_count. by rewrite Hds.
  - right. exact Hinc.
Qed.

End TrainMore.

(** ** The loaders and the pipelines *)

Section LoadersMore.

Import Train.

Implicit Types (cfg : config) (st : state) (pipelines : odict pipeline).

Lemma increment_all_trace (todo : list string) : ∀ st st',
  increment_all todo st = Ok st' → trace st' = trace st.
Proof.
  induction todo as [|m rest IH]; intros st st'; simpl.
  - by intros [= <-].
  - destruct (dict_get m (datasets st)) as [d|]; [|done]. simpl.
    destruct (getNbrDistractors d m) as [n| |]; [|done..]. simpl.
    intros Hrun. by rewrite (IH _ _ Hrun).
Qed.

(** The curriculum calls no pipeline. *)
Lemma curriculum_trace cfg acc st st' :
  curriculum cfg acc st = Ok st' → trace st' = trace st.
Proof.
  unfold curriculum.
  destruct (str_in "train" (mode st) && curriculum_enabled cfg);
    [|by intros [= <-]].
  destruct (dict_get (mode st) (datasets st)) as [d|]; [|done]. simpl.
  destruct (getNbrDistractors d (mode st)) as [n| |]; [|done..]. simpl.
  destruct (Qlt_le_dec 75 _) as [_|_]; [|by intros [= <-]].
  destruct (decide (curriculum_distractors_window_size cfg < _)%Z)
    as [_|_]; [|by intros [= <-]].
  simpl. destruct (cfg_nbr_distractors cfg !! mode st) as [cap|]; [|done].
  simpl. destruct (decide (n < cap)) as [_|_]; [|by intros [= <-]].
  intros Hrun. by rewrite (increment_all_trace _ _ _ Hrun).
Qed.

Lemma served_repetition cfg pipelines nbr_rep it_rep :
  served (repetition cfg pipelines nbr_rep it_rep)
  = served_in_repetition cfg pipelines.
Proof.
  destruct (communication_rounds_spec cfg pipelines
              (seq 0 (nbr_communication_round cfg))) as [Hs _].
  rewrite length_seq in Hs. unfold repetition, served_in_repetition.
  rewrite !served_app, Hs, served_others. simpl. by rewrite app_nil_r.
Qed.

Lemma served_repetitions cfg pipelines nbr_rep (l : list nat) :
  served (concat (map (repetition cfg pipelines nbr_rep) l))
  = concat (replicate (length l) (served_in_repetition cfg pipelines)).
Proof.
  induction l as [|it_rep l IH]; [done|].
  cbn [map concat length replicate].
  by rewrite served_app, served_repetition, IH.
Qed.

Lemma batches_served cfg pipelines nbr_rep total accs :
  ∀ idx_stimulus st h st',
    batches cfg pipelines nbr_rep total idx_stimulus accs st = (h, Ok st') →
    served (trace st')
    = served (trace st)
      ++ concat (replicate (length accs * nbr_rep)
                   (served_in_repetition cfg pipelines)).
Proof.
  induction accs as [|acc rest IH]; intros idx st h st'.
  - simpl. intros [= _ <-]. by rewrite app_nil_r.
  - cbn [batches length]. unfold batch.
    match goal with
    | |- context [curriculum cfg acc ?s0] =>
        pose proof (curriculum_trace cfg acc s0) as Htr;
        destruct (curriculum cfg acc s0) as [st1| |]
    end; [|done..].
    destruct (batches cfg pipelines nbr_rep total (S idx) rest st1)
      as [h' r'] eqn:E.
    intros [= _ ->]. rewrite (IH _ _ _ _ E), (Htr st1 eq_refl).
    cbn [trace emit].
    rewrite !served_app, served_repetitions, length_seq.
    change (S (length rest) * nbr_rep) with (nbr_rep + length rest * nbr_rep).
    rewrite replicate_add, concat_app. cbn [served app].
    by rewrite <- app_assoc.
Qed.

(** X26.  When the pass over the loader of a mode comes to its end, it
    has served the pipelines of one repetition once per batch and
    repetition, in order, and nothing else.  A batch is repeated
    [nbr_experience_repetition] times in a mode with ['train'] in its name
    when the configuration has that key, and is served once otherwise: the
    batches of a test loader are not repeated. *)
Theorem loader_serves_each_batch_and_repetition cfg pipelines nb_loaders
    it_dataset m accs st h st' :
  slot cfg pipelines nb_loaders it_dataset m accs st = (h, Ok st') →
  served (trace st')
  = served (trace st)
    ++ concat (replicate (length accs * repetitions_of cfg m)
                 (served_in_repetition cfg pipelines)) ∧
  (str_in "train" m = false → repetitions_of cfg m = 1).
Proof.
  intros Hrun. split.
  - revert Hrun. unfold slot.
    match goal with
    | |- context [batches cfg pipelines ?n ?t 0 accs ?s0] =>
        destruct (batches cfg pipelines n t 0 accs s0) as [h' r'] eqn:E
    end.
    destruct r' as [st1| |]; simpl; [|done..]. intros [= _ <-].
    apply batches_served in E. cbn [trace emit set_mode_var] in *.
    rewrite served_app, E, served_app. cbn [served app].
    by rewrite !app_nil_r.
  - intros Hm. unfold repetitions_of. rewrite Hm.
    by destruct (nbr_experience_repetition cfg).
Qed.

End LoadersMore.

(** ** The window of the curriculum *)

Section WindowMore.

Import Train.

Implicit Types (cfg : config) (st : state) (pipelines : odict pipeline).





End WindowMore.

(** ** The statements at sample data *)

Section AtSampleData.

Import Examples.

Lemma test_map_includes_train_map_witness :
  train_classes (init two_classes) !! 1%Z = Some [3; 4] ∧
  test_classes (init two_classes) !! 1%Z = Some ([] ++ [3; 4]) ∧
  train_classes (init two_classes) !! 2%Z = None ∧
  is_Some (test_classes (init two_classes) !! 2%Z).
Proof.
  destruct (test_map_includes_train_map two_classes) as [H1 H2].
  destruct (H1 1%Z [3; 4]) as (_ & _ & Htest); [reflexivity|].
  destruct (H2 2%Z) as [Htrain Hsome].
  - exists (labelled 2). split; [left | reflexivity].
  - intros it Hin. vm_compute in Hin.
    repeat (apply elem_of_cons in Hin as [->|Hin]; [discriminate|]).
    inversion Hin.
  - split; [reflexivity|]. split; [exact Htest|].
    split; [exact Htrain | exact Hsome].
Defined.

Lemma sample_indices_sufficient_witness :
  ∃ indices,
    sample_indices (init two_classes) 0 None (Some []) (λ _, 0) DbgContinue 1
      = ([], Ok indices) ∧
    length indices = 2 ∧ head indices = Some 0 ∧ NoDup indices ∧
    (∀ i, i ∈ indices → i ∈ [0; 1; 2; 3; 4]) ∧
    ∃ d, (sample (init two_classes) 0 None (Some []) false (λ _, 0)
            DbgContinue 1).2 = Ok d
         ∧ dict_get "indices" d = Some (FIndices indices).
Proof.
  destruct (sample_indices_sufficient (init two_classes) 0 None (Some [])
              (λ _, 0) DbgContinue 0 (list_to_set [0; 1; 2; 3; 4]) 1)
    as (indices & Hsi & Hlen & Hhd & Hnd & _ & Htl & Hs & _).
  - reflexivity.
  - reflexivity.
  - vm_compute. reflexivity.
  - vm_compute. lia.
  - exists indices. split; [exact Hsi|]. split; [exact Hlen|].
    split; [exact Hhd|]. split; [exact Hnd|]. split.
    + destruct indices as [|t tl]; [discriminate|]. injection Hhd as ->.
      intros i [->|Hi]%elem_of_cons; [left|].
      apply Htl, not_excluded_remove_excepts in Hi as [Hi _].
      by apply elem_of_list_to_set in Hi.
    + destruct (Hs false) as [Hrun Hd].
      assert (indices = [0; 4]) as -> by (vm_compute in Hsi; congruence).
      destruct (collate (init two_classes) [0; 4] false) as [d| |] eqn:E;
        [|by vm_compute in E..].
      exists d. split; [by rewrite Hrun | by apply Hd].
Defined.

Lemma sample_widens_to_all_classes_witness :
  ∃ indices,
    sample_indices (init sparse_class) 0 (Some [0%Z]) (Some []) (λ _, 0)
      DbgContinue 2
      = ([Print msg_not_enough; Print msg_all_classes], Ok indices) ∧
    length indices = 3 ∧ head indices = Some 0 ∧
    ∀ i, i ∈ tail indices → i ∈ [1; 2].
Proof.
  destruct (sample_widens_to_all_classes (init sparse_class) 0 [0%Z] (Some [])
              (λ _, 0) DbgContinue 0 (list_to_set [0]) (list_to_set [0; 1; 2])
              2)
    as (indices & Hsi & _ & Hlen & Hhd & Hnd & _ & Htl & _).
  - reflexivity.
  - reflexivity.
  - vm_compute. reflexivity.
  - vm_compute. lia.
  - reflexivity.
  - vm_compute. lia.
  - exists indices. split; [exact Hsi|]. split; [exact Hlen|].
    split; [exact Hhd|].
    assert (indices = [0; 2; 1]) as -> by (vm_compute in Hsi; congruence).
    simpl. intros i Hi. rewrite !elem_of_cons in *. tauto.
Defined.

(** C5 fails as stated: the target 0 is of class 0, the candidate class is
    1, and with the debugger resumed [sample] returns a dictionary. *)
Lemma missing_target_does_not_raise :
  ¬ (∀ U, union_classes (active_classes (init two_classes)) [1%Z] ∅ = Ok U →
          target_index (init two_classes) 0 ∉ remove_excepts U (Some []) →
          ∃ e, (sample (init two_classes) 0 (Some [1%Z]) (Some []) false
                  (λ _, 0) DbgContinue 1).2 = Raised e).
Proof.
  intros H. destruct (H (list_to_set [3; 4])) as [e He].
  - reflexivity.
  - vm_compute. discriminate.
  - vm_compute in He. discriminate.
Qed.

Lemma missing_target_is_caught_witness :
  ∃ indices,
    sample (init two_classes) 0 (Some [1%Z]) (Some []) false (λ _, 0)
      DbgContinue 1
    = ([Print msg_removal; PrintExn (KeyErrorInt 0); Breakpoint],
       collate (init two_classes) indices false) ∧
    head indices = Some 0 ∧ length indices = 2.
Proof.
  destruct (missing_target_is_caught (init two_classes) 0 (Some [1%Z])
              (Some []) false (λ _, 0) DbgContinue 0 (list_to_set [3; 4]) 1)
    as (_ & _ & Hgo & _).
  - reflexivity.
  - reflexivity.
  - vm_compute. discriminate.
  - destruct Hgo as (indices & Hrun & Hhd & Hlen).
    + reflexivity.
    + vm_compute. lia.
    + exists indices. split; [exact Hrun|]. split; [exact Hhd | exact Hlen].
Defined.



Lemma latent_length_is_unified_class_count_witness :
  ∃ st' l v,
    collate_item (set_mode (init two_classes) "train") 3 initial_store = Ok st' ∧
    field_list st' "exp_latents" = Some (l ++ [VTensor v]) ∧
    length (data v) = 3 ∧
    getNbrClasses (set_mode (init two_classes) "train") = 2.
Proof.
  destruct (latent_length_is_unified_class_count two_classes "train" 3
              initial_store (labelled 1) 1%Z store_ok_initial)
    as (_ & _ & Hin & _ & Htrain & _).
  - reflexivity.
  - reflexivity.
  - reflexivity.
  - destruct Hin as (st' & l & v & Hrun & Hfield & Hlen & _);
      [split; by vm_compute|].
    exists st', l, v. split; [exact Hrun|]. split; [exact Hfield|].
    split; [exact Hlen|]. by destruct Htrain as [-> _].
Defined.

Lemma target_only_keeps_indices_witness :
  ∃ indices d,
    length indices = 2 ∧ head indices = Some 0 ∧
    (sample (init two_classes) 0 None (Some []) true (λ _, 0) DbgContinue 1).2
      = Ok d ∧
    dict_get "indices" d = Some (FIndices indices) ∧
    dict_get "exp_labels" d = Some (FList [VInt 0]).
Proof.
  destruct (target_only_keeps_indices (init two_classes) 0 None (Some [])
              (λ _, 0) DbgContinue 0 (list_to_set [0; 1; 2; 3; 4]) 1)
    as (indices & Hlen & Hhd & _ & _ & Htrue & Hd & _).
  - reflexivity.
  - reflexivity.
  - vm_compute. reflexivity.
  - vm_compute. lia.
  - destruct (sample (init two_classes) 0 None (Some []) true (λ _, 0)
                DbgContinue 1).2 as [d| |] eqn:E; [|by vm_compute in E..].
    destruct (Hd d eq_refl) as (Hind & d1 & Hd1 & Hsame).
    exists indices, d. split; [exact Hlen|]. split; [exact Hhd|].
    split; [reflexivity|]. split; [exact Hind|].
    rewrite Hsame by discriminate.
    vm_compute in Hd1. injection Hd1 as <-. reflexivity.
Defined.

Lemma repetition_serves_pipelines_witness :
  Train.occurrences "referential_game"
    (Train.served
       (Train.repetition (curriculum_config ∅) three_pipelines 1 0)) = 1 ∧
  Train.occurrences "metrics"
    (Train.served
       (Train.repetition (curriculum_config ∅) three_pipelines 1 0)) = 1.
Proof.
  destruct (repetition_serves_pipelines (curriculum_config ∅) three_pipelines
              1 0) as (_ & _ & _ & _ & Hocc).
  - compute_done.
  - split.
    + apply (Hocc "referential_game"). left.
    + apply (Hocc "metrics"). right. left.
Defined.



End AtSampleData.

(** ** The further properties at sample data *)

Section AtMoreSampleData.

Import Examples MoreExamples.

Lemma partition_maps_cover_the_datasets_witness :
  size (list_to_set [0; 1; 2; 3; 4] : gset nat) = 5 ∧
  size (list_to_set [0; 1; 2; 3; 4; 5] : gset nat) = 6 ∧
  (5 ∈ (list_to_set [0; 1; 2; 3; 4; 5] : gset nat) ↔ 5 < 5 + 1).
Proof.
  destruct (partition_maps_cover_the_datasets two_classes
              (list_to_set [0; 1; 2; 3; 4]) (list_to_set [0; 1; 2; 3; 4; 5]))
    as (_ & H2 & H3 & H4).
  - reflexivity.
  - vm_compute. reflexivity.
  - split; [exact H3|]. split; [exact H4 | exact (H2 5)].
Defined.

Lemma partition_maps_are_partitions_witness :
  NoDup [3; 4] ∧
  Forall (λ i, i ∈ [3; 4] → i ∉ [0; 1; 2]) [0; 1; 2; 3; 4].
Proof.
  destruct (partition_maps_are_partitions two_classes
              (train_classes (init two_classes)) 1%Z [3; 4])
    as (_ & Hnd & Hdis).
  - left. reflexivity.
  - reflexivity.
  - split; [exact Hnd|]. apply Forall_forall. intros i _ H34 H012.
    specialize (Hdis 0%Z [0; 1; 2] i eq_refl H34 H012). discriminate.
Defined.

Lemma listed_index_denotes_item_of_class_witness :
  ∃ it, item_at (set_mode (init two_classes) "test") 5 = Some it ∧
        getclass it = 2%Z ∧
        kw_test_dataset two_classes !! (5 - 5) = Some it.
Proof.
  destruct (listed_index_denotes_item_of_class two_classes "test" 2%Z [5] 5)
    as (it & Hit & Hcl & _ & Htest).
  - right. reflexivity.
  - left.
  - exists it. split; [exact Hit|]. split; [exact Hcl|].
    apply Htest. vm_compute. lia.
Defined.

Lemma targets_are_the_positions_of_the_mode_witness :
  target_index (set_mode (init two_classes) "test") 0
    ∈ (list_to_set [0; 1; 2; 3; 4; 5] : gset nat) ∧
  len (set_mode (init two_classes) "test") = 1.
Proof.
  destruct (targets_are_the_positions_of_the_mode two_classes "test"
              (list_to_set [0; 1; 2; 3; 4; 5]) 0) as [Hin _].
  - vm_compute. reflexivity.
  - split; [|reflexivity]. apply Hin. vm_compute. lia.
Defined.

Lemma sample_never_repeats_an_index_witness :
  ∃ log indices,
    sample_indices (init two_classes) 0 (Some [1%Z]) (Some [2]) (λ _, 0)
      DbgContinue 1 = (log, Ok indices) ∧
    length indices = 2 ∧ NoDup indices ∧
    Forall (λ i, i ≠ 0 ∧ i ≠ 2) (tail indices).
Proof.
  destruct (sample_indices (init two_classes) 0 (Some [1%Z]) (Some [2])
              (λ _, 0) DbgContinue 1) as [log [indices| |]] eqn:E;
    [|by vm_compute in E..].
  destruct (sample_never_repeats_an_index (init two_classes) 0 (Some [1%Z])
              (Some [2]) (λ _, 0) DbgContinue 1 log indices
              (list_to_set [0; 1; 2; 3; 4]))
    as (n & Hn & Hlen & _ & Hnd & Htl).
  - reflexivity.
  - exact E.
  - exists log, indices. split; [reflexivity|].
    assert (n = 1) as -> by (vm_compute in Hn; congruence).
    split; [exact Hlen|]. split; [exact Hnd|].
    apply Forall_forall. intros i Hi. destruct (Htl i Hi) as (Ht & _ & Hex).
    split; [exact Ht|]. intros ->. apply Hex. exists [2]. split; [done | left].
Defined.

Lemma distractors_denote_items_witness :
  ∃ log indices,
    sample_indices (set_mode (init two_classes) "train") 0 None None (λ _, 0)
      DbgContinue 1 = (log, Ok indices) ∧
    Forall (λ i, is_Some (kw_train_dataset two_classes !! i)) (tail indices).
Proof.
  destruct (sample_indices (set_mode (init two_classes) "train") 0 None None
              (λ _, 0) DbgContinue 1) as [log [indices| |]] eqn:E;
    [|by vm_compute in E..].
  exists log, indices. split; [reflexivity|].
  apply Forall_forall. intros i Hi.
  destruct (distractors_denote_items two_classes "train" 0 None None (λ _, 0)
              DbgContinue 1 log indices E i Hi) as (it & _ & Htrain).
  exists it. apply Htrain. reflexivity.
Defined.

Lemma unknown_class_raises_key_error_witness :
  sample (init two_classes) 0 (Some [0%Z; 7%Z; 1%Z]) None false (λ _, 0)
    DbgContinue 1
  = ([], Raised (KeyErrorInt 7)).
Proof.
  apply (unknown_class_raises_key_error (init two_classes) 0 [0%Z] 7%Z [1%Z]
           None false (λ _, 0) DbgContinue 0).
  - intros c Hc. apply list_elem_of_singleton in Hc as ->.
    eexists. reflexivity.
  - reflexivity.
Defined.

Lemma sample_loops_forever_when_too_few_witness :
  sample (init too_few) 0 None None false (λ _, 0) DbgContinue 3
  = ([Print msg_not_enough; Print msg_all_classes;
      Print msg_not_enough; Print msg_all_classes;
      Print msg_not_enough; Print msg_all_classes], OutOfFuel).
Proof.
  apply (sample_loops_forever_when_too_few (init too_few) 0 None None false
           (λ _, 0) DbgContinue (list_to_set [0; 1]) (list_to_set [0; 1]) 2).
  - reflexivity.
  - reflexivity.
  - reflexivity.
  - vm_compute. reflexivity.
  - vm_compute. lia.
Defined.

Lemma sample_needs_more_items_than_distractors_witness :
  (∃ indices,
     sample_indices (set_mode (init two_classes) "train") 0 None None (λ _, 0)
       DbgContinue 1 = ([], Ok indices) ∧ length indices = 1 + 1) ∧
  sample (set_mode (init too_few) "train") 0 None None false (λ _, 0)
    DbgContinue 2
  = (concat (replicate 2 [Print msg_not_enough; Print msg_all_classes]),
     OutOfFuel).
Proof.
  split.
  - destruct (sample_needs_more_items_than_distractors two_classes "train" 0 1
                false (λ _, 0) DbgContinue) as [Hreturns _].
    + reflexivity.
    + vm_compute. lia.
    + apply Hreturns. vm_compute. lia.
  - destruct (sample_needs_more_items_than_distractors too_few "train" 0 2
                false (λ _, 0) DbgContinue) as [_ Hloops].
    + reflexivity.
    + vm_compute. lia.
    + apply Hloops. vm_compute. lia.
Defined.

Lemma sample_takes_every_index_when_just_enough_witness :
  ∃ indices,
    sample_indices (init sparse_class) 0 None None (λ _, 0) DbgContinue 1
      = ([], Ok indices) ∧
    1 ∈ tail indices ∧ 2 ∈ tail indices.
Proof.
  destruct (sample_takes_every_index_when_just_enough (init sparse_class) 0
              None None (λ _, 0) DbgContinue 0 (list_to_set [0; 1; 2]) 2)
    as (indices & Hrun & _ & Htl).
  - reflexivity.
  - reflexivity.
  - vm_compute. reflexivity.
  - vm_compute. reflexivity.
  - exists indices. split; [exact Hrun|].
    split; apply Htl; vm_compute; reflexivity.
Defined.

Lemma item_without_label_fails_assertion_witness :
  collate (init unlabelled) [0] false = Raised AssertionError.
Proof.
  destruct (item_without_label_fails_assertion (init unlabelled) 0
              (Item 0 [("experiences", picture)])) as [_ Hcall].
  - reflexivity.
  - reflexivity.
  - apply Hcall.
Defined.

Lemma label_that_is_no_integer_fails_assertion_witness :
  collate (init tensor_label) [0] false = Raised AssertionError.
Proof.
  destruct (label_that_is_no_integer_fails_assertion (init tensor_label) 0
              (Item 0 [("experiences", picture); ("exp_labels", picture)])
              picture) as [_ Hcall].
  - reflexivity.
  - reflexivity.
  - intros z. discriminate.
  - reflexivity.
  - apply Hcall.
Defined.

Lemma latent_values_default_to_latents_witness :
  ∃ d, collate (init two_classes) [0; 3] false = Ok d ∧
       is_Some (dict_get "exp_latents" d) ∧
       dict_get "exp_latents_values" d = dict_get "exp_latents" d.
Proof.
  destruct (collate (init two_classes) [0; 3] false) as [d| |] eqn:E;
    [|by vm_compute in E..].
  exists d. split; [reflexivity|]. split.
  - vm_compute in E. injection E as <-. eexists. reflexivity.
  - apply (latent_values_default_to_latents (init two_classes) [0; 3] false d
             3 (labelled 1) E); reflexivity.
Defined.

Lemma supplied_latent_is_kept_witness :
  nbr_classes (init own_latent) = 1 ∧
  ∃ st', collate_item (init own_latent) 0 initial_store = Ok st' ∧
         field_list st' "exp_latents" = Some ([] ++ [latent]).
Proof.
  split; [reflexivity|].
  apply (supplied_latent_is_kept (init own_latent) 0 initial_store
           (Item 9 [("experiences", picture); ("exp_labels", VInt 9);
                    ("exp_latents", latent)]) latent 2 []).
  - apply store_ok_initial.
  - reflexivity.
  - compute_done.
  - eexists. reflexivity.
  - reflexivity.
  - reflexivity.
  - intros k. unfold initial_store. simpl.
    destruct (String.eqb k "experiences"); [discriminate|].
    destruct (String.eqb k "exp_labels"); [discriminate|].
    destruct (String.eqb k "exp_latents") eqn:E;
      [intros _; by apply String.eqb_eq in E|].
    destruct (String.eqb k "exp_latents_values"); discriminate.
  - reflexivity.
Defined.

Lemma shared_latent_list_grows_twice_witness :
  ∃ st st' l l',
    collate_item (init both_latents) 0 initial_store = Ok st ∧
    field_list st "exp_latents" = Some l ∧ length l = 1 ∧
    collate_item (init both_latents) 1 st = Ok st' ∧
    field_list st' "exp_latents" = Some (l ++ l') ∧
    field_list st' "exp_latents_values" = Some (l ++ l') ∧
    2 ≤ length l'.
Proof.
  destruct (collate_item (init both_latents) 0 initial_store) as [st| |] eqn:E;
    [|by vm_compute in E..].
  destruct (collate_item_store_ok (init both_latents) 0 initial_store st
              store_ok_initial E) as [Hok _].
  vm_compute in E. injection E as <-.
  destruct (shared_latent_list_grows_twice (init both_latents) 1 _
              (Item 0 [("experiences", picture); ("exp_labels", VInt 0);
                       ("exp_latents", latent);
                       ("exp_latents_values", latent_value)])
              latent latent_value 2
              [VTensor (one_hot_tensor 1 0)] Hok)
    as (st' & l' & Hrun & Hel & Helv & _ & _ & Hlen).
  - reflexivity.
  - eexists. reflexivity.
  - reflexivity.
  - reflexivity.
  - reflexivity.
  - reflexivity.
  - reflexivity.
  - eexists _, st', _, l'. split; [reflexivity|]. split; [reflexivity|].
    split; [reflexivity|]. split; [exact Hrun|]. split; [exact Hel|].
    split; [exact Helv | exact Hlen].
Defined.

Lemma items_without_experiences_raise_index_error_witness :
  collate (init no_picture) [0] false = Raised IndexError.
Proof.
  destruct (collate_items (init no_picture) [0] false initial_store)
    as [st| |] eqn:E; [|by vm_compute in E..].
  destruct (items_without_experiences_raise_index_error (init no_picture) [0]
              false st) as [_ Hcall].
  - intros i it Hi. apply list_elem_of_singleton in Hi as ->.
    vm_compute. intros [= <-]. reflexivity.
  - exact E.
  - exact Hcall.
Defined.


Lemma save_writes_what_can_be_written_witness :
  (Checkpoint.save config_fails ["speaker"] false (Some "ckpt")).2 = Ok () ∧
  Checkpoint.completed Checkpoint.APipelines
    (Checkpoint.save config_fails ["speaker"] false (Some "ckpt")).1 ∧
  Checkpoint.reported "permission denied"
    (Checkpoint.save config_fails ["speaker"] false (Some "ckpt")).1.
Proof.
  destruct (save_writes_what_can_be_written config_fails ["speaker"] false
              (Some "ckpt")) as (Hret & Hdone & Hrep).
  - reflexivity.
  - intros m _. reflexivity.
  - split; [exact Hret|]. split.
    + apply Hdone. split; [|reflexivity]. right. left.
    + apply (Hrep Checkpoint.AConfig); [left | reflexivity].
Defined.

Lemma save_ends_at_first_failing_module_witness :
  Checkpoint.save speaker_fails ["listener"; "speaker"; "critic"] true
    (Some "ckpt")
  = ([] ++ Checkpoint.save_config speaker_fails
        ++ [Checkpoint.Done (Checkpoint.AModule "listener")],
     Raised (IOError "disk full")).
Proof.
  destruct (save_ends_at_first_failing_module speaker_fails ["listener"]
              "speaker" ["critic"] "disk full" true (Some "ckpt"))
    as [Hrun _].
  - reflexivity.
  - intros m Hm. apply list_elem_of_singleton in Hm as ->. reflexivity.
  - reflexivity.
  - exact Hrun.
Defined.


Lemma zero_save_interval_ends_train_witness :
  ∃ h,
    Train.train (plain_config (Some 0)) two_modes three_pipelines None None 3
      high_accuracy = (h, Raised ZeroDivisionError) ∧
    length h = 3.
Proof.
  destruct (zero_save_interval_ends_train (plain_config (Some 0)) two_modes
              three_pipelines None None 3 high_accuracy) as [_ Hends].
  - reflexivity.
  - simpl. lia.
  - destruct Hends as (h & Hrun & _ & Hlen); [reflexivity|].
    exists h. split; [exact Hrun | exact Hlen].
Defined.

Lemma curriculum_grows_once_per_loader_witness :
  Forall (λ s, Train.active_count s "train" = Some 1
               ∨ Train.active_count s "train" = Some 2)
    (Train.slot (curriculum_config {[ "train" := 5; "test" := 5 ]})
       three_pipelines 2 0 "train" [100%Q; 100%Q; 100%Q]
       (Train.State two_modes "" 0%Q 0 [])).1.
Proof.
  destruct (Train.slot (curriculum_config {[ "train" := 5; "test" := 5 ]})
              three_pipelines 2 0 "train" [100%Q; 100%Q; 100%Q]
              (Train.State two_modes "" 0%Q 0 [])) as [h r] eqn:E.
  apply Forall_forall. intros s Hs.
  destruct (curriculum_grows_once_per_loader
              (curriculum_config {[ "train" := 5; "test" := 5 ]})
              three_pipelines 2 0 "train" [100%Q; 100%Q; 100%Q]
              (Train.State two_modes "" 0%Q 0 []) h r "test") with (s := s)
    as [Hsame|Hmore].
  - compute_done.
  - intros x Hx. vm_compute in Hx.
    apply elem_of_cons in Hx as [->|Hx];
      [|apply elem_of_cons in Hx as [->|Hx]; [|inversion Hx]];
      eexists; reflexivity.
  - reflexivity.
  - reflexivity.
  - exact E.
  - exact Hs.
  - left. rewrite Hsame. reflexivity.
  - right. rewrite Hmore. reflexivity.
Defined.

Lemma loader_serves_each_batch_and_repetition_witness :
  ∃ st',
    (Train.slot (Train.Config None 0 ∅ 2 (Some 3) None) three_pipelines 2 1
       "test" [100%Q; 100%Q] (Train.State two_modes "" 0%Q 0 [])).2 = Ok st' ∧
    Train.served (Train.trace st')
    = ["referential_game"; "referential_game_aux";
       "referential_game"; "referential_game_aux"; "metrics";
       "referential_game"; "referential_game_aux";
       "referential_game"; "referential_game_aux"; "metrics"].
Proof.
  destruct (Train.slot (Train.Config None 0 ∅ 2 (Some 3) None) three_pipelines
              2 1 "test" [100%Q; 100%Q] (Train.State two_modes "" 0%Q 0 []))
    as [h [st'| |]] eqn:E; [|by vm_compute in E..].
  exists st'. split; [reflexivity|].
  destruct (loader_serves_each_batch_and_repetition _ _ _ _ _ _ _ _ _ E)
    as [Hserved _].
  rewrite Hserved. reflexivity.
Defined.


End AtMoreSampleData.
